(** * Forensic archive agent: metadata extraction, classification,
      deduplication and archive placement

    A shallow embedding of the core of the two program variants of the
    repository:

    - the minimal agent, [forensic_archive_agent.py] (module [Agent]);
    - the optimized agent, [forensic_archive_optimized.py] together with
      [forensic_part2_optimized.py] (module [Optimized]).

    Python [str] values are lists of Unicode code points ([str]); the
    [re] calls of the source go through a small backtracking matcher
    ([Regex]) with the priorities of Python's engine (leftmost start,
    greedy or lazy repetition, ordered alternation).  The SQLite table
    [expertise_cases] is a list of rows in rowid order, the file system a
    finite map from paths to file contents plus a set of directories.
    What the source obtains from outside the program (the clock, Word,
    the docx and pdf readers, I/O faults) is a field of an environment
    record or a section variable.

    Where a pattern of the source is quoted in a comment and a star
    meets a closing parenthesis, a space is put between the two. *)

From Stdlib Require Import ZArith Ascii String List Lia Bool.
From Stdlib Require Import DecimalNat DecimalFacts.
From stdpp Require Import base decidable option list gmap sets.

Open Scope Z_scope.

(** ** Text: Python [str] as code points *)

Module Text.

Definition str := list Z.

Definition bytes_of (s : string) : list Z :=
  List.map (fun a => Z.of_N (N_of_ascii a)) (list_ascii_of_string s).

(** UTF-8 decoding of a (well-formed) byte sequence. *)
Fixpoint utf8_decode (bs : list Z) : str :=
  match bs with
  | [] => []
  | b0 :: r0 =>
      if b0 <? 128 then b0 :: utf8_decode r0
      else if b0 <? 224 then
        match r0 with
        | b1 :: r1 => ((b0 - 192) * 64 + (b1 - 128)) :: utf8_decode r1
        | [] => []
        end
      else if b0 <? 240 then
        match r0 with
        | b1 :: b2 :: r2 =>
            ((b0 - 224) * 4096 + (b1 - 128) * 64 + (b2 - 128)) :: utf8_decode r2
        | _ => []
        end
      else
        match r0 with
        | b1 :: b2 :: b3 :: r3 =>
            ((b0 - 240) * 262144 + (b1 - 128) * 4096 + (b2 - 128) * 64 + (b3 - 128))
              :: utf8_decode r3
        | _ => []
        end
  end.

(** [u "..."] is the Python string literal ["..."]. *)
Definition u (s : string) : str := utf8_decode (bytes_of s).

Definition str_eqb (a b : str) : bool := bool_decide (a = b).

(** [c.lower()] and [c.upper()] on the Basic Latin, Latin-1 and Cyrillic
    blocks (every letter of the source's tables and patterns lies there);
    other code points are left as they are. *)
Definition lower_cp (c : Z) : Z :=
  if (65 <=? c) && (c <=? 90) then c + 32
  else if (192 <=? c) && (c <=? 222) && negb (c =? 215) then c + 32
  else if (1024 <=? c) && (c <=? 1039) then c + 80
  else if (1040 <=? c) && (c <=? 1071) then c + 32
  else if c =? 1168 then 1169
  else c.

Definition upper_cp (c : Z) : Z :=
  if (97 <=? c) && (c <=? 122) then c - 32
  else if (224 <=? c) && (c <=? 254) && negb (c =? 247) then c - 32
  else if (1104 <=? c) && (c <=? 1119) then c - 80
  else if (1072 <=? c) && (c <=? 1103) then c - 32
  else if c =? 1169 then 1168
  else c.

Definition lower (s : str) : str := List.map lower_cp s.

(** Decimal digits ([\d], [int()]): the ASCII digits. *)
Definition is_digit (c : Z) : bool := (48 <=? c) && (c <=? 57).

(** White space ([\s], [str.strip()]). *)
Definition is_space (c : Z) : bool :=
  ((9 <=? c) && (c <=? 13)) || ((28 <=? c) && (c <=? 32))
  || (c =? 133) || (c =? 160) || (c =? 5760)
  || ((8192 <=? c) && (c <=? 8202))
  || (c =? 8232) || (c =? 8233) || (c =? 8239) || (c =? 8287) || (c =? 12288).

Fixpoint drop_while (p : Z -> bool) (s : str) : str :=
  match s with
  | [] => []
  | c :: t => if p c then drop_while p t else s
  end.

Definition strip_with (p : Z -> bool) (s : str) : str :=
  rev (drop_while p (rev (drop_while p s))).

(** [s.strip()] *)
Definition strip (s : str) : str := strip_with is_space s.

(** [s.startswith(p)]: the rest of [s] after the prefix [p], if any. *)
Fixpoint strip_prefix (p s : str) : option str :=
  match p, s with
  | [], _ => Some s
  | a :: p', b :: s' => if a =? b then strip_prefix p' s' else None
  | _ :: _, [] => None
  end.

Definition startswith (s p : str) : bool :=
  match strip_prefix p s with Some _ => true | None => false end.

Definition endswith (s p : str) : bool := startswith (rev s) (rev p).

(** [k in s] for strings: [k] occurs in [s] as a contiguous substring. *)
Fixpoint contains (s k : str) : bool :=
  match strip_prefix k s with
  | Some _ => true
  | None => match s with [] => false | _ :: t => contains t k end
  end.

(** [s.count(k)]: the number of non-overlapping occurrences of [k],
    scanning from the left ([len(s) + 1] for the empty [k]). *)
Fixpoint count_from (fuel : nat) (s k : str) : nat :=
  match fuel with
  | O => O
  | S f =>
      match strip_prefix k s with
      | Some rest =>
          match k with
          | [] => match s with [] => 1%nat | _ :: t => S (count_from f t k) end
          | _ :: _ => S (count_from f rest k)
          end
      | None => match s with [] => O | _ :: t => count_from f t k end
      end
  end.

Definition count (s k : str) : nat := count_from (S (length s)) s k.

(** [s.replace(a, b)] for a one-character [a]. *)
Definition replace_char (a : Z) (b : str) (s : str) : str :=
  flat_map (fun c => if c =? a then b else [c]) s.

(** [s.replace(a, b)] for a non-empty [a]. *)
Fixpoint replace_from (fuel : nat) (a b s : str) : str :=
  match fuel with
  | O => s
  | S f =>
      match strip_prefix a s with
      | Some rest =>
          match a with
          | [] => s
          | _ :: _ => b ++ replace_from f a b rest
          end
      | None => match s with [] => [] | c :: t => c :: replace_from f a b t end
      end
  end.

Definition replace (a b s : str) : str := replace_from (S (length s)) a b s.

(** [s.split(sep)] for a one-character separator. *)
Fixpoint split (sep : Z) (s : str) : list str :=
  match s with
  | [] => [[]]
  | c :: t =>
      if c =? sep then [] :: split sep t
      else match split sep t with
           | [] => [[c]]
           | p :: ps => (c :: p) :: ps
           end
  end.

(** [sep.join(parts)] *)
Fixpoint join (sep : str) (parts : list str) : str :=
  match parts with
  | [] => []
  | [p] => p
  | p :: ps => p ++ sep ++ join sep ps
  end.

(** [int(s)] for a string of ASCII digits. *)
Definition int_of (s : str) : Z :=
  fold_left (fun acc c => acc * 10 + (c - 48)) s 0.

(** [str(n)] for a natural number. *)
Fixpoint digits_of_uint (d : Decimal.uint) : str :=
  match d with
  | Decimal.Nil => []
  | Decimal.D0 d' => 48 :: digits_of_uint d'
  | Decimal.D1 d' => 49 :: digits_of_uint d'
  | Decimal.D2 d' => 50 :: digits_of_uint d'
  | Decimal.D3 d' => 51 :: digits_of_uint d'
  | Decimal.D4 d' => 52 :: digits_of_uint d'
  | Decimal.D5 d' => 53 :: digits_of_uint d'
  | Decimal.D6 d' => 54 :: digits_of_uint d'
  | Decimal.D7 d' => 55 :: digits_of_uint d'
  | Decimal.D8 d' => 56 :: digits_of_uint d'
  | Decimal.D9 d' => 57 :: digits_of_uint d'
  end.

Definition str_of_nat (n : nat) : str := digits_of_uint (Nat.to_uint n).

(** [str(z)] for an integer. *)
Definition str_of_Z (z : Z) : str :=
  if z <? 0 then 45 :: str_of_nat (Z.to_nat (- z)) else str_of_nat (Z.to_nat z).

(** [s.zfill(2)] on a string of one or two digits. *)
Definition zfill2 (s : str) : str :=
  match s with
  | [] => [48; 48]
  | [c] => [48; c]
  | _ => s
  end.

(** A Python value used as a condition: [None] and the empty string are
    false. *)
Definition truthy_str (o : option str) : bool :=
  match o with Some (_ :: _) => true | _ => false end.

(** [None] and [0] are false. *)
Definition truthy_int (o : option Z) : bool :=
  match o with Some z => negb (z =? 0) | None => false end.

End Text.

Import Text.

(** ** Regular expressions: the [re] calls of the source *)

Module Regex.

(** An item of a character set [[...]]. *)
Inductive citem :=
| CChr (c : Z)            (* a literal character *)
| CRng (lo hi : Z)        (* a range [lo-hi] *)
| CDigit                  (* \d *)
| CSpace.                 (* \s *)

Inductive regex :=
| Eps
| Any                                         (* .  (no DOTALL) *)
| Lit (s : str)                               (* literal text *)
| CSet (neg : bool) (items : list citem)      (* [...] and [^...] *)
| Cat (r1 r2 : regex)
| Alt (r1 r2 : regex)                         (* r1|r2 *)
| Rep (greedy : bool) (lo : nat) (hi : option nat) (r : regex)
| Grp (i : nat) (r : regex)                   (* the i-th capturing group *)
| Bol                                         (* ^ *)
| Eol.                                        (* $ *)

Definition star (r : regex) : regex := Rep true 0 None r.
Definition plus (r : regex) : regex := Rep true 1 None r.
Definition opt (r : regex) : regex := Rep true 0 (Some 1%nat) r.
Definition lazy_star (r : regex) : regex := Rep false 0 None r.
Definition times (lo hi : nat) (r : regex) : regex := Rep true lo (Some hi) r.
Definition ws : regex := CSet false [CSpace].
Definition digit : regex := CSet false [CDigit].
Definition chr (s : string) : citem :=
  match u s with c :: _ => CChr c | [] => CChr 0 end.
Definition rng (a b : string) : citem :=
  match u a, u b with
  | x :: _, y :: _ => CRng x y
  | _, _ => CRng 1 0
  end.

Fixpoint seq (rs : list regex) : regex :=
  match rs with
  | [] => Eps
  | [r] => r
  | r :: rs' => Cat r (seq rs')
  end.

Fixpoint alts (rs : list regex) : regex :=
  match rs with
  | [] => CSet false []
  | [r] => r
  | r :: rs' => Alt r (alts rs')
  end.

(** One character against one set item; with IGNORECASE a character
    matches when one of its case variants does. *)
Definition item_match1 (it : citem) (c : Z) : bool :=
  match it with
  | CChr x => c =? x
  | CRng lo hi => (lo <=? c) && (c <=? hi)
  | CDigit => is_digit c
  | CSpace => is_space c
  end.

Definition item_match (ic : bool) (it : citem) (c : Z) : bool :=
  item_match1 it c
  || (ic && (item_match1 it (lower_cp c) || item_match1 it (upper_cp c))).

Definition set_match (ic neg : bool) (items : list citem) (c : Z) : bool :=
  xorb neg (existsb (fun it => item_match ic it c) items).

Definition chr_match (ic : bool) (x c : Z) : bool :=
  (c =? x) || (ic && (lower_cp c =? lower_cp x)).

Fixpoint lit_prefix (ic : bool) (l s : str) : option str :=
  match l, s with
  | [], _ => Some s
  | x :: l', c :: s' => if chr_match ic x c then lit_prefix ic l' s' else None
  | _ :: _, [] => None
  end.

(** The state of a match attempt: the position reached, the text left,
    and the spans of the groups closed so far (latest first). *)
Record mstate := MState {
  m_pos : nat;
  m_rest : str;
  m_caps : list (nat * (nat * nat))
}.

Definition advance (s : mstate) (n : nat) (rest : str) : mstate :=
  MState (m_pos s + n)%nat rest (m_caps s).

Definition or_else {A} (a : option A) (b : unit -> option A) : option A :=
  match a with
  | Some x => Some x
  | None => b tt
  end.

(** Backtracking matcher in continuation-passing style: [m ic r k s]
    tries the ways [r] can match at [s] in the engine's order of
    preference and returns the first for which the rest of the pattern,
    [k], succeeds.  A repetition iterates only while its body consumes
    text (no body of the source's patterns matches the empty string), so
    the fuel, one more than the text left, is never exhausted. *)
Fixpoint m (ic : bool) (r : regex) (k : mstate -> option mstate) (s : mstate)
  {struct r} : option mstate :=
  match r with
  | Eps => k s
  | Any =>
      match m_rest s with
      | c :: t => if c =? 10 then None else k (advance s 1 t)
      | [] => None
      end
  | Lit l =>
      match lit_prefix ic l (m_rest s) with
      | Some t => k (advance s (length l) t)
      | None => None
      end
  | CSet neg items =>
      match m_rest s with
      | c :: t => if set_match ic neg items c then k (advance s 1 t) else None
      | [] => None
      end
  | Cat r1 r2 => m ic r1 (fun s1 => m ic r2 k s1) s
  | Alt r1 r2 => or_else (m ic r1 k s) (fun _ => m ic r2 k s)
  | Rep greedy lo hi r1 =>
      (fix loop (fuel cnt : nat) (s0 : mstate) {struct fuel} : option mstate :=
         let stop := fun _ : unit => if (lo <=? cnt)%nat then k s0 else None in
         let more := fun _ : unit =>
           match fuel with
           | O => None
           | S f =>
               if match hi with Some h => (h <=? cnt)%nat | None => false end
               then None
               else m ic r1
                      (fun s1 => if (m_pos s0 <? m_pos s1)%nat
                                 then loop f (S cnt) s1 else None) s0
           end in
         if greedy then or_else (more tt) stop else or_else (stop tt) more)
        (S (length (m_rest s))) O s
  | Grp i r1 =>
      m ic r1 (fun s1 => k (MState (m_pos s1) (m_rest s1)
                              ((i, (m_pos s, m_pos s1)) :: m_caps s1))) s
  | Bol => if (m_pos s =? 0)%nat then k s else None
  | Eol =>
      match m_rest s with
      | [] => k s
      | [c] => if c =? 10 then k s else None
      | _ => None
      end
  end.

(** A match object: start, end and group spans. *)
Record rmatch := RMatch {
  r_start : nat;
  r_end : nat;
  r_rest : str;
  r_caps : list (nat * (nat * nat))
}.

Definition match_here (ic : bool) (r : regex) (pos : nat) (rest : str)
  : option rmatch :=
  match m ic r Some (MState pos rest []) with
  | Some s => Some (RMatch pos (m_pos s) (m_rest s) (m_caps s))
  | None => None
  end.

Fixpoint search_from (ic : bool) (r : regex) (pos : nat) (rest : str)
  : option rmatch :=
  match rest with
  | [] => match_here ic r pos []
  | _ :: t =>
      or_else (match_here ic r pos rest) (fun _ => search_from ic r (S pos) t)
  end.

(** A match object, or [None], used as a condition. *)
Definition matched (o : option rmatch) : bool :=
  match o with Some _ => true | None => false end.

(** [re.search(r, text)] and [re.search(r, text, re.IGNORECASE)] *)
Definition search (ic : bool) (r : regex) (text : str) : option rmatch :=
  search_from ic r 0 text.

(** [re.match(r, text)] *)
Definition match_ (ic : bool) (r : regex) (text : str) : option rmatch :=
  match_here ic r 0 text.

Fixpoint cap_lookup (i : nat) (caps : list (nat * (nat * nat)))
  : option (nat * nat) :=
  match caps with
  | [] => None
  | (j, span) :: rest => if (i =? j)%nat then Some span else cap_lookup i rest
  end.

(** [match.group(i)] of a match on [text] (the empty string for a group
    that took no part in the match; the source only reads groups that
    did). *)
Definition group (text : str) (mt : rmatch) (i : nat) : str :=
  match cap_lookup i (r_caps mt) with
  | Some (a, b) => take (b - a) (drop a text)
  | None => []
  end.

(** Successive matches as [re.finditer], [re.findall] and [re.sub] find
    them: each search starts where the previous match ended, and right
    after an empty match an empty match at that same place is refused. *)
Definition match_here_adv (ic : bool) (r : regex) (adv : bool) (pos : nat)
  (rest : str) : option rmatch :=
  match m ic r (fun s => if adv && (m_pos s =? pos)%nat then None else Some s)
          (MState pos rest []) with
  | Some s => Some (RMatch pos (m_pos s) (m_rest s) (m_caps s))
  | None => None
  end.

Definition search_adv (ic : bool) (r : regex) (adv : bool) (pos : nat)
  (rest : str) : option rmatch :=
  match rest with
  | [] => match_here_adv ic r adv pos []
  | _ :: t =>
      or_else (match_here_adv ic r adv pos rest)
              (fun _ => search_from ic r (S pos) t)
  end.

Fixpoint finditer_from (fuel : nat) (ic : bool) (r : regex) (adv : bool)
  (pos : nat) (rest : str) : list rmatch :=
  match fuel with
  | O => []
  | S f =>
      match search_adv ic r adv pos rest with
      | None => []
      | Some mt =>
          mt :: finditer_from f ic r (r_end mt =? r_start mt)%nat
                  (r_end mt) (r_rest mt)
      end
  end.

Definition finditer (ic : bool) (r : regex) (text : str) : list rmatch :=
  finditer_from (2 * length text + 3) ic r false 0 text.

(** [len(re.findall(r, text))] *)
Definition findall_count (ic : bool) (r : regex) (text : str) : nat :=
  length (finditer ic r text).

Fixpoint delete_spans (pos : nat) (rest : str) (ms : list rmatch) : str :=
  match ms with
  | [] => rest
  | mt :: ms' =>
      take (r_start mt - pos) rest ++ delete_spans (r_end mt) (r_rest mt) ms'
  end.

(** [re.sub(r, '', text)] *)
Definition sub_delete (ic : bool) (r : regex) (text : str) : str :=
  delete_spans 0 text (finditer ic r text).

(** [re.sub(r, rep, text)] for a constant replacement. *)
Fixpoint replace_spans (rep : str) (pos : nat) (rest : str)
  (ms : list rmatch) : str :=
  match ms with
  | [] => rest
  | mt :: ms' =>
      take (r_start mt - pos) rest ++ rep
        ++ replace_spans rep (r_end mt) (r_rest mt) ms'
  end.

Definition sub (ic : bool) (r : regex) (rep : str) (text : str) : str :=
  replace_spans rep 0 text (finditer ic r text).

End Regex.

Import Regex.

(** ** Python dictionaries with insertion order *)

Module Dict.

Section Dict.
Context {V : Type}.

Definition dict := list (str * V).

(** [d.get(k)] *)
Fixpoint get (d : dict) (k : str) : option V :=
  match d with
  | [] => None
  | (k', v) :: d' => if str_eqb k k' then Some v else get d' k
  end.

(** [k in d] *)
Definition mem (d : dict) (k : str) : bool :=
  match get d k with Some _ => true | None => false end.

(** [d.get(k, default)] *)
Definition get_default (d : dict) (k : str) (default : V) : V :=
  match get d k with Some v => v | None => default end.

(** [d[k] = v]: an existing key keeps its place, a new one goes last. *)
Fixpoint set (d : dict) (k : str) (v : V) : dict :=
  match d with
  | [] => [(k, v)]
  | (k', v') :: d' =>
      if str_eqb k k' then (k', v) :: d' else (k', v') :: set d' k v
  end.

End Dict.

Arguments dict V : clear implicits.

(** [max(d, key=d.get)]: the first key, in iteration order, whose value
    is the greatest. *)
Fixpoint max_key_from (best : str) (bv : Z) (d : dict Z) : str :=
  match d with
  | [] => best
  | (k, v) :: d' =>
      if bv <? v then max_key_from k v d' else max_key_from best bv d'
  end.

Definition max_key (d : dict Z) : option str :=
  match d with
  | [] => None
  | (k, v) :: d' => Some (max_key_from k v d')
  end.

End Dict.

(** ** The world outside the program: files, the index table, the
       environment of one call *)

Module World.

Definition path := str.
Definition bytes := list Z.

(** *** [os.path] (POSIX flavour) *)

Definition sep : Z := 47.
Definition dot : Z := 46.

Fixpoint take_until_sep (s : str) : str :=
  match s with
  | [] => []
  | c :: t => if c =? sep then [] else c :: take_until_sep t
  end.

(** [os.path.basename(p)] *)
Definition basename (p : path) : str := rev (take_until_sep (rev p)).

(** Going back from the end of the path: the extension collected so far
    and what is left in front of its dot. *)
Fixpoint ext_scan (acc : str) (r : str) : option (str * str) :=
  match r with
  | [] => None
  | c :: t =>
      if c =? sep then None
      else if c =? dot then Some (dot :: acc, t)
      else ext_scan (c :: acc) t
  end.

(** [os.path.splitext(p)]: a dot that only follows dots at the start of
    the last component does not begin an extension. *)
Definition splitext (p : path) : str * str :=
  match ext_scan [] (rev p) with
  | Some (ext, before) =>
      if existsb (fun c => negb (c =? dot)) (take_until_sep before)
      then (rev before, ext)
      else (p, [])
  | None => (p, [])
  end.

(** [os.path.join(a, b)] *)
Definition join2 (a b : path) : path :=
  match b with
  | c :: _ =>
      if c =? sep then b
      else match rev a with
           | [] => b
           | l :: _ => if l =? sep then a ++ b else a ++ sep :: b
           end
  | [] =>
      match rev a with
      | [] => []
      | l :: _ => if l =? sep then a else a ++ [sep]
      end
  end.

Definition join_path (a : path) (bs : list path) : path := fold_left join2 bs a.

(** *** The file system *)

Record fsys := FS {
  files : gmap path bytes;     (* regular files and their contents *)
  dirs : gset path             (* directories *)
}.

Definition is_file (fs : fsys) (p : path) : bool :=
  bool_decide (is_Some (files fs !! p)).
Definition is_dir (fs : fsys) (p : path) : bool := bool_decide (p ∈ dirs fs).

(** [os.path.exists(p)] *)
Definition path_exists (fs : fsys) (p : path) : bool := is_file fs p || is_dir fs p.

Definition write_file (fs : fsys) (p : path) (b : bytes) : fsys :=
  FS (<[p := b]> (files fs)) (dirs fs).

(** [os.remove(p)] inside [try: ... except: pass] *)
Definition remove_file (fs : fsys) (p : path) : fsys :=
  FS (delete p (files fs)) (dirs fs).

(** The path itself and the prefixes that end before a separator. *)
Fixpoint prefixes (acc : str) (s : str) : list path :=
  match s with
  | [] => [rev acc]
  | c :: t =>
      if c =? sep then rev acc :: prefixes (c :: acc) t
      else prefixes (c :: acc) t
  end.

Definition ancestors (p : path) : list path :=
  List.filter (fun q => negb (str_eqb q [])) (prefixes [] p).

(** *** The table [expertise_cases] *)

Record row := Row {
  id : Z;
  erddr_number : option str;
  expertise_number : option str;       (* TEXT UNIQUE *)
  expertise_date : option str;
  expertise_year : option Z;
  expertise_type : option str;
  expert_name : option str;
  sector : option str;
  source_file : option str;
  file_path : option str;
  file_size : option Z;
  file_hash : option str
}.

(** The rows in rowid order and the largest rowid handed out so far
    (AUTOINCREMENT). *)
Record table := Table {
  rows : list row;
  last_rowid : Z
}.

(** [SELECT ... WHERE col = ?] followed by [fetchone()]: the first row, in
    rowid order, whose column holds the value (NULL equals nothing). *)
Definition select_one (col : row -> option str) (v : str) (t : table)
  : option row :=
  List.find (fun r => bool_decide (col r = Some v)) (rows t).

(** The UNIQUE constraint on [expertise_number]: two NULLs do not clash. *)
Definition unique_ok (t : table) (number : option str) : bool :=
  match number with
  | Some n => negb (existsb (fun r => bool_decide (expertise_number r = Some n)) (rows t))
  | None => true
  end.

(** [INSERT INTO expertise_cases ...]: [None] is sqlite3.IntegrityError. *)
Definition insert (t : table) (mk : Z -> row) : option (Z * table) :=
  let rowid := last_rowid t + 1 in
  let r := mk rowid in
  if unique_ok t (expertise_number r)
  then Some (rowid, Table (rows t ++ [r]) rowid)
  else None.

(** The rows that carry a given expertise number. *)
Definition rows_with_number (t : table) (n : str) : list row :=
  List.filter (fun r => bool_decide (expertise_number r = Some n)) (rows t).

Record world := World_ {
  w_fs : fsys;
  w_db : table
}.

(** *** The environment of one call

    What a call reads from outside the program: the clock, the
    availability and the results of the document libraries, and the
    faults of the operating system and of SQLite during the call. *)
Record env := Env {
  now_stamp : str;                      (* datetime.now().strftime('%Y%m%d_%H%M%S') *)
  current_year : Z;                     (* datetime.now().year *)
  WIN32_AVAILABLE : bool;
  word_convert : bytes -> option bytes; (* Word: open the .doc, SaveAs2 as .docx *)
  docx_text : bytes -> option str;      (* python-docx on a file's contents *)
  pdf_text : bytes -> option str;       (* pdfplumber, then PyPDF2 *)
  makedirs_fails : path -> bool;        (* os.makedirs(p, exist_ok=True) raises *)
  copy_fails : path -> path -> bool;    (* shutil.copy2(src, dst) raises *)
  md5_hex : bytes -> str;               (* hashlib.md5 over the contents, hexdigest() *)
  read_fails : path -> bool;            (* open(p, 'rb') or a read raises *)
  dir_size : path -> Z;                 (* os.path.getsize of a directory *)
  select_fails : bool;                  (* the SELECT raises *)
  insert_fails : bool;                  (* the INSERT or the commit raises *)
  exc_text : str                        (* str(e) of the exception caught *)
}.

(** [os.makedirs(p, exist_ok=True)]: [None] when it raises. *)
Definition makedirs (e : env) (fs : fsys) (p : path) : option fsys :=
  if makedirs_fails e p || existsb (is_file fs) (ancestors p)
  then None
  else Some (FS (files fs) (dirs fs ∪ list_to_set (ancestors p))).

(** [os.path.dirname(p)] *)
Fixpoint drop_until_sep (s : str) : str :=
  match s with
  | [] => []
  | c :: t => if c =? sep then s else drop_until_sep t
  end.

Definition dirname (p : path) : path :=
  let head := rev (drop_until_sep (rev p)) in
  if forallb (fun c => c =? sep) head then head
  else rev (drop_while (fun c => c =? sep) (rev head)).

(** The directory a new file goes into is there: the working directory,
    the root, or a directory of the model. *)
Definition parent_ok (fs : fsys) (p : path) : bool :=
  let d := dirname p in
  str_eqb d [] || forallb (fun c => c =? sep) d || is_dir fs d.

(** [shutil.copy2(src, dst)]: a destination that is a directory receives
    the file under the source's name; [None] when it raises. *)
Definition copy2 (e : env) (fs : fsys) (src dst : path) : option fsys :=
  let target := if is_dir fs dst then join2 dst (basename src) else dst in
  match files fs !! src with
  | Some b =>
      if copy_fails e src dst || str_eqb src target || is_dir fs target
         || negb (parent_ok fs target)
      then None
      else Some (write_file fs target b)
  | None => None
  end.

End World.

(** ** The minimal agent: [forensic_archive_agent.py] *)

Module Agent.

(** [self.sectors] *)
Definition sectors : Dict.dict str :=
  [ (u "Сектор почеркознавчих досліджень", u "почерк та  ТЕД");
    (u "Сектор досліджень зброї", u "балісти");
    (u "Сектор трасологічних досліджень", u "трасологія");
    (u "Сектор дактилоскопічних досліджень", u "дактилоскопія");
    (u "Сектор балістичного обліку", u "бал. облік") ].

Definition default_sector : str := u "почерк та ТЕД".
Definition unknown_expert : str := u "Невідомий_експерт".
Definition undetermined : str := u "невизначено".

(** The dict built by [parse_expertise_document]. *)
Record parsed := Parsed {
  erddr_number : str;
  expertise_number : str;
  expertise_date : str;
  expertise_year : option Z;
  expertise_type : str;
  source_file : str
}.

(** [[^\s,\n\.]+] *)
Definition token : regex :=
  plus (CSet true [CSpace; chr ","; CChr 10; chr "."]).

Definition erddr_patterns : list regex :=
  [ (* №\s*ЄРДР\s*([^\s,\n\.]+) *)
    seq [Lit (u "№"); star ws; Lit (u "ЄРДР"); star ws; Grp 1 token];
    (* ЄРДР\s*№?\s*([^\s,\n\.]+) *)
    seq [Lit (u "ЄРДР"); star ws; opt (Lit (u "№")); star ws; Grp 1 token];
    (* кримінальному провадженню\s*№\s*([^\s,\n\.]+) *)
    seq [Lit (u "кримінальному провадженню"); star ws; Lit (u "№"); star ws;
         Grp 1 token];
    (* провадження\s*№\s*([^\s,\n\.]+) *)
    seq [Lit (u "провадження"); star ws; Lit (u "№"); star ws; Grp 1 token];
    (* справі\s*№\s*([^\s,\n\.]+) *)
    seq [Lit (u "справі"); star ws; Lit (u "№"); star ws; Grp 1 token] ].

(** [^[^\d]*|[^\d]*$] *)
Definition non_digit_edges : regex :=
  Alt (Cat Bol (star (CSet true [CDigit]))) (Cat (star (CSet true [CDigit])) Eol).

Fixpoint parse_erddr (patterns : list regex) (text : str) : str :=
  match patterns with
  | [] => []
  | pattern :: rest =>
      match search true pattern text with
      | Some mt =>
          let erddr := strip (group text mt 1) in
          let erddr := sub_delete false non_digit_edges erddr in
          if (8 <=? length erddr)%nat then erddr else parse_erddr rest text
      | None => parse_erddr rest text
      end
  end.

(** [[^,\n\.]] *)
Definition no_sep : regex := CSet true [chr ","; CChr 10; chr "."].

Definition expertise_patterns : list regex :=
  [ (* №\s*(\d+/\d+[А-Я]+-\d+) *)
    seq [Lit (u "№"); star ws;
         Grp 1 (seq [plus digit; Lit (u "/"); plus digit;
                     plus (CSet false [rng "А" "Я"]); Lit (u "-"); plus digit])];
    (* експертиза\s*№\s*([^\s,\n\.]+) *)
    seq [Lit (u "експертиза"); star ws; Lit (u "№"); star ws; Grp 1 token];
    (* висновок\s*№\s*([^\s,\n\.]+) *)
    seq [Lit (u "висновок"); star ws; Lit (u "№"); star ws; Grp 1 token];
    (* висновок.*?№\s*([^\s,\n\.]+) *)
    seq [Lit (u "висновок"); lazy_star Any; Lit (u "№"); star ws; Grp 1 token];
    (* №\s*([^,\n\.]*\d+[^,\n\.]* ) *)
    seq [Lit (u "№"); star ws;
         Grp 1 (seq [star no_sep; plus digit; star no_sep])] ].

Fixpoint parse_number (patterns : list regex) (text : str) : str :=
  match patterns with
  | [] => []
  | pattern :: rest =>
      match search true pattern text with
      | Some mt =>
          let expertise_num := strip (group text mt 1) in
          if matched (search false digit expertise_num)
             && (3 <? length expertise_num)%nat
          then expertise_num
          else parse_number rest text
      | None => parse_number rest text
      end
  end.

(** [\d{1,2}] and [\d{4}] *)
Definition d12 : regex := times 1 2 digit.
Definition d4 : regex := times 4 4 digit.

Definition date_patterns : list regex :=
  [ (* (\d{1,2}\.\d{1,2}\.(\d{4})) *)
    Grp 1 (seq [d12; Lit (u "."); d12; Lit (u "."); Grp 2 d4]);
    (* (\d{1,2}\/\d{1,2}\/(\d{4})) *)
    Grp 1 (seq [d12; Lit (u "/"); d12; Lit (u "/"); Grp 2 d4]);
    (* від\s*(\d{1,2}\.\d{1,2}\.(\d{4})) *)
    seq [Lit (u "від"); star ws;
         Grp 1 (seq [d12; Lit (u "."); d12; Lit (u "."); Grp 2 d4])] ].

Fixpoint parse_date (patterns : list regex) (text : str) : str * option Z :=
  match patterns with
  | [] => ([], None)
  | pattern :: rest =>
      match search false pattern text with
      | Some mt => (group text mt 1, Some (int_of (group text mt 2)))
      | None => parse_date rest text
      end
  end.

(** The fallback scan for a bare year, [20(\d{2})], run when no date gave
    a (non-zero) year. *)
Definition fallback_year (text : str) (year : option Z) : option Z :=
  if truthy_int year then year
  else
    match search false (seq [Lit (u "20"); Grp 1 (times 2 2 digit)]) text with
    | Some mt =>
        let y := int_of (u "20" ++ group text mt 1) in
        if (2000 <=? y) && (y <=? 2030) then Some y else year
    | None => year
    end.

(** *** Type classifier *)

Definition kw (s : string) : regex := Lit (u s).
(** A keyword of the form [a.*b]. *)
Definition kw_gap (a b : string) : regex :=
  seq [Lit (u a); star Any; Lit (u b)].

Definition weapons : str := u "зброї".
Definition trasology : str := u "трасологічна".

Definition expertise_keywords_weighted : list (str * (list regex * Z)) :=
  [ (weapons,
     ([kw "зброя"; kw "пістолет"; kw "автомат"; kw "ніж"; kw "холодна зброя";
       kw "вогнепальна"; kw "куля"; kw "гільза"; kw "балісти"; kw "постріл";
       kw "набій"; kw "патрон"; kw "ствол"], 10));
    (trasology,
     ([kw "трасол"; kw "слід"; kw "відбиток"; kw "папіляр"; kw "взуття";
       kw "шини"; kw "транспорт"; kw "колесо"; kw "протектор";
       kw "механоскопі"; kw "замок"; kw "ключ"], 8));
    (u "дактилоскопічна",
     ([kw "дактило"; kw "палець"; kw "папіляр"; kw "відбиток пальц";
       kw "дерматогліф"], 9));
    (u "почеркознавча",
     ([kw "почерк"; kw "підпис"; kw "рукопис"; kw "письмо"; kw "графолог";
       kw_gap "ідентифік" "підпис"], 7));
    (u "бал. облік",
     ([kw_gap "куля" "облік"; kw_gap "гільза" "облік"; kw "балістичний облік";
       kw_gap "ідентифік" "куля"], 6)) ].

(** The inner loop over the keywords of one category. *)
Fixpoint keyword_score (keywords : list regex) (weight : Z) (text_lower : str)
  (score : Z) : Z :=
  match keywords with
  | [] => score
  | keyword :: rest =>
      if matched (search false keyword text_lower)
      then
        let occurrences := Z.of_nat (findall_count false keyword text_lower) in
        keyword_score rest weight text_lower
          (score + weight + (occurrences - 1) * 2)
      else keyword_score rest weight text_lower score
  end.

(** The outer loop: [type_scores] holds the categories that scored above
    zero, in table order. *)
Fixpoint score_types (table : list (str * (list regex * Z))) (text_lower : str)
  (type_scores : Dict.dict Z) : Dict.dict Z :=
  match table with
  | [] => type_scores
  | (expertise_type, (keywords, weight)) :: rest =>
      let score := keyword_score keywords weight text_lower 0 in
      score_types rest text_lower
        (if 0 <? score then Dict.set type_scores expertise_type score
         else type_scores)
  end.

Definition trasology_indicators : list str :=
  [u "слід"; u "відбиток"; u "взуття"; u "шини"; u "механоскопі"; u "замок"].
Definition weapons_indicators : list str :=
  [u "постріл"; u "вогнепальна"; u "ствол"; u "набій"].

(** [sum(1 for ind in indicators if ind in text_lower)] *)
Definition indicator_count (indicators : list str) (text_lower : str) : Z :=
  Z.of_nat (length (List.filter (fun ind => contains text_lower ind) indicators)).

(** [d[k] += n] for a key that is present. *)
Definition bump (d : Dict.dict Z) (k : str) (n : Z) : Dict.dict Z :=
  match Dict.get d k with
  | Some v => Dict.set d k (v + n)
  | None => d
  end.

(** The special case for the two categories that are easily confused. *)
Definition disambiguate (type_scores : Dict.dict Z) (text_lower : str)
  : Dict.dict Z :=
  if Dict.mem type_scores trasology && Dict.mem type_scores weapons then
    let trasology_count := indicator_count trasology_indicators text_lower in
    let weapons_count := indicator_count weapons_indicators text_lower in
    if weapons_count <? trasology_count
    then bump type_scores trasology 5
    else bump type_scores weapons 5
  else type_scores.

Definition base_scores (text : str) : Dict.dict Z :=
  score_types expertise_keywords_weighted (lower text) [].

Definition final_scores (text : str) : Dict.dict Z :=
  disambiguate (base_scores text) (lower text).

Definition determine_expertise_type (text : str) : str :=
  match Dict.max_key (final_scores text) with
  | Some best_type => best_type
  | None => undetermined
  end.

Definition sector_type_mapping : Dict.dict str :=
  [ (u "почерк та ТЕД", u "почеркознавча");
    (u "балісти", u "зброї");
    (u "трасологія", u "трасологічна");
    (u "дактилоскопія", u "дактилоскопічна");
    (u "бал. облік", u "бал. облік") ].

Definition determine_expertise_type_by_sector (text : str) (sector_code : str)
  : str :=
  let general_type := determine_expertise_type text in
  if str_eqb general_type undetermined
     || Dict.mem sector_type_mapping sector_code
  then
    let sector_type :=
      Dict.get_default sector_type_mapping sector_code general_type in
    if negb (str_eqb general_type undetermined) then
      match Dict.get sector_type_mapping sector_code with
      | Some expected_type =>
          if truthy_str (Some expected_type)
             && negb (str_eqb general_type expected_type)
          then expected_type ++ u " (авто)"
          else sector_type
      | None => sector_type
      end
    else sector_type
  else general_type.

Definition parse_expertise_document (text filename : str)
  (sector_code : option str) : parsed :=
  let erddr := parse_erddr erddr_patterns text in
  let number := parse_number expertise_patterns text in
  let '(date, year) := parse_date date_patterns text in
  let year := fallback_year text year in
  let type :=
    if truthy_str sector_code
    then determine_expertise_type_by_sector text (default [] sector_code)
    else determine_expertise_type text in
  Parsed erddr number date year type filename.

(** *** Sector from a path *)

Definition sector_keywords : list (str * list str) :=
  [ (u "почерк та ТЕД",
     [u "почерк"; u "тед"; u "підпис"; u "рукопис"; u "графолог"]);
    (u "балісти",
     [u "балісти"; u "зброя"; u "пістолет"; u "куля"; u "гільза"; u "постріл"]);
    (u "трасологія",
     [u "трасол"; u "слід"; u "відбиток"; u "взуття"; u "шини"; u "механо"]);
    (u "дактилоскопія", [u "дактило"; u "палець"; u "папіляр"; u "дерматогліф"]);
    (u "бал. облік", [u "облік"; u "кулі"; u "гільзи"; u "ідентифік"]) ].

(** [file_path.replace('\\', '/').split('/')] *)
Definition path_parts (file_path : str) : list str :=
  split 47 (replace_char 92 [47] file_path).

(** The innermost loop: does a keyword occur in this part? *)
Fixpoint scan_keywords (keywords : list str) (part : str) : bool :=
  match keywords with
  | [] => false
  | keyword :: rest =>
      if contains (lower part) keyword then true else scan_keywords rest part
  end.

(** The loop over the parts of the path, for one sector. *)
Fixpoint scan_parts (parts : list str) (keywords : list str) : bool :=
  match parts with
  | [] => false
  | part :: rest =>
      if scan_keywords keywords part then true else scan_parts rest keywords
  end.

(** The loop over the sectors; the first hit returns. *)
Fixpoint scan_sectors (table : list (str * list str)) (parts : list str)
  : option str :=
  match table with
  | [] => None
  | (sector, keywords) :: rest =>
      if scan_parts parts keywords
      then Some (Dict.get_default sectors sector sector)
      else scan_sectors rest parts
  end.

Definition determine_sector_from_path (file_path : str) : str :=
  match scan_sectors sector_keywords (path_parts file_path) with
  | Some code => code
  | None => default_sector
  end.

(** *** Adding a document *)

Import World.

Record agent := AgentCfg {
  archive_folder : path;
  existing_archive_path : option path;
  index_only_mode : bool
}.

(** [convert_doc_to_docx]: Word writes the converted document next to
    the source, under the name [doc_path.replace('.doc', '.docx')]. *)
Definition convert_doc_to_docx (e : env) (fs : fsys) (doc_path : path)
  : option path * fsys :=
  if negb (WIN32_AVAILABLE e) then (None, fs)
  else
    match files fs !! doc_path with
    | Some b =>
        match word_convert e b with
        | Some b' =>
            let docx_path := replace (u ".doc") (u ".docx") doc_path in
            (Some docx_path, write_file fs docx_path b')
        | None => (None, fs)
        end
    | None => (None, fs)
    end.

Definition extract_docx_content (e : env) (fs : fsys) (file_path : path)
  : option str :=
  match files fs !! file_path with
  | Some b => docx_text e b
  | None => None
  end.

Definition extract_pdf_content (e : env) (fs : fsys) (file_path : path)
  : option str :=
  match files fs !! file_path with
  | Some b => pdf_text e b
  | None => None
  end.

Definition file_ext_of (file_path : path) : str := lower (snd (splitext file_path)).

Definition get_file_content (e : env) (fs : fsys) (file_path : path)
  : option str * fsys :=
  let file_ext := file_ext_of file_path in
  if str_eqb file_ext (u ".docx") then (extract_docx_content e fs file_path, fs)
  else if str_eqb file_ext (u ".pdf") then (extract_pdf_content e fs file_path, fs)
  else if str_eqb file_ext (u ".doc") then
    if WIN32_AVAILABLE e then
      match convert_doc_to_docx e fs file_path with
      | (Some docx_path, fs1) =>
          if truthy_str (Some docx_path)
          then (extract_docx_content e fs1 docx_path, remove_file fs1 docx_path)
          else (None, fs1)
      | (None, fs1) => (None, fs1)
      end
    else (None, fs)
  else (None, fs).

(** The character set of the three [re.sub] calls: the characters
    < > : / | ? and the star, the double quote and the backslash. *)
Definition illegal : regex :=
  CSet false [chr "<"; chr ">"; chr ":"; CChr 34; chr "/"; CChr 92; chr "|";
              chr "?"; chr "*"].

Definition sanitize (s : str) : str := sub false illegal (u "_") s.

(** [a or b] on strings and on integers. *)
Definition or_str (a : option str) (b : str) : str :=
  if truthy_str a then default [] a else b.
Definition or_int (a b : option Z) : option Z :=
  if truthy_int a then a else b.

(** [get_file_destination_path]: [None] when even the fallback directory
    cannot be made (the exception leaves the function). *)
Definition get_file_destination_path (self : agent) (e : env) (fs : fsys)
  (sector_code expert_name : str) (expertise_year : option Z)
  (expertise_number : str) : option (path * fsys) :=
  let year_folder :=
    if truthy_int expertise_year then str_of_Z (default 0 expertise_year)
    else str_of_Z (current_year e) in
  let safe_expert := sanitize (or_str (Some expert_name) unknown_expert) in
  let safe_sector := sanitize (or_str (Some sector_code) default_sector) in
  let safe_expertise :=
    if truthy_str (Some expertise_number) then sanitize expertise_number
    else u "експертиза_" ++ now_stamp e in
  let path :=
    join_path (archive_folder self)
      [safe_sector; safe_expert; year_folder; safe_expertise] in
  match makedirs e fs path with
  | Some fs1 => Some (path, fs1)
  | None =>
      let simple_path := join_path (archive_folder self) [safe_sector] in
      match makedirs e fs simple_path with
      | Some fs1 => Some (simple_path, fs1)
      | None => None
      end
  end.

Definition supported_formats : list str := [u ".doc"; u ".docx"; u ".pdf"].

(** [file_ext in supported_formats] *)
Definition supported (file_ext : str) : bool :=
  existsb (str_eqb file_ext) supported_formats.

Definition msg_not_found : str := u "Файл не знайдено".
Definition msg_no_win32 : str :=
  u "Конвертація .doc файлів недоступна. Використовуйте .docx файли.".
Definition msg_convert_failed : str := u "Не вдалося конвертувати .doc файл".
Definition msg_unsupported (file_ext : str) : str :=
  u "Підтримуються файли: " ++ join (u ", ") supported_formats
    ++ u ". Отримано: " ++ file_ext.
Definition msg_no_text (file_ext : str) : str :=
  u "Не вдалося прочитати текст з файлу " ++ file_ext.
Definition msg_no_expert : str :=
  u "Не вказано прізвище експерта. Будь ласка, введіть прізвище експерта.".
Definition msg_no_sector : str :=
  u "Не вказано сектор. Будь ласка, оберіть сектор.".
Definition msg_exists (number : str) : str :=
  u "Експертиза №" ++ number ++ u " вже існує в базі".
Definition msg_check_error (exc : str) : str :=
  u "Помилка перевірки унікальності: " ++ exc.
Definition msg_outside_archive : str :=
  u "Файл не знаходиться в зазначеному архіві".
Definition msg_copy_error (exc : str) : str :=
  u "Помилка копіювання файлу: " ++ exc.
Definition msg_added (sector expert dest_path type : str) : str :=
  u "Додано в " ++ sector ++ u "/" ++ expert ++ u ": " ++ basename dest_path
    ++ u " (тип: " ++ type ++ u ")".
Definition msg_save_error (exc : str) : str :=
  u "Помилка збереження в базу: " ++ exc.

(** The record built from the parsed fields and the caller's arguments. *)
Record data := Data {
  d_erddr_number : str;
  d_expertise_number : str;
  d_expertise_date : str;
  d_expertise_year : option Z;
  d_expertise_type : str;
  d_expert_name : str;
  d_sector : str;
  d_source_file : str
}.

Definition row_of (d : data) (file_path : path) (rowid : Z) : row :=
  Row rowid (Some (d_erddr_number d)) (Some (d_expertise_number d))
      (Some (d_expertise_date d)) (d_expertise_year d)
      (Some (d_expertise_type d)) (Some (d_expert_name d)) (Some (d_sector d))
      (Some (d_source_file d)) (Some file_path) None None.

(** The last step of [add_document]: the INSERT, the removal of the
    temporary .docx and the success message.  In index-only mode the
    message reads [dest_path], which was never assigned: the exception is
    caught by the same handler as a failed INSERT, after the commit. *)
Definition store (e : env) (w : world) (d : data) (file_path original_path : path)
  (stored_path : path) (dest_path : option path) : (bool * str) * world :=
  if insert_fails e then ((false, msg_save_error (exc_text e)), w)
  else
    match insert (w_db w) (row_of d stored_path) with
    | None => ((false, msg_save_error (exc_text e)), w)
    | Some (_, db1) =>
        let fs1 :=
          if negb (str_eqb file_path original_path)
             && path_exists (w_fs w) file_path
          then remove_file (w_fs w) file_path
          else w_fs w in
        let w1 := World_ fs1 db1 in
        match dest_path with
        | Some dp =>
            ((true, msg_added (d_sector d) (d_expert_name d) dp
                      (d_expertise_type d)), w1)
        | None => ((false, msg_save_error (exc_text e)), w1)
        end
    end.

(** Placing the file (or keeping a reference to it), then [store]. *)
Definition place_and_store (self : agent) (e : env) (w : world) (d : data)
  (file_path original_path : path) : (bool * str) * world :=
  if index_only_mode self && truthy_str (existing_archive_path self) then
    if negb (startswith file_path (default [] (existing_archive_path self)))
    then ((false, msg_outside_archive), w)
    else store e w d file_path original_path file_path None
  else
    match get_file_destination_path self e (w_fs w) (d_sector d)
            (d_expert_name d) (d_expertise_year d) (d_expertise_number d) with
    | None => ((false, msg_copy_error (exc_text e)), w)
    | Some (dest_path, fs1) =>
        let dest_file_path := join2 dest_path (basename original_path) in
        match copy2 e fs1 original_path dest_file_path with
        | None => ((false, msg_copy_error (exc_text e)), World_ fs1 (w_db w))
        | Some fs2 =>
            store e (World_ fs2 (w_db w)) d file_path original_path
              dest_file_path (Some dest_path)
        end
    end.

(** The uniqueness check on the expertise number, then the placement. *)
Definition check_and_place (self : agent) (e : env) (w : world) (d : data)
  (file_path original_path : path) : (bool * str) * world :=
  if select_fails e then ((false, msg_check_error (exc_text e)), w)
  else
    match select_one expertise_number (d_expertise_number d) (w_db w) with
    | Some _ => ((false, msg_exists (d_expertise_number d)), w)
    | None => place_and_store self e w d file_path original_path
    end.

(** The record [data]: the caller's arguments win over the parsed
    fields. *)
Definition make_data (parsed_data : parsed)
  (sector_code expert_name : option str) (expertise_year : option Z)
  (expertise_number : option str) : data :=
  Data (Agent.erddr_number parsed_data)
       (or_str expertise_number (Agent.expertise_number parsed_data))
       (Agent.expertise_date parsed_data)
       (or_int expertise_year (Agent.expertise_year parsed_data))
       (Agent.expertise_type parsed_data)
       (or_str expert_name unknown_expert)
       (or_str sector_code default_sector)
       (Agent.source_file parsed_data).

(** A record without an expertise number gets a number made from the
    clock. *)
Definition with_auto_number (e : env) (d : data) : data :=
  if negb (truthy_str (Some (d_expertise_number d)))
  then Data (d_erddr_number d) (u "AUTO_" ++ now_stamp e)
            (d_expertise_date d) (d_expertise_year d)
            (d_expertise_type d) (d_expert_name d) (d_sector d)
            (d_source_file d)
  else d.

(** From the readable file to the record to be stored. *)
Definition parse_and_add (self : agent) (e : env) (w : world)
  (file_path original_path file_ext : path)
  (sector_code expert_name : option str) (expertise_year : option Z)
  (expertise_number : option str) : (bool * str) * world :=
  if negb (supported file_ext)
  then ((false, msg_unsupported file_ext), w)
  else
    match get_file_content e (w_fs w) file_path with
    | (text, fs1) =>
        let w1 := World_ fs1 (w_db w) in
        if negb (truthy_str text) then ((false, msg_no_text file_ext), w1)
        else
          let parsed_data :=
            parse_expertise_document (default [] text)
              (basename original_path) sector_code in
          let d :=
            make_data parsed_data sector_code expert_name expertise_year
              expertise_number in
          if (negb (truthy_str (Some (d_expert_name d)))
              || str_eqb (d_expert_name d) unknown_expert)
             && negb (truthy_str expert_name)
          then ((false, msg_no_expert), w1)
          else if negb (truthy_str (Some (d_sector d)))
          then ((false, msg_no_sector), w1)
          else
            check_and_place self e w1 (with_auto_number e d) file_path
              original_path
    end.

Definition add_document (self : agent) (e : env) (w : world)
  (file_path : path) (sector_code expert_name : option str)
  (expertise_year : option Z) (expertise_number : option str)
  : (bool * str) * world :=
  if negb (path_exists (w_fs w) file_path) then ((false, msg_not_found), w)
  else
    let file_ext := file_ext_of file_path in
    let original_path := file_path in
    if str_eqb file_ext (u ".doc") then
      if negb (WIN32_AVAILABLE e) then ((false, msg_no_win32), w)
      else
        match convert_doc_to_docx e (w_fs w) file_path with
        | (Some docx_path, fs1) =>
            if truthy_str (Some docx_path)
            then parse_and_add self e (World_ fs1 (w_db w)) docx_path
                   original_path (u ".docx") sector_code expert_name
                   expertise_year expertise_number
            else ((false, msg_convert_failed), World_ fs1 (w_db w))
        | (None, fs1) => ((false, msg_convert_failed), World_ fs1 (w_db w))
        end
    else
      parse_and_add self e w file_path original_path file_ext sector_code
        expert_name expertise_year expertise_number.

(** *** Deleting a document *)

(** The faults of one [delete_document] call that the environment does
    not list: [os.remove], [os.rmdir] and the DELETE statement. *)
Record delete_faults := DeleteFaults {
  remove_fails : bool;
  rmdir_fails : bool;
  delete_fails : bool
}.

(** [not os.listdir(d)]: nothing, file or directory, lies directly in
    [d]. *)
Definition dir_empty (fs : fsys) (d : path) : bool :=
  forallb (fun p => negb (str_eqb (dirname p) d))
    (List.map fst (map_to_list (files fs)) ++ elements (dirs fs)).

(** [os.rmdir(d)] *)
Definition remove_dir (fs : fsys) (d : path) : fsys :=
  FS (files fs) (dirs fs ∖ {[ d ]}).

(** The inner [try] of [delete_document]: remove the file and, when it
    was the last entry of its directory, the directory; a failure stops
    the clean-up where it is and is only reported as a warning. *)
Definition remove_stored_file (f : delete_faults) (fs : fsys) (file_path : path)
  : fsys :=
  if path_exists fs file_path then
    if remove_fails f || negb (is_file fs file_path) then fs
    else
      let fs1 := remove_file fs file_path in
      let parent_dir := dirname file_path in
      if path_exists fs1 parent_dir then
        if negb (is_dir fs1 parent_dir) then fs1
        else if dir_empty fs1 parent_dir
        then (if rmdir_fails f then fs1 else remove_dir fs1 parent_dir)
        else fs1
      else fs1
  else fs.

Definition msg_not_in_db : str := u "Документ не знайдено в базі даних".
Definition msg_deleted (expertise_number : option str) : str :=
  u "Експертизу №" ++ default (u "None") expertise_number ++ u " видалено".
Definition msg_delete_error (exc : str) : str := u "Помилка видалення: " ++ exc.

(** [DELETE FROM expertise_cases WHERE id = ?] *)
Definition delete_row (t : table) (expertise_id : Z) : table :=
  Table (List.filter (fun r => negb (World.id r =? expertise_id)) (rows t))
        (last_rowid t).

Definition delete_document (e : env) (f : delete_faults) (w : world)
  (expertise_id : Z) : (bool * str) * world :=
  if select_fails e then ((false, msg_delete_error (exc_text e)), w)
  else
    match List.find (fun r => World.id r =? expertise_id) (rows (w_db w)) with
    | None => ((false, msg_not_in_db), w)
    | Some result =>
        match World.file_path result with
        | None => ((false, msg_delete_error (exc_text e)), w)
        | Some file_path =>
            let fs1 := remove_stored_file f (w_fs w) file_path in
            if delete_fails f
            then ((false, msg_delete_error (exc_text e)), World_ fs1 (w_db w))
            else ((true, msg_deleted (World.expertise_number result)),
                  World_ fs1 (delete_row (w_db w) expertise_id))
        end
    end.

(** *** Adding the files of an expert's folder *)

(** An entry of [found_files]. *)
Record file_info := FileInfo {
  fi_file_path : path;
  fi_expert_name : str;
  fi_year : Z;
  fi_expertise_number : str;
  fi_file_name : str
}.

(** [process_expert_files]: the files are added one after the other;
    [env_of i] is the environment of the call for the i-th file.  The
    result list holds, per file, its name, the success flag and the
    message. *)
Fixpoint process_from (self : agent) (env_of : nat -> env) (i : nat)
  (w : world) (found_files : list file_info) (sector_code : option str)
  : list (str * bool * str) * world :=
  match found_files with
  | [] => ([], w)
  | info :: rest =>
      let '((success, message), w1) :=
        add_document self (env_of i) w (fi_file_path info) sector_code
          (Some (fi_expert_name info)) (Some (fi_year info))
          (Some (fi_expertise_number info)) in
      let '(results, w2) := process_from self env_of (S i) w1 rest sector_code in
      ((fi_file_name info, success, message) :: results, w2)
  end.

Definition process_expert_files (self : agent) (env_of : nat -> env) (w : world)
  (found_files : list file_info) (sector_code : option str)
  : list (str * bool * str) * world :=
  process_from self env_of 0 w found_files sector_code.

End Agent.

(** ** The optimized agent: [forensic_archive_optimized.py] and
       [forensic_part2_optimized.py] *)

Module Optimized.

Import World.

Definition default_sector : str := u "почерк та ТЕД".
Definition unknown_expert : str := u "Невідомий_експерт".
Definition undetermined : str := u "невизначено".

(** The configuration set by [__init__]. *)
Record agent := AgentCfg {
  archive_folder : path;
  index_only_mode : bool;
  expertise_keywords : Dict.dict (list str)
}.

(** [self.expertise_keywords] as [__init__] fills it. *)
Definition default_keywords : Dict.dict (list str) :=
  [ (u "почеркознавча", [u "почерк"; u "підпис"; u "рукопис"]);
    (u "зброї", [u "зброя"; u "пістолет"; u "автомат"; u "ніж"; u "холодна";
                 u "куля"; u "гільза"; u "балісти"]);
    (u "трасологічна", [u "слід"; u "відбиток"; u "трасол"]);
    (u "дактилоскопічна", [u "дактило"; u "палець"; u "папіляр"]);
    (u "бал. облік", [u "куля"; u "гільза"]) ].

(** The dict of recognised data that flows through the pipeline. *)
Record edata := EData {
  erddr_number : option str;
  expertise_number : option str;
  expertise_date : option str;
  expertise_year : option Z;
  expertise_type : option str;
  expert_name : option str;
  sector : option str;
  source_file : str;
  file_path : path;
  file_size : Z;
  file_hash : option str
}.

(** [os.path.getsize], as [get_file_size_mb] and the callers' conversion
    back to bytes see it: 0 when the size cannot be read. *)
Definition getsize (e : env) (fs : fsys) (p : path) : Z :=
  match files fs !! p with
  | Some b => Z.of_nat (length b)
  | None => if is_dir fs p then dir_size e p else 0
  end.

Definition _get_default_expertise_data (e : env) (fs : fsys) (file_path : path)
  : edata :=
  EData None None None None (Some undetermined) (Some unknown_expert)
        (Some default_sector) (basename file_path) file_path
        (getsize e fs file_path) None.

(** *** Field parsers *)

(** [\d{11,12}] *)
Definition d11_12 : regex := times 11 12 digit.

Definition erddr_patterns : list regex :=
  [ (* ЄРДР\s*[№#]\s*(\d{11,12}) *)
    seq [Lit (u "ЄРДР"); star ws; CSet false [chr "№"; chr "#"]; star ws;
         Grp 1 d11_12];
    (* ЄРДР\s*(\d{11,12}) *)
    seq [Lit (u "ЄРДР"); star ws; Grp 1 d11_12];
    (* №\s*(\d{11,12}) *)
    seq [Lit (u "№"); star ws; Grp 1 d11_12];
    (* справ[аі]\s*№\s*(\d{11,12}) *)
    seq [Lit (u "справ"); CSet false [chr "а"; chr "і"]; star ws; Lit (u "№");
         star ws; Grp 1 d11_12];
    (* провадженн[яі]\s*№\s*(\d{11,12}) *)
    seq [Lit (u "провадженн"); CSet false [chr "я"; chr "і"]; star ws;
         Lit (u "№"); star ws; Grp 1 d11_12];
    (* (\d{11,12})\s*від *)
    seq [Grp 1 d11_12; star ws; Lit (u "від")] ].

Fixpoint parse_erddr (patterns : list regex) (content : str) : option str :=
  match patterns with
  | [] => None
  | pattern :: rest =>
      match search true pattern content with
      | Some mt =>
          let erddr := group content mt 1 in
          if (11 <=? length erddr)%nat && (length erddr <=? 12)%nat
          then Some erddr
          else parse_erddr rest content
      | None => parse_erddr rest content
      end
  end.

Definition _parse_erddr_patterns (content : str) : option str :=
  parse_erddr erddr_patterns content.

(** [\d+(?:/\d+)* ] *)
Definition slashed_number : regex :=
  seq [plus digit; star (seq [Lit (u "/"); plus digit])].

Definition number_patterns : list regex :=
  [ (* Експертиз[аі]\s*№\s*(\d+(?:/\d+)* ) *)
    seq [Lit (u "Експертиз"); CSet false [chr "а"; chr "і"]; star ws;
         Lit (u "№"); star ws; Grp 1 slashed_number];
    (* Висновок\s*експерт[аи]\s*№\s*(\d+(?:/\d+)* ) *)
    seq [Lit (u "Висновок"); star ws; Lit (u "експерт");
         CSet false [chr "а"; chr "и"]; star ws; Lit (u "№"); star ws;
         Grp 1 slashed_number];
    (* №\s*(\d+(?:/\d+)* )\s*від\s*\d+\.\d+\.\d+ *)
    seq [Lit (u "№"); star ws; Grp 1 slashed_number; star ws; Lit (u "від");
         star ws; plus digit; Lit (u "."); plus digit; Lit (u "."); plus digit];
    (* експертиз[аі]\s*(\d+(?:/\d+)* ) *)
    seq [Lit (u "експертиз"); CSet false [chr "а"; chr "і"]; star ws;
         Grp 1 slashed_number] ].

Fixpoint parse_number (patterns : list regex) (content : str) : option str :=
  match patterns with
  | [] => None
  | pattern :: rest =>
      match search true pattern content with
      | Some mt => Some (group content mt 1)
      | None => parse_number rest content
      end
  end.

Definition _parse_expertise_number_patterns (content : str) : option str :=
  parse_number number_patterns content.

Definition months_ua : Dict.dict str :=
  [ (u "січня", u "01"); (u "лютого", u "02"); (u "березня", u "03");
    (u "квітня", u "04"); (u "травня", u "05"); (u "червня", u "06");
    (u "липня", u "07"); (u "серпня", u "08"); (u "вересня", u "09");
    (u "жовтня", u "10"); (u "листопада", u "11"); (u "грудня", u "12") ].

Definition d12 : regex := times 1 2 digit.
Definition d4 : regex := times 4 4 digit.

(** The date patterns with the number of groups of each. *)
Definition date_patterns : list (regex * nat) :=
  [ (* від\s*(\d{1,2})\.(\d{1,2})\.(\d{4}) *)
    (seq [Lit (u "від"); star ws; Grp 1 d12; Lit (u "."); Grp 2 d12;
          Lit (u "."); Grp 3 d4], 3%nat);
    (* (\d{1,2})\.(\d{1,2})\.(\d{4})\s*р\.? *)
    (seq [Grp 1 d12; Lit (u "."); Grp 2 d12; Lit (u "."); Grp 3 d4; star ws;
          Lit (u "р"); opt (Lit (u "."))], 3%nat);
    (* (\d{4})\s*рок[иу] *)
    (seq [Grp 1 d4; star ws; Lit (u "рок"); CSet false [chr "и"; chr "у"]],
     1%nat);
    (* (\d{1,2})\s+(січня|...|грудня)\s+(\d{4}) *)
    (seq [Grp 1 d12; plus ws;
          Grp 2 (alts (List.map (fun kv => Lit (fst kv)) months_ua));
          plus ws; Grp 3 d4], 3%nat) ].

(** A match with three groups returns; any other is passed over and the
    next pattern is tried. *)
Fixpoint parse_date (patterns : list (regex * nat)) (content : str)
  : option str * option Z :=
  match patterns with
  | [] => (None, None)
  | (pattern, ngroups) :: rest =>
      match search true pattern content with
      | Some mt =>
          if (ngroups =? 3)%nat then
            let day := group content mt 1 in
            let mid := group content mt 2 in
            let year := group content mt 3 in
            match Dict.get months_ua mid with
            | Some month =>
                (Some (zfill2 day ++ u "." ++ month ++ u "." ++ year),
                 Some (int_of year))
            | None =>
                (Some (zfill2 day ++ u "." ++ zfill2 mid ++ u "." ++ year),
                 Some (int_of year))
            end
          else parse_date rest content
      | None => parse_date rest content
      end
  end.

Definition _parse_date_patterns (content : str) : option str * option Z :=
  parse_date date_patterns content.

(** [[А-ЯІЇЄҐ]] and [[а-яіїєґ]] *)
Definition upper_ua : regex :=
  CSet false [rng "А" "Я"; chr "І"; chr "Ї"; chr "Є"; chr "Ґ"].
Definition lower_ua : regex :=
  CSet false [rng "а" "я"; chr "і"; chr "ї"; chr "є"; chr "ґ"].

(** [[А-ЯІЇЄҐ][а-яіїєґ]+\s+[А-ЯІЇЄҐ]\.[А-ЯІЇЄҐ]\.] *)
Definition surname_initials : regex :=
  seq [upper_ua; plus lower_ua; plus ws; upper_ua; Lit (u "."); upper_ua;
       Lit (u ".")].

(** [[:\s]+] *)
Definition colon_space : regex := plus (CSet false [chr ":"; CSpace]).

Definition expert_patterns : list regex :=
  [ seq [Lit (u "Експерт"); colon_space; Grp 1 surname_initials];
    seq [Grp 1 surname_initials; star ws;
         Alt (Lit (u "експерт")) (Lit (u "підпис"))];
    seq [Lit (u "Виконав"); colon_space; Grp 1 surname_initials] ].

Fixpoint parse_expert (patterns : list regex) (content : str) : str :=
  match patterns with
  | [] => unknown_expert
  | pattern :: rest =>
      match search false pattern content with
      | Some mt => sub false (plus ws) (u "_") (strip (group content mt 1))
      | None => parse_expert rest content
      end
  end.

Definition _parse_expert_patterns (content : str) : str :=
  parse_expert expert_patterns content.

(** *** Type classifier *)

(** The pattern built for one keyword,
    [rf'{keyword.lower()}\s*(експертиз|дослідженн|висновок)']; the
    keyword is taken literally (the configured keywords hold no regex
    operator). *)
Definition context_pattern (keyword : str) : regex :=
  seq [Lit (lower keyword); star ws;
       Grp 1 (alts [Lit (u "експертиз"); Lit (u "дослідженн");
                    Lit (u "висновок")])].

Fixpoint keyword_weight (keywords : list str) (content_lower : str) (weight : Z)
  : Z :=
  match keywords with
  | [] => weight
  | keyword :: rest =>
      let cnt := Z.of_nat (count content_lower (lower keyword)) in
      if matched (search false (context_pattern keyword) content_lower)
      then keyword_weight rest content_lower (weight + cnt * 3)
      else keyword_weight rest content_lower (weight + cnt)
  end.

Fixpoint weigh_types (table : Dict.dict (list str)) (content_lower : str)
  (expertise_weights : Dict.dict Z) : Dict.dict Z :=
  match table with
  | [] => expertise_weights
  | (expertise_type, keywords) :: rest =>
      let weight := keyword_weight keywords content_lower 0 in
      weigh_types rest content_lower
        (if 0 <? weight then Dict.set expertise_weights expertise_type weight
         else expertise_weights)
  end.

Definition _determine_expertise_type (self : agent) (content : str) : str :=
  match Dict.max_key (weigh_types (expertise_keywords self) (lower content) []) with
  | Some best_type => best_type
  | None => undetermined
  end.

Definition type_to_sector : Dict.dict str :=
  [ (u "почеркознавча", u "почерк та ТЕД");
    (u "зброї", u "балісти");
    (u "трасологічна", u "трасологія");
    (u "дактилоскопічна", u "дактилоскопія");
    (u "бал. облік", u "бал. облік") ].

Definition _determine_sector (content : str) (expertise_type : str) : str :=
  Dict.get_default type_to_sector expertise_type default_sector.

(** *** Validation *)

(** [^\d+(/\d+)*$] *)
Definition number_shape : regex :=
  seq [Bol; plus digit; star (Grp 1 (seq [Lit (u "/"); plus digit])); Eol].

Definition clean_erddr (v : option str) : option str :=
  if truthy_str v then
    let erddr := sub_delete false (CSet true [CDigit]) (default [] v) in
    if negb ((11 <=? length erddr)%nat && (length erddr <=? 12)%nat)
    then None else Some erddr
  else v.

Definition clean_number (v : option str) : option str :=
  if truthy_str v then
    let number := strip (default [] v) in
    if negb (matched (match_ false number_shape number)) then None else v
  else v.

(** The year check: it is entered for a year that is present and not 0. *)
Definition clean_year (e : env) (date : option str) (year : option Z)
  : option str * option Z :=
  if truthy_int year then
    let y := default 0 year in
    if negb ((2000 <=? y) && (y <=? current_year e + 1))
    then (None, None)
    else (date, year)
  else (date, year).

Definition clean_name (v : option str) : option str :=
  if truthy_str v then
    if (length (strip (default [] v)) <? 3)%nat then Some unknown_expert else v
  else v.

Definition _validate_and_clean_expertise_data (e : env) (data : edata) : edata :=
  let '(date, year) := clean_year e (expertise_date data) (expertise_year data) in
  EData (clean_erddr (erddr_number data))
        (clean_number (expertise_number data))
        date year
        (expertise_type data)
        (clean_name (expert_name data))
        (sector data) (source_file data) (file_path data) (file_size data)
        (file_hash data).

(** [Path(file_path).suffix] *)
Definition suffix (file_path : path) : str :=
  let name := basename file_path in
  match ext_scan [] (rev name) with
  | Some (ext, before) =>
      match before, ext with
      | _ :: _, _ :: _ :: _ => ext
      | _, _ => []
      end
  | None => []
  end.

(** [_extract_document_content]: the text of a .docx or .pdf file, the
    empty string when there is none.  (The on-disk cache of extracted
    texts kept under CACHE_DIR is left out.) *)
Definition _extract_document_content (e : env) (fs : fsys) (file_path : path)
  : str :=
  let file_ext := lower (suffix file_path) in
  let read (f : bytes -> option str) :=
    match files fs !! file_path with
    | Some b => default [] (f b)
    | None => []
    end in
  if str_eqb file_ext (u ".docx") then read (docx_text e)
  else if str_eqb file_ext (u ".pdf") then read (pdf_text e)
  else [].

(** The parsing steps of [parse_expertise_document] on a text. *)
Definition parse_content (self : agent) (e : env) (fs : fsys)
  (file_path : path) (content : str) : edata :=
  let d := _get_default_expertise_data e fs file_path in
  let '(date, year) := _parse_date_patterns content in
  let type := _determine_expertise_type self content in
  _validate_and_clean_expertise_data e
    (EData (_parse_erddr_patterns content)
           (_parse_expertise_number_patterns content)
           date year
           (Some type)
           (Some (_parse_expert_patterns content))
           (Some (_determine_sector content type))
           (source_file d) (Optimized.file_path d) (file_size d) (file_hash d)).

Definition parse_expertise_document (self : agent) (e : env) (fs : fsys)
  (file_path : path) (content : option str) : edata :=
  match content with
  | None =>
      let content := _extract_document_content e fs file_path in
      if negb (truthy_str (Some content))
      then _get_default_expertise_data e fs file_path
      else parse_content self e fs file_path content
  | Some content => parse_content self e fs file_path content
  end.

(** *** Fingerprints *)

(** The state of the agent between calls: the world, the memo table of
    [@lru_cache(maxsize=500)] on [_get_file_hash] (most recently used
    first), and the flag [self._cache_initialized]. *)
Record state := State {
  st_world : world;
  hash_cache : list ((path * Z) * option str);
  _cache_initialized : bool
}.

Definition lru_maxsize : nat := 500.

Definition key_eqb (a b : path * Z) : bool := bool_decide (a = b).

Fixpoint cache_find (k : path * Z) (c : list ((path * Z) * option str))
  : option (option str) :=
  match c with
  | [] => None
  | (k', v) :: c' => if key_eqb k k' then Some v else cache_find k c'
  end.

Definition cache_without (k : path * Z) (c : list ((path * Z) * option str))
  : list ((path * Z) * option str) :=
  List.filter (fun kv => negb (key_eqb k (fst kv))) c.

(** The body of [_get_file_hash]: the MD5 of the contents, [None] when
    the file cannot be read. *)
Definition hash_file (e : env) (fs : fsys) (file_path : path) : option str :=
  if read_fails e file_path then None
  else
    match files fs !! file_path with
    | Some b => Some (md5_hex e b)
    | None => None
    end.

(** [_get_file_hash] behind its memo table: a call with a path and size
    seen before answers from the table. *)
Definition _get_file_hash (e : env) (fs : fsys)
  (cache : list ((path * Z) * option str)) (file_path : path) (file_size : Z)
  : option str * list ((path * Z) * option str) :=
  let k := (file_path, file_size) in
  match cache_find k cache with
  | Some v => (v, (k, v) :: cache_without k cache)
  | None =>
      let v := hash_file e fs file_path in
      (v, take lru_maxsize ((k, v) :: cache))
  end.

(** *** Duplicates *)

Definition _check_duplicate_document (e : env) (db : table)
  (file_hash : option str) (file_path : path) : option row :=
  if select_fails e then None
  else
    let by_name :=
      select_one World.source_file (basename file_path) db in
    if truthy_str file_hash then
      match select_one World.file_hash (default [] file_hash) db with
      | Some result => Some result
      | None => by_name
      end
    else by_name.

(** *** Placement in the archive *)

(** The loop that looks for a free name: [f"{name}_{counter}{ext}"] for
    counter = 1, 2, ... while the path exists.  [None]: the loop is still
    running when the fuel is spent. *)
Definition candidate (target_dir : path) (name ext : str) (counter : nat) : path :=
  join2 target_dir (name ++ u "_" ++ str_of_nat counter ++ ext).

Fixpoint free_name (fuel : nat) (fs : fsys) (target_dir : path) (name ext : str)
  (counter : nat) (target_path : path) : option path :=
  if path_exists fs target_path then
    match fuel with
    | O => None
    | S f =>
        free_name f fs target_dir name ext (S counter)
          (candidate target_dir name ext counter)
    end
  else Some target_path.

(** One round more than there are paths in the file system is enough. *)
Definition enough_fuel (fs : fsys) : nat := S (size (dom (files fs) ∪ dirs fs)).

Definition msg_expert_dir (expert_path : path) : str :=
  u "Не вдалося створити папку експерта: " ++ expert_path.
Definition msg_copy_error (exc : str) : str :=
  u "Помилка копіювання файлу: " ++ exc.

(** The directory the file goes to: the expert's folder, or the year's
    folder inside it when the year is known and the folder can be made.
    [None]: the expert's folder cannot be made. *)
Definition target_directory (self : agent) (e : env) (fs : fsys)
  (sector expert_name : str) (expertise_year : option Z)
  : path * option (path * fsys) :=
  let sector_path := join2 (archive_folder self) sector in
  let expert_path := join2 sector_path expert_name in
  (expert_path,
   match makedirs e fs expert_path with
   | None => None
   | Some fs1 =>
       if truthy_int expertise_year then
         let year_path := join2 expert_path (str_of_Z (default 0 expertise_year)) in
         match makedirs e fs1 year_path with
         | None => Some (expert_path, fs1)
         | Some fs2 => Some (year_path, fs2)
         end
       else Some (expert_path, fs1)
   end).

(** The name and the extension of the copy: the source's, the name
    prefixed with the expertise number when there is one. *)
Definition target_name (source_path : path) (expertise_number : option str)
  : str * str :=
  let original_filename := basename source_path in
  let '(name, ext) := splitext original_filename in
  (if truthy_str expertise_number
   then default [] expertise_number ++ u "_" ++ name
   else name, ext).

(** The result dict of [_copy_file_to_archive]: the archive path on
    success, the error text otherwise.  (The key [relative_path] of the
    success dict, which no caller reads, is left out.)  [None]: the loop
    over the names does not end. *)
Definition _copy_file_to_archive (self : agent) (e : env) (fs : fsys)
  (source_path : path) (parsed_data : edata) : option ((path + str) * fsys) :=
  match sector parsed_data, expert_name parsed_data with
  | Some sector, Some expert_name =>
      match target_directory self e fs sector expert_name
              (expertise_year parsed_data) with
      | (expert_path, None) => Some (inr (msg_expert_dir expert_path), fs)
      | (_, Some (target_dir, fs2)) =>
          let '(name, ext) :=
            target_name source_path (expertise_number parsed_data) in
          match free_name (enough_fuel fs2) fs2 target_dir name ext 1
                  (join2 target_dir (name ++ ext)) with
          | None => None
          | Some target_path =>
              match copy2 e fs2 source_path target_path with
              | Some fs3 => Some (inl target_path, fs3)
              | None => Some (inr (msg_copy_error (exc_text e)), fs2)
              end
          end
      end
  | _, _ => Some (inr (msg_copy_error (exc_text e)), fs)
  end.

(** *** Storing *)

Definition row_of (data : edata) (rowid : Z) : row :=
  Row rowid (erddr_number data) (expertise_number data) (expertise_date data)
      (expertise_year data) (expertise_type data) (expert_name data)
      (sector data) (Some (source_file data)) (Some (Optimized.file_path data))
      (Some (file_size data)) (file_hash data).

(** [_save_document_to_database]: the new id, or [None] when the INSERT
    raises (the UNIQUE constraint on the expertise number, the NOT NULL
    constraints of the fresh schema on expert and sector, or a fault). *)
Definition _save_document_to_database (e : env) (db : table) (data : edata)
  : option Z * table :=
  if insert_fails e then (None, db)
  else
    match expert_name data, sector data with
    | Some _, Some _ =>
        match insert db (row_of data) with
        | Some (doc_id, db1) => (Some doc_id, db1)
        | None => (None, db)
        end
    | _, _ => (None, db)
    end.

Definition CACHE_DIR : path := u "cache".

Definition is_search_cache_file (p : path) : bool :=
  match strip_prefix (CACHE_DIR ++ [sep]) p with
  | Some filename =>
      negb (existsb (fun c => c =? sep) filename)
      && startswith filename (u "search_") && endswith filename (u ".pkl")
  | None => false
  end.

(** [_invalidate_search_cache]: the in-memory tables it clears hold
    nothing the add path reads; its effect on the world is the removal
    of the pickled search results. *)
Definition _invalidate_search_cache (st : state) (fs : fsys) : fsys :=
  if negb (_cache_initialized st) then fs
  else if path_exists fs CACHE_DIR
  then FS (filter (fun kv => is_search_cache_file (fst kv) = false) (files fs))
          (dirs fs)
  else fs.

(** *** Adding a document *)

Definition SUPPORTED_EXTENSIONS : list str := [u ".doc"; u ".docx"; u ".pdf"].

(** The keyword arguments that replace recognised fields. *)
Record overrides := Overrides {
  ov_erddr_number : option (option str);
  ov_expertise_number : option (option str);
  ov_expertise_date : option (option str);
  ov_expertise_year : option (option Z);
  ov_expertise_type : option (option str);
  ov_expert_name : option (option str);
  ov_sector : option (option str)
}.

Definition no_overrides : overrides :=
  Overrides None None None None None None None.

(** [parsed_data.update(override_data)] *)
Definition update (d : edata) (o : overrides) : edata :=
  EData (default (erddr_number d) (ov_erddr_number o))
        (default (expertise_number d) (ov_expertise_number o))
        (default (expertise_date d) (ov_expertise_date o))
        (default (expertise_year d) (ov_expertise_year o))
        (default (expertise_type d) (ov_expertise_type o))
        (default (expert_name d) (ov_expert_name o))
        (default (sector d) (ov_sector o))
        (source_file d) (Optimized.file_path d) (file_size d) (file_hash d).

Definition with_hash (d : edata) (h : option str) : edata :=
  EData (erddr_number d) (expertise_number d) (expertise_date d)
        (expertise_year d) (expertise_type d) (expert_name d) (sector d)
        (source_file d) (Optimized.file_path d) (file_size d) h.

Definition with_path (d : edata) (p : path) : edata :=
  EData (erddr_number d) (expertise_number d) (expertise_date d)
        (expertise_year d) (expertise_type d) (expert_name d) (sector d)
        (source_file d) p (file_size d) (file_hash d).

(** The result dict: [{'success': True, 'document_id', 'archive_path',
    'parsed_data'}], [{'success': False, 'error'}], or the latter with the
    extra key ['existing_id']. *)
Inductive result :=
| Added (document_id : Z) (archive_path : path) (parsed_data : edata)
| Failed (error : str)
| Duplicate (error : str) (existing_id : Z).

Definition msg_not_found (file_path : path) : str :=
  u "Файл не знайдено: " ++ file_path.
Definition msg_unsupported : str := u "Непідтримуваний формат файлу".
Definition msg_duplicate (existing_id : Z) : str :=
  u "Файл вже існує в базі (ID: " ++ str_of_Z existing_id ++ u ")".
Definition msg_save_error : str := u "Помилка збереження в базу даних".

(** After the duplicate check: parse, place, store. *)
Definition parse_place_store (self : agent) (e : env) (st : state)
  (cache : list ((path * Z) * option str)) (file_path : path)
  (file_hash : option str) (override_data : overrides)
  : option (result * state) :=
  let w := st_world st in
  let parsed_data := parse_expertise_document self e (w_fs w) file_path None in
  let parsed_data := with_hash (update parsed_data override_data) file_hash in
  let placed :=
    if negb (index_only_mode self)
    then _copy_file_to_archive self e (w_fs w) file_path parsed_data
    else Some (inl file_path, w_fs w) in
  match placed with
  | None => None
  | Some (inr error, fs1) =>
      Some (Failed error,
            State (World_ fs1 (w_db w)) cache (_cache_initialized st))
  | Some (inl archive_path, fs1) =>
      let parsed_data := with_path parsed_data archive_path in
      match _save_document_to_database e (w_db w) parsed_data with
      | (Some doc_id, db1) =>
          if negb (doc_id =? 0) then
            Some (Added doc_id archive_path parsed_data,
                  State (World_ (_invalidate_search_cache st fs1) db1) cache
                        (_cache_initialized st))
          else
            Some (Failed msg_save_error,
                  State (World_ fs1 db1) cache (_cache_initialized st))
      | (None, db1) =>
          Some (Failed msg_save_error,
                State (World_ fs1 db1) cache (_cache_initialized st))
      end
  end.

Definition _add_document_impl (self : agent) (e : env) (st : state)
  (file_path : path) (force_reparse : bool) (override_data : overrides)
  : option (result * state) :=
  let w := st_world st in
  if negb (path_exists (w_fs w) file_path)
  then Some (Failed (msg_not_found file_path), st)
  else if negb (existsb (endswith (lower file_path)) SUPPORTED_EXTENSIONS)
  then Some (Failed msg_unsupported, st)
  else
    let file_size := getsize e (w_fs w) file_path in
    let '(file_hash, cache) :=
      _get_file_hash e (w_fs w) (hash_cache st) file_path file_size in
    let st1 := State w cache (_cache_initialized st) in
    if negb force_reparse && truthy_str file_hash then
      match _check_duplicate_document e (w_db w) file_hash file_path with
      | Some existing_doc =>
          Some (Duplicate (msg_duplicate (id existing_doc)) (id existing_doc),
                st1)
      | None =>
          parse_place_store self e st cache file_path file_hash override_data
      end
    else parse_place_store self e st cache file_path file_hash override_data.

(** *** Batches *)

(** One row of [executemany] with INSERT OR IGNORE: a row that breaks a
    constraint (the UNIQUE expertise number, the NOT NULL expert and
    sector of the fresh schema) is passed over.  The rowids SQLite hands
    out after a row was passed over may run ahead of the ones here. *)
Definition insert_or_ignore (db : table) (data : edata) : table * nat :=
  match expert_name data, sector data with
  | Some _, Some _ =>
      match insert db (row_of data) with
      | Some (_, db1) => (db1, 1%nat)
      | None => (db, 0%nat)
      end
  | _, _ => (db, 0%nat)
  end.

(** The rows of a batch, in order; the count is [cursor.rowcount]. *)
Fixpoint insert_all (db : table) (batch_data : list edata) : table * nat :=
  match batch_data with
  | [] => (db, 0%nat)
  | data :: rest =>
      let '(db1, k) := insert_or_ignore db data in
      let '(db2, n) := insert_all db1 rest in
      (db2, (k + n)%nat)
  end.

(** [_save_batch_to_database]: the pair (processed, errors); when the
    batch cannot be written nothing of it is stored and every record of
    it counts as an error.  The fault modelled strikes before
    [cursor.rowcount] is read; one at the commit would leave that count
    as the first component. *)
Definition _save_batch_to_database (e : env) (db : table)
  (batch_data : list edata) : (nat * nat) * table :=
  if insert_fails e then ((0%nat, length batch_data), db)
  else let '(db1, processed) := insert_all db batch_data in
       ((processed, 0%nat), db1).

(** The result dict of [_process_files_in_batches]. *)
Record batch_result := BatchResult {
  total_files : nat;
  processed : nat;
  errors : nat;
  error_details : list str
}.

(** The state of the loop over the files. *)
Record batch_state := BatchState {
  b_db : table;
  b_cache : list ((path * Z) * option str);
  b_batch : list edata;
  b_processed : nat;
  b_errors : nat
}.

(** The record of one file: parsed, with its fingerprint. *)
Definition record_for (self : agent) (e : env) (fs : fsys)
  (cache : list ((path * Z) * option str)) (file_path : path)
  : edata * list ((path * Z) * option str) :=
  let parsed_data := parse_expertise_document self e fs file_path None in
  let '(file_hash, cache1) :=
    _get_file_hash e fs cache file_path (getsize e fs file_path) in
  (with_hash parsed_data file_hash, cache1).

(** One round of the loop: the record joins the batch, and a batch that
    has reached [batch_size] is written. *)
Definition batch_step (self : agent) (e : env) (fs : fsys) (batch_size : Z)
  (b : batch_state) (file_path : path) : batch_state :=
  let '(data, cache1) := record_for self e fs (b_cache b) file_path in
  let batch_data := b_batch b ++ [data] in
  if batch_size <=? Z.of_nat (length batch_data) then
    let '((batch_processed, batch_errors), db1) :=
      _save_batch_to_database e (b_db b) batch_data in
    BatchState db1 cache1 [] (b_processed b + batch_processed)
               (b_errors b + batch_errors)
  else BatchState (b_db b) cache1 batch_data (b_processed b) (b_errors b).

Fixpoint batch_loop (self : agent) (env_of : nat -> env) (fs : fsys)
  (batch_size : Z) (i : nat) (b : batch_state) (files_list : list path)
  : batch_state :=
  match files_list with
  | [] => b
  | file_path :: rest =>
      batch_loop self env_of fs batch_size (S i)
        (batch_step self (env_of i) fs batch_size b file_path) rest
  end.

(** [_process_files_in_batches]; [env_of i] is the environment while the
    i-th file is handled, [env_of (len(files_list))] the one of the last
    batch.  (The files of the content cache under CACHE_DIR are left
    out, as in [_extract_document_content].) *)
Definition _process_files_in_batches (self : agent) (env_of : nat -> env)
  (st : state) (files_list : list path) (batch_size : Z)
  : batch_result * state :=
  let w := st_world st in
  let b := batch_loop self env_of (w_fs w) batch_size 0
             (BatchState (w_db w) (hash_cache st) [] 0 0) files_list in
  let '((batch_processed, batch_errors), db1) :=
    match b_batch b with
    | [] => ((0%nat, 0%nat), b_db b)
    | _ :: _ =>
        _save_batch_to_database (env_of (length files_list)) (b_db b) (b_batch b)
    end in
  (BatchResult (length files_list) (b_processed b + batch_processed)
     (b_errors b + batch_errors) [],
   State (World_ (w_fs w) db1) (b_cache b) (_cache_initialized st)).

End Optimized.

(** * Properties *)

(** ** Dictionaries *)

Module DictFacts.

Import Dict.

Lemma str_eqb_eq (a b : str) : str_eqb a b = true <-> a = b.
Proof. unfold str_eqb. apply bool_decide_eq_true. Qed.

Lemma str_eqb_refl (a : str) : str_eqb a a = true.
Proof. by apply str_eqb_eq. Qed.

Lemma str_eqb_neq (a b : str) : a ≠ b -> str_eqb a b = false.
Proof. intros H. unfold str_eqb. by apply bool_decide_eq_false. Qed.

Section Facts.
Context {V : Type}.
Implicit Types (d : dict V) (k : str) (v : V).

Lemma get_set_eq d k v : get (set d k v) k = Some v.
Proof.
  induction d as [|[k' v'] d IH]; simpl.
  - by rewrite str_eqb_refl.
  - destruct (str_eqb k k') eqn:E; simpl; rewrite E; [done | exact IH].
Qed.

Lemma get_set_ne d k k' v : k ≠ k' -> get (set d k v) k' = get d k'.
Proof.
  intros Hne. induction d as [|[k0 v0] d IH]; simpl.
  - rewrite str_eqb_neq; [done | congruence].
  - destruct (str_eqb k k0) eqn:E; simpl.
    + apply str_eqb_eq in E. subst k0.
      assert (str_eqb k' k = false) as -> by (apply str_eqb_neq; congruence).
      done.
    + by rewrite IH.
Qed.

Lemma mem_true d k : mem d k = true <-> exists v, get d k = Some v.
Proof.
  unfold mem. destruct (get d k); split; try done; eauto.
  intros [? ?]; done.
Qed.

End Facts.

End DictFacts.

(** ** The minimal agent: sector resolver and type classifier *)

Module AgentProps.

Import Agent Dict DictFacts.

(** A keyword occurs in a part of the path, letter case aside. *)
Definition ci_occurs (keyword part : str) : Prop :=
  contains (lower part) (lower keyword) = true.

(** Some keyword of the list occurs in some part. *)
Definition hits (keywords parts : list str) : Prop :=
  exists keyword part, In keyword keywords /\ In part parts /\ ci_occurs keyword part.

Definition lowercase (keywords : list str) : Prop :=
  forall k, In k keywords -> lower k = k.

Lemma scan_keywords_hits keywords part :
  lowercase keywords ->
  scan_keywords keywords part = true <->
  exists keyword, In keyword keywords /\ ci_occurs keyword part.
Proof.
  intros Hl. induction keywords as [|k ks IH]; simpl.
  - split; [done | intros (? & [] & _)].
  - assert (Hk : lower k = k) by (apply Hl; by left).
    assert (Hks : lowercase ks) by (intros x Hx; apply Hl; by right).
    destruct (contains (lower part) k) eqn:E.
    + split; [|done]. intros _. exists k. split; [by left|].
      unfold ci_occurs. by rewrite Hk.
    + rewrite (IH Hks). split.
      * intros (x & Hx & Ho). exists x. split; [by right | done].
      * intros (x & [<- | Hx] & Ho).
        -- unfold ci_occurs in Ho. rewrite Hk in Ho. congruence.
        -- eauto.
Qed.

Lemma scan_parts_hits parts keywords :
  lowercase keywords ->
  scan_parts parts keywords = true <-> hits keywords parts.
Proof.
  intros Hl. induction parts as [|p ps IH]; simpl.
  - split; [done | intros (? & ? & _ & [] & _)].
  - destruct (scan_keywords keywords p) eqn:E.
    + split; [|done]. intros _.
      apply (scan_keywords_hits _ _ Hl) in E as (k & Hk & Ho).
      exists k, p. split; [done|]. split; [by left | done].
    + rewrite IH. split.
      * intros (k & q & Hk & Hq & Ho). exists k, q. split; [done|].
        split; [by right | done].
      * intros (k & q & Hk & [<- | Hq] & Ho).
        -- assert (scan_keywords keywords p = true) as Ht
             by (apply (scan_keywords_hits _ _ Hl); eauto).
           congruence.
        -- exists k, q. done.
Qed.

(** The table is scanned in order: the first sector with a hit answers. *)
Lemma scan_sectors_first pre sector keywords post parts :
  (forall s ks, In (s, ks) (pre ++ (sector, keywords) :: post) -> lowercase ks) ->
  (forall s ks, In (s, ks) pre -> ~ hits ks parts) ->
  hits keywords parts ->
  scan_sectors (pre ++ (sector, keywords) :: post) parts
  = Some (get_default sectors sector sector).
Proof.
  intros Hl Hpre Hhit. induction pre as [|[s ks] pre IH]; simpl.
  - assert (scan_parts parts keywords = true) as ->; [|done].
    apply scan_parts_hits; [|done]. apply (Hl sector). by left.
  - assert (scan_parts parts ks = false) as ->.
    { destruct (scan_parts parts ks) eqn:E; [|done].
      apply scan_parts_hits in E; [|apply (Hl s); by left].
      exfalso. apply (Hpre s ks); [by left | done]. }
    apply IH.
    + intros s' ks' Hin. apply (Hl s'). by right.
    + intros s' ks' Hin. apply (Hpre s'). by right.
Qed.

Lemma scan_sectors_none table parts :
  (forall s ks, In (s, ks) table -> lowercase ks) ->
  (forall s ks, In (s, ks) table -> ~ hits ks parts) ->
  scan_sectors table parts = None.
Proof.
  intros Hl Hno. induction table as [|[s ks] table IH]; simpl; [done|].
  assert (scan_parts parts ks = false) as ->.
  { destruct (scan_parts parts ks) eqn:E; [|done].
    apply scan_parts_hits in E; [|apply (Hl s); by left].
    exfalso. apply (Hno s ks); [by left | done]. }
  apply IH.
  - intros s' ks' Hin. apply (Hl s'). by right.
  - intros s' ks' Hin. apply (Hno s'). by right.
Qed.

Lemma scan_sectors_range table parts code :
  scan_sectors table parts = Some code ->
  exists s ks, In (s, ks) table /\ code = get_default sectors s s.
Proof.
  induction table as [|[s ks] table IH]; simpl; [done|].
  destruct (scan_parts parts ks).
  - intros [= <-]. exists s, ks. split; [by left | done].
  - intros H. destruct (IH H) as (s' & ks' & Hin & ->).
    exists s', ks'. split; [by right | done].
Qed.

Lemma sector_keywords_lowercase s ks :
  In (s, ks) sector_keywords -> lowercase ks.
Proof.
  intros Hin k Hk.
  assert (Hall : forallb (fun sk => forallb (fun k => str_eqb (lower k) k) (snd sk))
                   sector_keywords = true) by (vm_compute; reflexivity).
  rewrite forallb_forall in Hall. specialize (Hall _ Hin). simpl in Hall.
  rewrite forallb_forall in Hall. specialize (Hall _ Hk).
  by apply str_eqb_eq in Hall.
Qed.

(** No sector code of the keyword table is a key of [self.sectors]: the
    lookup [self.sectors.get(sector, sector)] gives the code back. *)
Lemma sector_code_kept s ks :
  In (s, ks) sector_keywords -> get_default sectors s s = s.
Proof.
  intros Hin.
  assert (Hall : forallb (fun sk => str_eqb (get_default sectors (fst sk) (fst sk)) (fst sk))
                   sector_keywords = true) by (vm_compute; reflexivity).
  rewrite forallb_forall in Hall. specialize (Hall _ Hin). simpl in Hall.
  by apply str_eqb_eq in Hall.
Qed.

(** The code of the weapons sector, [self.sectors["Сектор досліджень зброї"]]. *)
Definition weapons_sector_code : str :=
  get_default sectors (u "Сектор досліджень зброї") [].

(** The sector codes, the values of [self.sectors]. *)
Definition sector_codes : list str := List.map snd sectors.

Lemma sector_code_known s ks :
  In (s, ks) sector_keywords -> In s sector_codes \/ s = default_sector.
Proof.
  intros Hin.
  assert (Hall : forallb (fun sk => existsb (str_eqb (fst sk)) sector_codes
                                    || str_eqb (fst sk) default_sector)
                   sector_keywords = true) by (vm_compute; reflexivity).
  rewrite forallb_forall in Hall. specialize (Hall _ Hin). cbn [fst] in Hall.
  apply orb_true_iff in Hall as [H | H].
  - left. apply existsb_exists in H as (c & Hc & Heq).
    apply str_eqb_eq in Heq. by subst c.
  - right. by apply str_eqb_eq.
Qed.

(** C6. The path is cut into segments at the separators; the resolver
    returns the code of the first sector, in table order, one of whose
    keywords occurs (letter case aside) in some segment, and the default
    sector when no keyword occurs in any segment; the path
    "Балісти_Петренко/2023/55-23СЕ" resolves to the weapons sector; the
    result is always one of the five sector codes or the default. *)
Theorem determine_sector_from_path_first_match (file_path : str) :
  let parts := path_parts file_path in
  (forall pre sector keywords post,
      sector_keywords = pre ++ (sector, keywords) :: post ->
      (forall s ks, In (s, ks) pre -> ~ hits ks parts) ->
      hits keywords parts ->
      determine_sector_from_path file_path = sector)
  /\ ((forall s ks, In (s, ks) sector_keywords -> ~ hits ks parts) ->
      determine_sector_from_path file_path = default_sector)
  /\ determine_sector_from_path (u "Балісти_Петренко/2023/55-23СЕ")
     = weapons_sector_code
  /\ path_parts (u "Балісти_Петренко/2023/55-23СЕ")
     = [u "Балісти_Петренко"; u "2023"; u "55-23СЕ"]
  /\ (In (determine_sector_from_path file_path) sector_codes
      \/ determine_sector_from_path file_path = default_sector)
  /\ length sector_codes = 5%nat.
Proof.
  intros parts.
  refine (conj _ (conj _ (conj _ (conj _ (conj _ _))))).
  - intros pre sector keywords post Heq Hpre Hhit.
    unfold determine_sector_from_path. fold parts. rewrite Heq.
    rewrite (scan_sectors_first pre sector keywords post parts); try done.
    + apply (sector_code_kept sector keywords). rewrite Heq.
      apply in_or_app. right. by left.
    + intros s ks Hin. apply (sector_keywords_lowercase s). by rewrite Heq.
  - intros Hno. unfold determine_sector_from_path. fold parts.
    rewrite scan_sectors_none; try done. apply sector_keywords_lowercase.
  - vm_compute. reflexivity.
  - vm_compute. reflexivity.
  - unfold determine_sector_from_path. fold parts.
    destruct (scan_sectors sector_keywords parts) as [code|] eqn:E.
    + apply scan_sectors_range in E as (s & ks & Hin & ->).
      rewrite (sector_code_kept s ks Hin).
      exact (sector_code_known s ks Hin).
    + by right.
  - reflexivity.
Qed.

(** *** The scores of the type classifier *)

Lemma find_none_intro {A} (f : A -> bool) (l : list A) :
  (forall x, In x l -> f x = false) -> List.find f l = None.
Proof.
  induction l as [|a l IH]; intros H; simpl; [done|].
  rewrite (H a); [|by left]. apply IH. intros x Hx. apply H. by right.
Qed.

(** A keyword that is found occurs at least once. *)
Lemma finditer_search ic r text :
  matched (search ic r text) = true -> (1 <= findall_count ic r text)%nat.
Proof.
  unfold findall_count, finditer, search.
  destruct (search_from ic r 0 text) as [mt|] eqn:E; [intros _ | done].
  replace (2 * length text + 3)%nat with (S (2 * length text + 2)) by lia.
  simpl. unfold search_adv.
  assert (Hs : match text with
               | [] => match_here_adv ic r false 0 []
               | _ :: t => or_else (match_here_adv ic r false 0 text)
                             (fun _ => search_from ic r 1 t)
               end = Some mt).
  { destruct text; simpl in E |- *; unfold match_here_adv, match_here in *;
      simpl; exact E. }
  rewrite Hs. simpl. lia.
Qed.

Lemma keyword_score_mono keywords weight text_lower score :
  0 <= weight -> score <= keyword_score keywords weight text_lower score.
Proof.
  intros Hw. revert score. induction keywords as [|k ks IH]; intros score; simpl.
  - lia.
  - destruct (matched (search false k text_lower)) eqn:E.
    + apply finditer_search in E.
      etransitivity; [|apply IH]. lia.
    + apply IH.
Qed.

Lemma keyword_score_nonneg keywords weight text_lower score :
  0 <= weight -> 0 <= score -> 0 <= keyword_score keywords weight text_lower score.
Proof.
  intros Hw Hs. pose proof (keyword_score_mono keywords weight text_lower score Hw).
  lia.
Qed.

(** What the scoring loop leaves in [type_scores]: a category of the
    table is present exactly when its keyword score is above zero, and
    then holds that score. *)
Lemma score_types_get table text_lower acc k :
  NoDup (List.map fst table) ->
  get (score_types table text_lower acc) k
  = match List.find (fun row => str_eqb k (fst row)) table with
    | Some (_, (keywords, weight)) =>
        let score := keyword_score keywords weight text_lower 0 in
        if 0 <? score then Some score else get acc k
    | None => get acc k
    end.
Proof.
  revert acc. induction table as [|[t [kws w]] table IH]; intros acc Hnd; simpl.
  - done.
  - inversion Hnd as [|? ? Hnotin Hnd']; subst.
    rewrite (IH _ Hnd'). clear IH.
    destruct (str_eqb k t) eqn:E.
    + apply str_eqb_eq in E. subst t.
      assert (List.find (fun row => str_eqb k (fst row)) table = None) as ->.
      { apply find_none_intro. intros [t' x] Hin. simpl.
        apply str_eqb_neq. intros ->. apply Hnotin.
        apply list_elem_of_In, in_map_iff. exists (t', x). done. }
      destruct (0 <? keyword_score kws w text_lower 0); [|done].
      apply get_set_eq.
    + assert (t ≠ k) as Hne.
      { intros ->. by rewrite str_eqb_refl in E. }
      destruct (List.find (fun row => str_eqb k (fst row)) table)
        as [[t' [kws' w']]|]; simpl.
      * destruct (0 <? keyword_score kws' w' text_lower 0); [done|].
        destruct (0 <? keyword_score kws w text_lower 0); [|done].
        by apply get_set_ne.
      * destruct (0 <? keyword_score kws w text_lower 0); [|done].
        by apply get_set_ne.
Qed.

Definition weapons_keywords : list regex :=
  fst (default ([], 0) (get expertise_keywords_weighted weapons)).
Definition trasology_keywords : list regex :=
  fst (default ([], 0) (get expertise_keywords_weighted trasology)).

(** The keyword score of the weapons category (weight 10) and of the
    trace category (weight 8) for a text. *)
Definition weapons_score (text : str) : Z :=
  keyword_score weapons_keywords 10 (lower text) 0.
Definition trasology_score (text : str) : Z :=
  keyword_score trasology_keywords 8 (lower text) 0.

Lemma table_keys_nodup : NoDup (List.map fst expertise_keywords_weighted).
Proof.
  apply (proj1 (bool_decide_spec _)). vm_compute. reflexivity.
Qed.

Lemma base_scores_weapons text :
  get (base_scores text) weapons
  = if 0 <? weapons_score text then Some (weapons_score text) else None.
Proof.
  unfold base_scores. rewrite (score_types_get _ _ _ _ table_keys_nodup).
  reflexivity.
Qed.

Lemma base_scores_trasology text :
  get (base_scores text) trasology
  = if 0 <? trasology_score text then Some (trasology_score text) else None.
Proof.
  unfold base_scores. rewrite (score_types_get _ _ _ _ table_keys_nodup).
  reflexivity.
Qed.

Lemma weapons_neq_trasology : weapons ≠ trasology.
Proof. intros H. vm_compute in H. discriminate H. Qed.

(** *** Words present in a text *)

Lemma strip_prefix_iff (k s rest : str) :
  strip_prefix k s = Some rest <-> s = k ++ rest.
Proof.
  revert s. induction k as [|a k IH]; intros s.
  - simpl. destruct s; split; congruence.
  - destruct s as [|b s]; simpl; [split; discriminate|].
    destruct (a =? b) eqn:E.
    + apply Z.eqb_eq in E as ->. rewrite IH. split; congruence.
    + apply Z.eqb_neq in E. split; [discriminate | congruence].
Qed.

(** A word occurs in a text when the text is some characters, then the
    word, then some more characters. *)
Definition occurs_in (word text : str) : Prop :=
  exists before after, text = before ++ word ++ after.

(** [k in s] holds exactly of the words that occur in [s]. *)
Lemma contains_occurs (s k : str) : contains s k = true <-> occurs_in k s.
Proof.
  unfold occurs_in. induction s as [|c t IH]; cbn [contains].
  - destruct (strip_prefix k []) as [rest|] eqn:E.
    + apply strip_prefix_iff in E. split; [|done]. intros _. by exists [], rest.
    + split; [done|]. intros (before & after & H). exfalso.
      symmetry in H. apply app_eq_nil in H as [-> H]. simpl in H.
      assert (strip_prefix k [] = Some after) as E'
        by (by apply strip_prefix_iff). congruence.
  - destruct (strip_prefix k (c :: t)) as [rest|] eqn:E.
    + apply strip_prefix_iff in E. split; [|done]. intros _. by exists [], rest.
    + rewrite IH. split.
      * intros (before & after & ->). by exists (c :: before), after.
      * intros ([|b before] & after & H).
        -- exfalso. simpl in H.
           assert (strip_prefix k (c :: t) = Some after) as E'
             by (by apply strip_prefix_iff). congruence.
        -- injection H as _ ->. by exists before, after.
Qed.

(** [present_count text words n]: [n] of the [words], each counted as
    often as the list names it, occur in [text]. *)
Inductive present_count (text : str) : list str -> Z -> Prop :=
| present_nil : present_count text [] 0
| present_in word words n :
    occurs_in word text -> present_count text words n ->
    present_count text (word :: words) (n + 1)
| present_out word words n :
    ~ occurs_in word text -> present_count text words n ->
    present_count text (word :: words) n.

Lemma indicator_count_cons ind indicators text_lower :
  indicator_count (ind :: indicators) text_lower
  = indicator_count indicators text_lower
    + (if contains text_lower ind then 1 else 0).
Proof.
  unfold indicator_count. cbn [List.filter].
  destruct (contains text_lower ind); cbn [length]; lia.
Qed.

(** The number [sum(1 for ind in indicators if ind in text_lower)] is
    the number of the indicators that occur in the text. *)
Lemma present_count_unique text words n :
  present_count text words n -> n = indicator_count words text.
Proof.
  induction 1 as [|word words n Hin _ IH|word words n Hout _ IH].
  - reflexivity.
  - rewrite indicator_count_cons, <- IH.
    apply contains_occurs in Hin. by rewrite Hin.
  - rewrite indicator_count_cons, <- IH.
    destruct (contains text word) eqn:E; [|lia].
    apply contains_occurs in E. done.
Qed.

Lemma present_count_intro text words n :
  indicator_count words text = n -> present_count text words n.
Proof.
  revert n. induction words as [|word words IH]; intros n.
  - intros <-. constructor.
  - rewrite indicator_count_cons.
    destruct (contains text word) eqn:E; intros <-.
    + apply present_in; [by apply contains_occurs | by apply IH].
    + rewrite Z.add_0_r. apply present_out; [|by apply IH].
      intros H. apply contains_occurs in H. congruence.
Qed.

(** C7. When the weapons category and the trace category both have a
    non-zero keyword score, 5 is added to the score of the category
    with the greater number of its context indicators present in the
    lowercased text, to the weapons category when the two numbers are
    equal; no other score changes.  The two numbers are given by
    [present_count]: how many of the category's indicator words occur
    as a run of consecutive characters of the lowercased text. *)
Theorem disambiguation_bonus (text : str) (trasology_count weapons_count : Z) :
  weapons_score text <> 0 ->
  trasology_score text <> 0 ->
  present_count (lower text) trasology_indicators trasology_count ->
  present_count (lower text) weapons_indicators weapons_count ->
  get (base_scores text) weapons = Some (weapons_score text)
  /\ get (base_scores text) trasology = Some (trasology_score text)
  /\ (weapons_count < trasology_count ->
      get (final_scores text) trasology = Some (trasology_score text + 5)
      /\ get (final_scores text) weapons = Some (weapons_score text))
  /\ (trasology_count < weapons_count ->
      get (final_scores text) weapons = Some (weapons_score text + 5)
      /\ get (final_scores text) trasology = Some (trasology_score text))
  /\ (trasology_count = weapons_count ->
      get (final_scores text) weapons = Some (weapons_score text + 5)
      /\ get (final_scores text) trasology = Some (trasology_score text))
  /\ (forall k, k <> weapons -> k <> trasology ->
      get (final_scores text) k = get (base_scores text) k).
Proof.
  intros Hw Ht Htc Hwc.
  apply present_count_unique in Htc, Hwc.
  set (tc := indicator_count trasology_indicators (lower text)) in *.
  set (wc := indicator_count weapons_indicators (lower text)) in *.
  subst trasology_count weapons_count.
  assert (Hwpos : (0 <? weapons_score text) = true).
  { apply Z.ltb_lt. pose proof (keyword_score_nonneg weapons_keywords 10 (lower text) 0
                                   ltac:(lia) ltac:(lia)).
    unfold weapons_score in *. lia. }
  assert (Htpos : (0 <? trasology_score text) = true).
  { apply Z.ltb_lt. pose proof (keyword_score_nonneg trasology_keywords 8 (lower text) 0
                                   ltac:(lia) ltac:(lia)).
    unfold trasology_score in *. lia. }
  assert (Hgw : get (base_scores text) weapons = Some (weapons_score text))
    by (rewrite base_scores_weapons, Hwpos; done).
  assert (Hgt : get (base_scores text) trasology = Some (trasology_score text))
    by (rewrite base_scores_trasology, Htpos; done).
  pose proof weapons_neq_trasology as Hne.
  assert (Hfin : final_scores text
                 = if wc <? tc then set (base_scores text) trasology (trasology_score text + 5)
                   else set (base_scores text) weapons (weapons_score text + 5)).
  { unfold final_scores, disambiguate, mem, bump. rewrite Hgw, Hgt. simpl.
    fold tc wc. done. }
  refine (conj Hgw (conj Hgt (conj _ (conj _ (conj _ _))))).
  - intros Hlt. rewrite Hfin. apply Z.ltb_lt in Hlt. rewrite Hlt.
    split; [apply get_set_eq | rewrite get_set_ne; done].
  - intros Hlt. rewrite Hfin.
    assert ((wc <? tc) = false) as -> by (apply Z.ltb_ge; lia).
    split; [apply get_set_eq | rewrite get_set_ne; done].
  - intros Heq. rewrite Hfin.
    assert ((wc <? tc) = false) as -> by (apply Z.ltb_ge; lia).
    split; [apply get_set_eq | rewrite get_set_ne; done].
  - intros k Hkw Hkt. rewrite Hfin.
    destruct (wc <? tc); rewrite get_set_ne; done.
Qed.

Lemma disambiguation_bonus_witness :
  let text := u "Слід взуття і куля, куля, постріл" in
  get (final_scores text) trasology = Some (trasology_score text + 5)
  /\ get (final_scores text) weapons = Some (weapons_score text).
Proof.
  intros text.
  refine (proj1 (proj2 (proj2 (disambiguation_bonus text 2 1 _ _ _ _))) _).
  - vm_compute. discriminate.
  - vm_compute. discriminate.
  - apply present_count_intro. vm_compute. reflexivity.
  - apply present_count_intro. vm_compute. reflexivity.
  - lia.
Defined.

(** *** The parser on the sample text *)

Definition sample_text : str :=
  u "Висновок №105/24Е-17 від 12.03.2024 ... ЄРДР №12023450000000123".

(** The outcome the scenario asks of a parser: the three fields as
    given and a case identifier of 11 or 12 digits. *)
Definition scenario_outcome (number date : option str) (year : option Z)
  (erddr : option str) : Prop :=
  number = Some (u "105/24Е-17")
  /\ date = Some (u "12.03.2024")
  /\ year = Some 2024
  /\ exists token, erddr = Some token
       /\ forallb is_digit token = true
       /\ (11 <= length token <= 12)%nat.

(** A field of the minimal agent's dict: the empty string stands for a
    field that was not found. *)
Definition found (s : str) : option str :=
  match s with [] => None | _ => Some s end.

Definition agent_outcome (text : str) : Prop :=
  let data := parse_expertise_document text (u "report.docx") None in
  scenario_outcome (found (Agent.expertise_number data))
    (found (Agent.expertise_date data)) (Agent.expertise_year data)
    (found (Agent.erddr_number data)).

End AgentProps.

(** ** The optimized agent: parsing and validation *)

Module OptimizedProps.

Import World Optimized Dict DictFacts.

Definition optimized_outcome (self : agent) (e : env) (fs : fsys) (text : str)
  : Prop :=
  let data := parse_expertise_document self e fs (u "report.docx") (Some text) in
  AgentProps.scenario_outcome (expertise_number data) (expertise_date data)
    (expertise_year data) (erddr_number data).

(** The fields of the parsed record in terms of the field parsers. *)
Lemma parse_content_fields self e fs file_path content :
  let data := parse_content self e fs file_path content in
  erddr_number data = clean_erddr (_parse_erddr_patterns content)
  /\ expertise_number data = clean_number (_parse_expertise_number_patterns content)
  /\ expertise_date data
     = fst (clean_year e (fst (_parse_date_patterns content))
              (snd (_parse_date_patterns content)))
  /\ expertise_year data
     = snd (clean_year e (fst (_parse_date_patterns content))
              (snd (_parse_date_patterns content))).
Proof.
  unfold parse_content.
  destruct (_parse_date_patterns content) as [date year].
  unfold _validate_and_clean_expertise_data.
  cbn [expertise_date expertise_year erddr_number expertise_number fst snd].
  destruct (clean_year e date year) as [date' year'].
  cbn [expertise_date expertise_year erddr_number expertise_number fst snd].
  done.
Qed.

Lemma parse_document_fields self e fs file_path content :
  let data := parse_expertise_document self e fs file_path (Some content) in
  erddr_number data = clean_erddr (_parse_erddr_patterns content)
  /\ expertise_number data = clean_number (_parse_expertise_number_patterns content)
  /\ expertise_date data
     = fst (clean_year e (fst (_parse_date_patterns content))
              (snd (_parse_date_patterns content)))
  /\ expertise_year data
     = snd (clean_year e (fst (_parse_date_patterns content))
              (snd (_parse_date_patterns content))).
Proof. exact (parse_content_fields self e fs file_path content). Qed.

(** A year within the range passes the year check with its date. *)
Lemma clean_year_in_range e date y :
  2000 <= y <= current_year e + 1 ->
  clean_year e date (Some y) = (date, Some y).
Proof.
  intros Hy. unfold clean_year, truthy_int.
  assert ((y =? 0) = false) as -> by (apply Z.eqb_neq; lia).
  simpl.
  assert ((2000 <=? y) = true) as -> by (apply Z.leb_le; lia).
  assert ((y <=? current_year e + 1) = true) as -> by (apply Z.leb_le; lia).
  done.
Qed.

(** Counterexample to C5 as stated: neither parser gives the four
    fields of the scenario on the sample text.  The minimal agent keeps
    the whole token of 17 digits as case identifier; the optimized agent
    finds no expertise number. *)
Lemma sample_text_outcome_fails :
  ~ AgentProps.agent_outcome AgentProps.sample_text
  /\ forall self e fs, ~ optimized_outcome self e fs AgentProps.sample_text.
Proof.
  split.
  - unfold AgentProps.agent_outcome, AgentProps.scenario_outcome.
    intros (_ & _ & _ & token & Htok & _ & Hlen).
    assert (Hv : AgentProps.found
                   (Agent.erddr_number
                      (Agent.parse_expertise_document AgentProps.sample_text
                         (u "report.docx") None))
                 = Some (u "12023450000000123"))
      by (vm_compute; reflexivity).
    rewrite Hv in Htok. injection Htok as <-.
    assert (Hl : length (u "12023450000000123") = 17%nat)
      by (vm_compute; reflexivity).
    rewrite Hl in Hlen. lia.
  - intros self e fs.
    unfold optimized_outcome, AgentProps.scenario_outcome.
    intros (Hnum & _).
    rewrite (proj1 (proj2 (parse_document_fields self e fs _ _))) in Hnum.
    assert (Hv : clean_number (_parse_expertise_number_patterns AgentProps.sample_text)
                 = None) by (vm_compute; reflexivity).
    rewrite Hv in Hnum. discriminate Hnum.
Qed.

(** C5, amended. On the sample text the minimal agent's parser gives the
    expertise number "105/24Е-17", the date "12.03.2024", the year 2024
    and, as case identifier, the whole token "12023450000000123" that
    follows "ЄРДР №"; the optimized agent's parser gives the first twelve
    digits of that token, "120234500000", as case identifier, the same
    date and year (in any year from 2023 on), and no expertise number. *)
Theorem sample_text_fields (self : agent) (e : env) (fs : fsys) :
  2023 <= current_year e ->
  let a := Agent.parse_expertise_document AgentProps.sample_text
             (u "report.docx") None in
  let o := parse_expertise_document self e fs (u "report.docx")
             (Some AgentProps.sample_text) in
  (Agent.expertise_number a = u "105/24Е-17"
   /\ Agent.expertise_date a = u "12.03.2024"
   /\ Agent.expertise_year a = Some 2024
   /\ Agent.erddr_number a = u "12023450000000123")
  /\ (erddr_number o = Some (u "120234500000")
      /\ expertise_date o = Some (u "12.03.2024")
      /\ expertise_year o = Some 2024
      /\ expertise_number o = None).
Proof.
  intros Hcy a o. split.
  - subst a. vm_compute. repeat split; reflexivity.
  - subst o.
    destruct (parse_document_fields self e fs (u "report.docx")
                AgentProps.sample_text) as (He & Hn & Hdate & Hyear).
    assert (Hdp : _parse_date_patterns AgentProps.sample_text
                  = (Some (u "12.03.2024"), Some 2024))
      by (vm_compute; reflexivity).
    rewrite Hdp in Hdate, Hyear. cbn [fst snd] in Hdate, Hyear.
    rewrite clean_year_in_range in Hdate, Hyear by lia.
    cbn [fst snd] in Hdate, Hyear.
    rewrite He, Hn, Hdate, Hyear.
    refine (conj _ (conj eq_refl (conj eq_refl _))).
    + vm_compute. reflexivity.
    + vm_compute. reflexivity.
Qed.

(** *** The year check *)

(** The year check of the validator leaves the pair of date and year as
    it is or clears both. *)
Lemma clean_year_pair e date year :
  clean_year e date year = (date, year) \/ clean_year e date year = (None, None).
Proof.
  unfold clean_year. destruct (truthy_int year); [|by left].
  destruct (negb _); [by right | by left].
Qed.

Lemma validate_year e data :
  (expertise_date (_validate_and_clean_expertise_data e data),
   expertise_year (_validate_and_clean_expertise_data e data))
  = clean_year e (expertise_date data) (expertise_year data).
Proof.
  unfold _validate_and_clean_expertise_data.
  destruct (clean_year e (expertise_date data) (expertise_year data)).
  done.
Qed.

(** The bare-year scan of the minimal agent: it leaves the year as it is
    or sets a year between 2000 and 2030. *)
Lemma fallback_year_range text year :
  Agent.fallback_year text year = year
  \/ exists y, Agent.fallback_year text year = Some y /\ 2000 <= y <= 2030.
Proof.
  unfold Agent.fallback_year. destruct (truthy_int year); [by left|].
  destruct (search _ _ _) as [mt|]; [|by left].
  destruct ((2000 <=? _) && (_ <=? 2030)) eqn:E; [|by left].
  right. eexists. split; [done|].
  apply andb_true_iff in E as [H1 H2].
  apply Z.leb_le in H1. apply Z.leb_le in H2. done.
Qed.

(** A text of the minimal agent with a date of a year before 2000. *)
Definition old_text : str := u "Висновок експерта від 12.03.1999".

Lemma agent_parses_year_out_of_range :
  let data := Agent.parse_expertise_document old_text (u "report.docx") None in
  Agent.expertise_year data = Some 1999
  /\ Agent.expertise_date data = u "12.03.1999".
Proof.
  split; vm_compute; reflexivity.
Qed.

(** The bare-year scan of the minimal agent accepts 2030 whatever the
    current year is. *)
Lemma agent_fallback_keeps_2030 :
  Agent.expertise_year
    (Agent.parse_expertise_document (u "Висновок експерта, 2030 рік")
       (u "report.docx") None) = Some 2030.
Proof. vm_compute. reflexivity. Qed.

Lemma clean_year_zero e date : clean_year e date (Some 0) = (date, Some 0).
Proof. reflexivity. Qed.

(** The year check is entered for a year that is not 0: the year 0 of a
    date such as 12.03.0000 goes through with its date. *)
Lemma validator_keeps_year_zero self e fs :
  let data := parse_expertise_document self e fs (u "report.docx")
                (Some (u "Висновок від 12.03.0000")) in
  expertise_year data = Some 0 /\ expertise_date data = Some (u "12.03.0000").
Proof.
  intros data. subst data.
  destruct (parse_document_fields self e fs (u "report.docx")
              (u "Висновок від 12.03.0000")) as (_ & _ & Hdate & Hyear).
  assert (Hdp : _parse_date_patterns (u "Висновок від 12.03.0000")
                = (Some (u "12.03.0000"), Some 0))
    by (vm_compute; reflexivity).
  rewrite Hdp in Hdate, Hyear. cbn [fst snd] in Hdate, Hyear.
  rewrite clean_year_zero in Hdate, Hyear. cbn [fst snd] in Hdate, Hyear.
  exact (conj Hyear Hdate).
Qed.

(** C3, amended. In the optimized pipeline the validator clears both the
    year and the date of every record whose year is present, is not 0 and
    lies outside [2000, current year + 1], and it never leaves one of the
    two without the other: the pair is kept whole or cleared whole.  The
    minimal agent does not check the year of a parsed date; its scan for
    a bare year sets a year only between 2000 and 2030. *)
Theorem year_out_of_range_cleared (e : env) (data : edata) (y : Z) :
  expertise_year data = Some y ->
  y <> 0 ->
  ~ (2000 <= y <= current_year e + 1) ->
  let cleaned := _validate_and_clean_expertise_data e data in
  (expertise_year cleaned = None /\ expertise_date cleaned = None)
  /\ (forall data',
        let cleaned' := _validate_and_clean_expertise_data e data' in
        (expertise_date cleaned' = expertise_date data'
         /\ expertise_year cleaned' = expertise_year data')
        \/ (expertise_date cleaned' = None /\ expertise_year cleaned' = None))
  /\ (forall text year,
        Agent.fallback_year text year = year
        \/ exists y', Agent.fallback_year text year = Some y'
                      /\ 2000 <= y' <= 2030).
Proof.
  intros Hy Hnz Hout cleaned.
  refine (conj _ (conj _ fallback_year_range)).
  - pose proof (validate_year e data) as Hv. fold cleaned in Hv.
    rewrite Hy in Hv. unfold clean_year, truthy_int in Hv.
    assert ((y =? 0) = false) as Hz by (apply Z.eqb_neq; lia).
    rewrite Hz in Hv. simpl in Hv.
    assert ((2000 <=? y) && (y <=? current_year e + 1) = false) as Hr.
    { apply andb_false_iff.
      destruct (Z.leb_spec 2000 y); [|by left].
      right. apply Z.leb_gt. lia. }
    rewrite Hr in Hv. simpl in Hv. injection Hv as -> ->. done.
  - intros data' cleaned'.
    pose proof (validate_year e data') as Hv. fold cleaned' in Hv.
    destruct (clean_year_pair e (expertise_date data') (expertise_year data'))
      as [Hk | Hk]; rewrite Hk in Hv; injection Hv as -> ->; [by left | by right].
Qed.

Definition sample_env : env :=
  Env (u "20250801_120000") 2025 false (fun _ => None) (fun _ => None)
      (fun _ => None) (fun _ => false) (fun _ _ => false) (fun b => b)
      (fun _ => false) (fun _ => 0) false false [].

Definition sample_agent : agent := AgentCfg (u "archive") false default_keywords.

Lemma sample_text_fields_witness :
  erddr_number (parse_expertise_document sample_agent sample_env (FS ∅ ∅)
                  (u "report.docx") (Some AgentProps.sample_text))
  = Some (u "120234500000").
Proof.
  refine (proj1 (proj2 (sample_text_fields sample_agent sample_env (FS ∅ ∅) _))).
  vm_compute. discriminate.
Defined.

Definition year_1999_record : edata :=
  EData None None (Some (u "12.03.1999")) (Some 1999) (Some undetermined)
        (Some unknown_expert) (Some default_sector) (u "report.docx")
        (u "report.docx") 0 None.

Lemma year_out_of_range_cleared_witness :
  expertise_year (_validate_and_clean_expertise_data sample_env year_1999_record)
  = None
  /\ expertise_date (_validate_and_clean_expertise_data sample_env year_1999_record)
     = None.
Proof.
  refine (proj1 (year_out_of_range_cleared sample_env year_1999_record 1999 _ _ _)).
  - reflexivity.
  - discriminate.
  - vm_compute. intros [H _]. apply H. reflexivity.
Defined.

End OptimizedProps.

(** ** The optimized agent: placement in the archive *)

Module PlacementProps.

Import World Optimized.

(** *** Names with a counter are pairwise distinct *)

Lemma digits_of_uint_inj d1 d2 :
  digits_of_uint d1 = digits_of_uint d2 -> d1 = d2.
Proof.
  revert d2. induction d1 as [|d1 IH|d1 IH|d1 IH|d1 IH|d1 IH|d1 IH|d1 IH|d1 IH|d1 IH|d1 IH];
    intros [|d2|d2|d2|d2|d2|d2|d2|d2|d2|d2] H; simpl in H;
    try discriminate H; try reflexivity;
    injection H as H; f_equal; by apply IH.
Qed.

Lemma str_of_nat_inj n k : str_of_nat n = str_of_nat k -> n = k.
Proof.
  intros H. apply digits_of_uint_inj in H.
  rewrite <- (DecimalNat.Unsigned.of_to n), <- (DecimalNat.Unsigned.of_to k).
  by rewrite H.
Qed.

Definition starts_sep (b : str) : bool :=
  match b with
  | c :: _ => c =? sep
  | [] => false
  end.

Lemma app_same {A} (a x : list A) : a = a ++ x -> x = [].
Proof.
  intros H. symmetry. apply (app_inv_head a). by rewrite app_nil_r.
Qed.

(** Joining to the same directory keeps two names apart, as long as both
    or neither begin with a separator. *)
Lemma join2_inj a b1 b2 :
  starts_sep b1 = starts_sep b2 -> join2 a b1 = join2 a b2 -> b1 = b2.
Proof.
  unfold join2, starts_sep.
  destruct b1 as [|c1 b1], b2 as [|c2 b2].
  - done.
  - intros Hs. rewrite <- Hs. destruct (rev a) as [|l r]; [done|].
    destruct (l =? sep); intros H.
    + apply app_same in H. done.
    + apply app_inv_head in H. done.
  - intros Hs. rewrite Hs. destruct (rev a) as [|l r]; [done|].
    destruct (l =? sep); intros H.
    + symmetry in H. apply app_same in H. done.
    + apply app_inv_head in H. done.
  - intros Hs. rewrite <- Hs. destruct (c1 =? sep); [done|].
    destruct (rev a) as [|l r]; [done|].
    destruct (l =? sep); intros H; apply app_inv_head in H; congruence.
Qed.

Lemma underscore : u "_" = [95].
Proof. vm_compute. reflexivity. Qed.

Lemma candidate_inj target_dir name ext c1 c2 :
  candidate target_dir name ext c1 = candidate target_dir name ext c2 -> c1 = c2.
Proof.
  unfold candidate. rewrite underscore. intros H.
  apply join2_inj in H.
  - apply app_inv_head in H. simpl in H. injection H as H.
    apply app_inv_tail in H. by apply str_of_nat_inj.
  - destruct name; reflexivity.
Qed.

(** *** The search for a free name ends *)

(** The paths that exist. *)
Definition existing (fs : fsys) : gset path := dom (files fs) ∪ dirs fs.

Lemma path_exists_existing fs p : path_exists fs p = true <-> p ∈ existing fs.
Proof.
  unfold path_exists, existing, is_file, is_dir.
  rewrite orb_true_iff, !bool_decide_eq_true, elem_of_union, elem_of_dom.
  done.
Qed.

Section FreeName.
Variables (fs : fsys) (target_dir : path) (name ext : str).

Let cand := candidate target_dir name ext.

Lemma candidates_loop (fuel counter : nat) (tried : gset path) :
  tried ⊆ existing fs ->
  (forall c, (counter <= c)%nat -> cand c ∉ tried) ->
  (size (existing fs) <= fuel + size tried)%nat ->
  exists p, free_name fuel fs target_dir name ext (S counter) (cand counter) = Some p.
Proof.
  revert counter tried.
  induction fuel as [|fuel IH]; intros counter tried Hsub Hfresh Hsize.
  - simpl. destruct (path_exists fs (cand counter)) eqn:E; [|eauto].
    exfalso. apply path_exists_existing in E.
    assert (Hnew : cand counter ∉ tried) by (apply Hfresh; lia).
    assert (Hle : (size ({[cand counter]} ∪ tried) <= size (existing fs))%nat).
    { apply subseteq_size, union_subseteq. split; [|done].
      by apply singleton_subseteq_l. }
    rewrite size_union in Hle by (by apply disjoint_singleton_l).
    rewrite size_singleton in Hle. lia.
  - simpl. destruct (path_exists fs (cand counter)) eqn:E; [|eauto].
    apply path_exists_existing in E.
    assert (Hnew : cand counter ∉ tried) by (apply Hfresh; lia).
    apply (IH (S counter) ({[cand counter]} ∪ tried)).
    + apply union_subseteq. split; [|done]. by apply singleton_subseteq_l.
    + intros c Hc. apply not_elem_of_union. split.
      * rewrite elem_of_singleton. intros Heq.
        apply candidate_inj in Heq. lia.
      * apply Hfresh. lia.
    + rewrite size_union by (by apply disjoint_singleton_l).
      rewrite size_singleton. lia.
Qed.

(** With the fuel the model gives it the loop always ends. *)
Lemma free_name_total (target_path : path) :
  exists p, free_name (enough_fuel fs) fs target_dir name ext 1 target_path = Some p.
Proof.
  unfold enough_fuel. simpl.
  destruct (path_exists fs target_path); [|eauto].
  apply (candidates_loop _ 1 ∅).
  - apply empty_subseteq.
  - intros c _. apply not_elem_of_empty.
  - rewrite size_empty. unfold existing. lia.
Qed.

(** The name found does not exist. *)
Lemma free_name_free fuel counter target_path p :
  free_name fuel fs target_dir name ext counter target_path = Some p ->
  path_exists fs p = false.
Proof.
  revert counter target_path.
  induction fuel as [|fuel IH]; intros counter target_path; simpl;
    destruct (path_exists fs target_path) eqn:E; try done.
  - by intros [= <-].
  - apply IH.
  - by intros [= <-].
Qed.

(** The name found is the first of the sequence that does not exist: the
    plain name, or the name with the least counter from [counter] on that
    is free. *)
Lemma free_name_first fuel counter target_path p :
  free_name fuel fs target_dir name ext counter target_path = Some p ->
  p = target_path
  \/ (path_exists fs target_path = true
      /\ exists k, (counter <= k)%nat /\ p = cand k
         /\ forall j, (counter <= j < k)%nat -> path_exists fs (cand j) = true).
Proof.
  revert counter target_path.
  induction fuel as [|fuel IH]; intros counter target_path; simpl;
    destruct (path_exists fs target_path) eqn:E; try done.
  - intros [= <-]. by left.
  - intros H. right. split; [done|].
    destruct (IH _ _ H) as [-> | (Hex & k & Hk & -> & Hall)].
    + exists counter. split; [lia|]. split; [done|]. intros j Hj. lia.
    + exists k. split; [lia|]. split; [done|].
      intros j Hj. destruct (decide (j = counter)) as [-> | Hne].
      * exact Hex.
      * apply Hall. lia.
  - intros [= <-]. by left.
Qed.

End FreeName.

(** *** Copying never overwrites *)

Lemma makedirs_files e fs p fs' :
  makedirs e fs p = Some fs' -> files fs' = files fs /\ dirs fs ⊆ dirs fs'.
Proof.
  unfold makedirs. destruct (_ || _); [done|].
  intros [= <-]. simpl. split; [done | apply union_subseteq_l].
Qed.

Lemma target_directory_files self e fs sector expert_name year expert_path target_dir fs2 :
  target_directory self e fs sector expert_name year
  = (expert_path, Some (target_dir, fs2)) ->
  files fs2 = files fs /\ dirs fs ⊆ dirs fs2.
Proof.
  unfold target_directory. intros [= _ H].
  destruct (makedirs e fs _) as [fs1|] eqn:E1; [|done].
  apply makedirs_files in E1 as [Hf1 Hd1].
  destruct (truthy_int year).
  - destruct (makedirs e fs1 _) as [fs2'|] eqn:E2.
    + apply makedirs_files in E2 as [Hf2 Hd2].
      injection H as _ <-. split; [congruence | by etransitivity].
    + injection H as _ <-. done.
  - injection H as _ <-. done.
Qed.

(** A copy to a path that does not exist writes that path and no other. *)
Lemma copy2_fresh e fs src dst fs' :
  path_exists fs dst = false ->
  copy2 e fs src dst = Some fs' ->
  exists b, files fs !! src = Some b
            /\ files fs' = <[dst := b]> (files fs)
            /\ dirs fs' = dirs fs
            /\ files fs !! dst = None.
Proof.
  intros Hfree. unfold copy2.
  assert (Hd : is_dir fs dst = false).
  { unfold path_exists in Hfree. by apply orb_false_iff in Hfree as [_ ?]. }
  assert (Hf : files fs !! dst = None).
  { unfold path_exists, is_file in Hfree.
    apply orb_false_iff in Hfree as [Hfile _].
    apply bool_decide_eq_false in Hfile.
    destruct (files fs !! dst) eqn:E; [|done].
    exfalso. apply Hfile. eauto. }
  rewrite Hd. destruct (files fs !! src) as [b|]; [|done].
  destruct (_ || _); [done|]. intros [= <-].
  exists b. done.
Qed.

(** C4, amended. In the optimized agent [_copy_file_to_archive] always
    returns; when it copies, the copy goes to the plain target name if
    that path is free, and otherwise to the name with the least counter
    1, 2, ... put before the extension that is free in the destination
    directory, so that the path written did not exist and every file
    that existed keeps its contents. *)
Theorem copy_to_archive_keeps_files (self : agent) (e : env) (fs : fsys)
  (source_path : path) (parsed_data : edata) :
  exists r fs',
    _copy_file_to_archive self e fs source_path parsed_data = Some (r, fs')
    /\ (forall p b, files fs !! p = Some b -> files fs' !! p = Some b)
    /\ (forall target, r = inl target ->
        exists target_dir fs2 b,
          files fs2 = files fs
          /\ path_exists fs2 target = false
          /\ files fs !! target = None
          /\ files fs !! source_path = Some b
          /\ files fs' = <[target := b]> (files fs)
          /\ let name := fst (target_name source_path (expertise_number parsed_data)) in
             let ext := snd (target_name source_path (expertise_number parsed_data)) in
             target = join2 target_dir (name ++ ext)
             \/ (path_exists fs2 (join2 target_dir (name ++ ext)) = true
                 /\ exists k, (1 <= k)%nat
                    /\ target = join2 target_dir
                                  (name ++ u "_" ++ str_of_nat k ++ ext)
                    /\ forall j, (1 <= j < k)%nat ->
                         path_exists fs2
                           (join2 target_dir
                              (name ++ u "_" ++ str_of_nat j ++ ext)) = true)).
Proof.
  unfold _copy_file_to_archive.
  destruct (sector parsed_data) as [sector|];
    [|exists (inr (msg_copy_error (exc_text e))), fs; split; [done|]; split; [done|];
      intros ? [=]].
  destruct (expert_name parsed_data) as [expert_name|];
    [|exists (inr (msg_copy_error (exc_text e))), fs; split; [done|]; split; [done|];
      intros ? [=]].
  destruct (target_directory self e fs sector expert_name (expertise_year parsed_data))
    as [expert_path [[target_dir fs2]|]] eqn:Hdir;
    [|eexists _, fs; split; [done|]; split; [done|]; intros ? [=]].
  apply target_directory_files in Hdir as [Hfiles Hdirs].
  destruct (target_name source_path (expertise_number parsed_data))
    as [name ext] eqn:Hname.
  destruct (free_name_total fs2 target_dir name ext (join2 target_dir (name ++ ext)))
    as [target Hfree].
  rewrite Hfree.
  pose proof (free_name_free _ _ _ _ _ _ _ _ Hfree) as Hnot.
  pose proof (free_name_first _ _ _ _ _ _ _ _ Hfree) as Hfirst.
  destruct (copy2 e fs2 source_path target) as [fs3|] eqn:Hcopy.
  - apply (copy2_fresh _ _ _ _ _ Hnot) in Hcopy as (b & Hsrc & Hnew & _ & Hnone).
    exists (inl target), fs3. split; [done|]. split.
    + intros p b0 Hp. rewrite Hnew, Hfiles.
      rewrite lookup_insert_ne; [done|]. intros ->. rewrite Hfiles in Hnone.
      congruence.
    + intros target' [= <-]. exists target_dir, fs2, b.
      rewrite <- Hfiles. repeat (split; [done|]).
      simpl. exact Hfirst.
  - exists (inr (msg_copy_error (exc_text e))), fs2. split; [done|]. split.
    + intros p b0 Hp. by rewrite Hfiles.
    + intros ? [=].
Qed.

End PlacementProps.

(** ** The optimized agent: duplicates *)

Module DuplicateProps.

Import World Optimized.

(** [fetchone()] after a SELECT by one column: the first row, in rowid
    order, that holds the value. *)
Lemma select_one_some col v t r :
  select_one col v t = Some r -> In r (rows t) /\ col r = Some v.
Proof.
  unfold select_one. intros H. apply find_some in H as [Hin Hc].
  split; [done|]. by apply bool_decide_eq_true in Hc.
Qed.

Lemma select_one_finds col v t :
  (exists r, In r (rows t) /\ col r = Some v) ->
  exists r, select_one col v t = Some r.
Proof.
  intros (r & Hin & Hc). unfold select_one.
  destruct (List.find _ (rows t)) as [r'|] eqn:E; [eauto|].
  exfalso. apply (find_none _ _ E) in Hin.
  apply bool_decide_eq_false in Hin. done.
Qed.

Lemma select_one_none col v t :
  (forall r, In r (rows t) -> col r <> Some v) -> select_one col v t = None.
Proof.
  intros H. unfold select_one. apply AgentProps.find_none_intro.
  intros r Hin. apply bool_decide_eq_false. by apply H.
Qed.

Lemma truthy_nonempty (h : str) : h <> [] -> truthy_str (Some h) = true.
Proof. by destruct h. Qed.

(** The file passes the two checks at the head of [_add_document_impl]. *)
Definition admissible (fs : fsys) (file_path : path) : Prop :=
  path_exists fs file_path = true
  /\ existsb (endswith (lower file_path)) SUPPORTED_EXTENSIONS = true.

(** The fingerprint [_get_file_hash] returns for the file in this state. *)
Definition fingerprint (e : env) (st : state) (file_path : path) : option str :=
  fst (_get_file_hash e (w_fs (st_world st)) (hash_cache st) file_path
         (getsize e (w_fs (st_world st)) file_path)).

(** For a path and size not in the memo table the fingerprint is the
    MD5 of the contents. *)
Lemma fingerprint_fresh e st file_path :
  cache_find (file_path, getsize e (w_fs (st_world st)) file_path) (hash_cache st)
  = None ->
  fingerprint e st file_path = hash_file e (w_fs (st_world st)) file_path.
Proof.
  intros H. unfold fingerprint, _get_file_hash. by rewrite H.
Qed.

(** The duplicate check, when the fingerprint is there and the add is
    not forced, decides the outcome of the add. *)
Lemma add_checked self e st file_path override_data h existing_doc :
  admissible (w_fs (st_world st)) file_path ->
  fingerprint e st file_path = Some h ->
  h <> [] ->
  _check_duplicate_document e (w_db (st_world st)) (Some h) file_path
  = Some existing_doc ->
  exists st',
    _add_document_impl self e st file_path false override_data
    = Some (Duplicate (msg_duplicate (id existing_doc)) (id existing_doc), st')
    /\ st_world st' = st_world st.
Proof.
  intros [Hex Hext] Hfp Hne Hdup. unfold _add_document_impl.
  rewrite Hex, Hext. cbn [negb].
  unfold fingerprint in Hfp.
  destruct (_get_file_hash e _ _ _ _) as [file_hash cache].
  cbn [fst] in Hfp. subst file_hash.
  rewrite (truthy_nonempty h Hne). cbn [negb andb].
  rewrite Hdup. eexists. split; [reflexivity | reflexivity].
Qed.

(** C2. A file (it exists, in a supported format) whose hash, as
    [_get_file_hash] returns it (the MD5 of the contents, or the value
    memoised earlier for the same path and size), equals the stored
    [file_hash] of an indexed record is not added again by an add that
    is not forced ([force_reparse] false, the default), when the
    database answers the look-up: the result is the duplicate result
    that names the id of the first such record, the world is left as it
    was (no row is inserted, no file copied), and nothing is asked of
    the names of the two files.  When the memo table holds nothing for
    the path and size, the hash is the MD5 of the contents. *)
Theorem duplicate_by_hash (self : agent) (e : env) (st : state)
  (file_path : path) (override_data : overrides) (h : str) :
  admissible (w_fs (st_world st)) file_path ->
  fingerprint e st file_path = Some h ->
  h <> [] ->
  select_fails e = false ->
  (exists r, In r (rows (w_db (st_world st))) /\ World.file_hash r = Some h) ->
  (exists r st',
      select_one World.file_hash h (w_db (st_world st)) = Some r
      /\ In r (rows (w_db (st_world st)))
      /\ World.file_hash r = Some h
      /\ _add_document_impl self e st file_path false override_data
         = Some (Duplicate (msg_duplicate (id r)) (id r), st')
      /\ st_world st' = st_world st)
  /\ (cache_find (file_path, getsize e (w_fs (st_world st)) file_path)
        (hash_cache st) = None ->
      hash_file e (w_fs (st_world st)) file_path = Some h).
Proof.
  intros Hadm Hfp Hne Hsel Hrow.
  split; [|intros Hfresh; by rewrite <- (fingerprint_fresh _ _ _ Hfresh)].
  destruct (select_one_finds _ _ _ Hrow) as [r Hr].
  destruct (select_one_some _ _ _ _ Hr) as [Hin Hh].
  assert (Hdup : _check_duplicate_document e (w_db (st_world st)) (Some h) file_path
                 = Some r).
  { unfold _check_duplicate_document.
    rewrite Hsel, (truthy_nonempty h Hne).
    change (default [] (Some h)) with h. by rewrite Hr. }
  destruct (add_checked self e st file_path override_data h r Hadm Hfp Hne Hdup)
    as (st' & Hadd & Hw).
  exists r, st'. done.
Qed.

(** Past the duplicate check no result is a duplicate result. *)
Lemma parse_place_store_result self e st cache file_path file_hash override_data
  res st' :
  parse_place_store self e st cache file_path file_hash override_data
  = Some (res, st') ->
  forall error existing_id, res <> Duplicate error existing_id.
Proof.
  unfold parse_place_store. cbv zeta.
  destruct (if negb (index_only_mode self) then _ else _)
    as [[[archive_path | error0] fs1]|]; [| |done].
  - destruct (_save_document_to_database e _ _) as [[doc_id|] db1].
    + destruct (negb (doc_id =? 0)); by intros [= <- _].
    + by intros [= <- _].
  - by intros [= <- _].
Qed.

(** A forced add, and an add of a file without fingerprint, make no
    duplicate check. *)
Lemma add_unchecked self e st file_path force_reparse override_data res st' :
  force_reparse = true \/ truthy_str (fingerprint e st file_path) = false ->
  _add_document_impl self e st file_path force_reparse override_data
  = Some (res, st') ->
  forall error existing_id, res <> Duplicate error existing_id.
Proof.
  intros Hcase. unfold _add_document_impl. cbv zeta.
  destruct (negb (path_exists _ file_path)); [by intros [= <- _]|].
  destruct (negb (existsb _ SUPPORTED_EXTENSIONS)); [by intros [= <- _]|].
  unfold fingerprint in Hcase.
  destruct (_get_file_hash e _ _ _ _) as [file_hash cache]. cbn [fst] in Hcase.
  assert (negb force_reparse && truthy_str file_hash = false) as ->.
  { destruct Hcase as [-> | ->]; [done | by destruct force_reparse]. }
  apply parse_place_store_result.
Qed.

(** C9. In the optimized add path, when the add (of a file that
    exists, in a supported format) is not forced, the content hash was
    computed and matches no stored hash, and the database answers the
    look-up, a record whose [source_file] is the basename of the new
    file still makes the add a duplicate, naming the first such
    record.  In
    [_check_duplicate_document] the look-up by file name follows every
    look-up by hash that finds nothing, as it follows an absent hash;
    the add path, though, calls that check only when the add is not
    forced and the hash is there: a forced add, and an add of a file
    whose hash is absent or empty, never end in a duplicate result. *)
Theorem duplicate_by_filename (self : agent) (e : env) (st : state)
  (file_path : path) (override_data : overrides) (h : str) :
  admissible (w_fs (st_world st)) file_path ->
  fingerprint e st file_path = Some h ->
  h <> [] ->
  select_fails e = false ->
  (forall r, In r (rows (w_db (st_world st))) -> World.file_hash r <> Some h) ->
  (exists r, In r (rows (w_db (st_world st)))
             /\ World.source_file r = Some (basename file_path)) ->
  (exists r st',
      select_one World.source_file (basename file_path) (w_db (st_world st))
      = Some r
      /\ In r (rows (w_db (st_world st)))
      /\ World.source_file r = Some (basename file_path)
      /\ _add_document_impl self e st file_path false override_data
         = Some (Duplicate (msg_duplicate (id r)) (id r), st')
      /\ st_world st' = st_world st)
  /\ (forall db file_hash,
        (truthy_str file_hash = false
         \/ select_one World.file_hash (default [] file_hash) db = None) ->
        _check_duplicate_document e db file_hash file_path
        = select_one World.source_file (basename file_path) db)
  /\ (forall st0 force_reparse res st',
        force_reparse = true \/ truthy_str (fingerprint e st0 file_path) = false ->
        _add_document_impl self e st0 file_path force_reparse override_data
        = Some (res, st') ->
        forall error existing_id, res <> Duplicate error existing_id).
Proof.
  intros Hadm Hfp Hne Hsel Hmiss Hrow.
  assert (Hgen : forall db file_hash,
             (truthy_str file_hash = false
              \/ select_one World.file_hash (default [] file_hash) db = None) ->
             _check_duplicate_document e db file_hash file_path
             = select_one World.source_file (basename file_path) db).
  { intros db file_hash Hcase. unfold _check_duplicate_document. rewrite Hsel.
    destruct (truthy_str file_hash) eqn:Et; [|done].
    destruct Hcase as [? | ->]; done. }
  split; [|split; [exact Hgen|]].
  - destruct (select_one_finds _ _ _ Hrow) as [r Hr].
    destruct (select_one_some _ _ _ _ Hr) as [Hin Hs].
    assert (Hdup : _check_duplicate_document e (w_db (st_world st)) (Some h) file_path
                   = Some r).
    { rewrite Hgen; [done|]. right. by apply select_one_none. }
    destruct (add_checked self e st file_path override_data h r Hadm Hfp Hne Hdup)
      as (st' & Hadd & Hw).
    exists r, st'. done.
  - intros st0 force_reparse res st' Hcase Hadd.
    by apply (add_unchecked _ _ _ _ _ _ _ _ Hcase Hadd).
Qed.

(** *** A small archive to run the two theorems on *)

Definition md5_stub (b : bytes) : str := u "md5:" ++ b.

Definition test_env : env :=
  Env (u "20250801_120000") 2025 false (fun _ => None)
      (fun _ => Some (u "Висновок експерта")) (fun _ => None)
      (fun _ => false) (fun _ _ => false) md5_stub
      (fun _ => false) (fun _ => 0) false false (u "error").

Definition test_agent : agent := AgentCfg (u "archive") false default_keywords.

Definition indexed_row : row :=
  Row 1 None (Some (u "12/34")) None None (Some undetermined)
      (Some unknown_expert) (Some default_sector) (Some (u "a.docx"))
      (Some (u "archive/a.docx")) (Some 3) (Some (md5_stub [1; 2; 3])).

Definition test_db : table := Table [indexed_row] 1.

(** The same contents under another name. *)
Definition same_contents : state :=
  State (World_ (FS {[ u "in/b.docx" := [1; 2; 3] ]} ∅) test_db) [] false.

(** Other contents under the name of the indexed file. *)
Definition same_name : state :=
  State (World_ (FS {[ u "in/a.docx" := [7; 8] ]} ∅) test_db) [] false.

Lemma duplicate_by_hash_witness :
  exists r st',
    select_one World.file_hash (md5_stub [1; 2; 3]) test_db = Some r
    /\ In r (rows test_db)
    /\ World.file_hash r = Some (md5_stub [1; 2; 3])
    /\ _add_document_impl test_agent test_env same_contents (u "in/b.docx") false
         no_overrides
       = Some (Duplicate (msg_duplicate (id r)) (id r), st')
    /\ st_world st' = st_world same_contents.
Proof.
  apply (duplicate_by_hash test_agent test_env same_contents (u "in/b.docx")
           no_overrides (md5_stub [1; 2; 3])).
  - split; vm_compute; reflexivity.
  - vm_compute. reflexivity.
  - vm_compute. discriminate.
  - reflexivity.
  - exists indexed_row. split; [by left | reflexivity].
Defined.

Lemma duplicate_by_filename_witness :
  exists r st',
    select_one World.source_file (basename (u "in/a.docx")) test_db = Some r
    /\ In r (rows test_db)
    /\ World.source_file r = Some (basename (u "in/a.docx"))
    /\ _add_document_impl test_agent test_env same_name (u "in/a.docx") false
         no_overrides
       = Some (Duplicate (msg_duplicate (id r)) (id r), st')
    /\ st_world st' = st_world same_name.
Proof.
  apply (duplicate_by_filename test_agent test_env same_name (u "in/a.docx")
           no_overrides (md5_stub [7; 8])).
  - split; vm_compute; reflexivity.
  - vm_compute. reflexivity.
  - vm_compute. discriminate.
  - reflexivity.
  - intros r [<- | []]. vm_compute. discriminate.
  - exists indexed_row. split; [by left | vm_compute; reflexivity].
Defined.

(** *** Adds that store what is there already *)

(** The same contents under another name, hashed before under this
    path and size when the file held other contents. *)
Definition stale_memo : state :=
  State (World_ (FS {[ u "in/b.docx" := [1; 2; 3] ]} ∅) test_db)
        [((u "in/b.docx", 3), Some (md5_stub [9; 9; 9]))] false.

(** An environment in which no file can be read, neither for its text
    nor for its fingerprint, and an agent that indexes files in place. *)
Definition unreadable_env : env :=
  Env (u "20250801_120000") 2025 false (fun _ => None)
      (fun _ => None) (fun _ => None)
      (fun _ => false) (fun _ _ => true) md5_stub
      (fun _ => true) (fun _ => 0) false false (u "error").

Definition in_place_agent : agent := AgentCfg (u "archive") true default_keywords.

(** An environment in which the SELECT of the duplicate check raises. *)
Definition no_select_env : env :=
  Env (u "20250801_120000") 2025 false (fun _ => None)
      (fun _ => Some (u "Висновок експерта")) (fun _ => None)
      (fun _ => false) (fun _ _ => false) md5_stub
      (fun _ => false) (fun _ => 0) true false (u "error").

(** Counterexample to C2 as stated: the table holds one record, and
    the file [in/b.docx] has the content hash stored in it.  A forced
    add of the file is a success under id 2 and leaves a second row
    with the same [file_hash]; so is an add that is not forced when the
    memo table of [_get_file_hash] holds another value for the path and
    size, and one when the SELECT of the duplicate check raises. *)
Lemma same_hash_added_again :
  let forced := _add_document_impl test_agent test_env same_contents
                  (u "in/b.docx") true no_overrides in
  let stale := _add_document_impl test_agent test_env stale_memo
                 (u "in/b.docx") false no_overrides in
  let unanswered := _add_document_impl test_agent no_select_env same_contents
                      (u "in/b.docx") false no_overrides in
  rows (w_db (st_world same_contents)) = [indexed_row]
  /\ rows (w_db (st_world stale_memo)) = [indexed_row]
  /\ hash_file test_env (w_fs (st_world same_contents)) (u "in/b.docx")
     = World.file_hash indexed_row
  /\ hash_file test_env (w_fs (st_world stale_memo)) (u "in/b.docx")
     = World.file_hash indexed_row
  /\ hash_file no_select_env (w_fs (st_world same_contents)) (u "in/b.docx")
     = World.file_hash indexed_row
  /\ fingerprint test_env stale_memo (u "in/b.docx") = Some (md5_stub [9; 9; 9])
  /\ match forced with
     | Some (Added doc_id _ parsed_data, st') =>
         doc_id = 2
         /\ Optimized.file_hash parsed_data = World.file_hash indexed_row
         /\ rows (w_db (st_world st')) = [indexed_row; row_of parsed_data 2]
     | _ => False
     end
  /\ match stale with
     | Some (Added doc_id _ parsed_data, st') =>
         doc_id = 2
         /\ rows (w_db (st_world st')) = [indexed_row; row_of parsed_data 2]
     | _ => False
     end
  /\ match unanswered with
     | Some (Added doc_id _ parsed_data, st') =>
         doc_id = 2
         /\ Optimized.file_hash parsed_data = World.file_hash indexed_row
         /\ rows (w_db (st_world st')) = [indexed_row; row_of parsed_data 2]
     | _ => False
     end.
Proof.
  vm_compute. repeat split; reflexivity.
Qed.

(** Counterexample to C9 as stated: the table holds one record, whose
    [source_file] is the basename of [in/a.docx].  A forced add of that
    file is a success under id 2 and leaves a second row with the same
    [source_file]; so is an add that is not forced of a file whose hash
    is absent, and one when the SELECT of the duplicate check raises. *)
Lemma same_name_added_again :
  let forced := _add_document_impl test_agent test_env same_name (u "in/a.docx")
                  true no_overrides in
  let no_hash := _add_document_impl in_place_agent unreadable_env same_name
                   (u "in/a.docx") false no_overrides in
  let unanswered := _add_document_impl test_agent no_select_env same_name
                      (u "in/a.docx") false no_overrides in
  rows (w_db (st_world same_name)) = [indexed_row]
  /\ World.source_file indexed_row = Some (basename (u "in/a.docx"))
  /\ fingerprint unreadable_env same_name (u "in/a.docx") = None
  /\ match forced with
     | Some (Added doc_id _ parsed_data, st') =>
         doc_id = 2
         /\ Optimized.source_file parsed_data = basename (u "in/a.docx")
         /\ rows (w_db (st_world st')) = [indexed_row; row_of parsed_data 2]
     | _ => False
     end
  /\ match no_hash with
     | Some (Added doc_id _ parsed_data, st') =>
         doc_id = 2
         /\ Optimized.source_file parsed_data = basename (u "in/a.docx")
         /\ rows (w_db (st_world st')) = [indexed_row; row_of parsed_data 2]
     | _ => False
     end
  /\ match unanswered with
     | Some (Added doc_id _ parsed_data, st') =>
         doc_id = 2
         /\ Optimized.source_file parsed_data = basename (u "in/a.docx")
         /\ rows (w_db (st_world st')) = [indexed_row; row_of parsed_data 2]
     | _ => False
     end.
Proof.
  vm_compute. repeat split; reflexivity.
Qed.

End DuplicateProps.

(** ** The minimal agent: adding a document *)

Module AddProps.

Import World Agent.

(** *** The table under [add_document] *)

(** The uniqueness of the expertise number, as a property of the table. *)
Definition number_unique (t : table) : Prop :=
  forall n, (length (rows_with_number t n) <= 1)%nat.

Lemma rows_with_number_app rows1 rows2 last1 last2 n :
  rows_with_number (Table (rows1 ++ rows2) last1) n
  = rows_with_number (Table rows1 last2) n ++ rows_with_number (Table rows2 last2) n.
Proof. unfold rows_with_number. simpl. apply List.filter_app. Qed.

Lemma rows_with_number_empty t n :
  unique_ok t (Some n) = true -> rows_with_number t n = [].
Proof.
  unfold unique_ok, rows_with_number. intros H. apply negb_true_iff in H.
  induction (rows t) as [|r rs IH]; simpl in *; [done|].
  apply orb_false_iff in H as [Hr Hrs]. rewrite Hr. by apply IH.
Qed.

(** An INSERT keeps the expertise numbers unique. *)
Lemma insert_unique t mk rowid t' :
  number_unique t -> insert t mk = Some (rowid, t') -> number_unique t'.
Proof.
  unfold insert. intros Hu.
  destruct (unique_ok t (World.expertise_number (mk (last_rowid t + 1)))) eqn:Eok; [|done].
  intros [= _ <-] n.
  rewrite (rows_with_number_app _ _ _ (last_rowid t)), length_app.
  destruct t as [rs l]. simpl in *.
  unfold rows_with_number at 2. simpl.
  destruct (bool_decide (World.expertise_number (mk (l + 1)) = Some n)) eqn:E.
  - apply bool_decide_eq_true in E. rewrite E in Eok.
    rewrite (rows_with_number_empty _ _ Eok). simpl. lia.
  - specialize (Hu n). simpl. lia.
Qed.

(** What a call may do to the table: nothing, or one INSERT. *)
Definition table_step (t t' : table) : Prop :=
  t' = t \/ exists mk rowid, insert t mk = Some (rowid, t').

Lemma table_step_unique t t' :
  table_step t t' -> number_unique t -> number_unique t'.
Proof.
  intros [-> | (mk & rowid & H)] Hu; [done|]. by eapply insert_unique.
Qed.

Lemma store_step e w d file_path original_path stored_path dest_path :
  table_step (w_db w)
    (w_db (snd (store e w d file_path original_path stored_path dest_path))).
Proof.
  unfold store. destruct (insert_fails e); [by left|].
  destruct (insert (w_db w) (row_of d stored_path)) as [[rowid db1]|] eqn:E;
    [|by left].
  right. exists (row_of d stored_path), rowid.
  destruct dest_path; done.
Qed.

Lemma makedirs_db_free e fs p fs' :
  makedirs e fs p = Some fs' -> files fs' = files fs.
Proof.
  unfold makedirs. destruct (_ || _); [done|]. by intros [= <-].
Qed.

Lemma place_and_store_step self e w d file_path original_path :
  table_step (w_db w)
    (w_db (snd (place_and_store self e w d file_path original_path))).
Proof.
  unfold place_and_store.
  destruct (index_only_mode self && truthy_str (existing_archive_path self)).
  - destruct (negb _); [by left|]. apply store_step.
  - destruct (get_file_destination_path _ _ _ _ _ _ _) as [[dest_path fs1]|];
      [|by left].
    destruct (copy2 e fs1 original_path _) as [fs2|]; [|by left].
    apply (store_step e (World_ fs2 (w_db w))).
Qed.

Lemma check_and_place_step self e w d file_path original_path :
  table_step (w_db w)
    (w_db (snd (check_and_place self e w d file_path original_path))).
Proof.
  unfold check_and_place. destruct (select_fails e); [by left|].
  destruct (select_one _ _ _); [by left|]. apply place_and_store_step.
Qed.

(** The outcomes of a call that stops before the uniqueness check. *)
Definition early_failure (msg : str) : Prop :=
  msg = msg_not_found \/ msg = msg_no_win32 \/ msg = msg_convert_failed
  \/ (exists file_ext, msg = msg_unsupported file_ext)
  \/ (exists file_ext, msg = msg_no_text file_ext)
  \/ msg = msg_no_expert \/ msg = msg_no_sector.

(** A call either stops early, with the table as it was, or gets to the
    uniqueness check with a record that carries the caller's expertise
    number when one was given. *)
Definition reaches_check (self : agent) (e : env) (w : world)
  (expertise_number : option str) (res : (bool * str) * world) : Prop :=
  exists w1 d file_path original_path,
    w_db w1 = w_db w
    /\ (truthy_str expertise_number = true ->
        d_expertise_number d = default [] expertise_number)
    /\ res = check_and_place self e w1 d file_path original_path.

Definition stops_early (w : world) (res : (bool * str) * world) : Prop :=
  fst (fst res) = false /\ early_failure (snd (fst res)) /\ w_db (snd res) = w_db w.

Lemma with_auto_number_given e parsed_data sector_code expert_name year number :
  truthy_str number = true ->
  d_expertise_number
    (with_auto_number e (make_data parsed_data sector_code expert_name year number))
  = default [] number.
Proof.
  intros Ht. unfold with_auto_number, make_data, or_str. rewrite Ht.
  cbn [d_expertise_number].
  destruct number as [[|c n]|]; try discriminate Ht. reflexivity.
Qed.

Lemma parse_and_add_stages self e w file_path original_path file_ext
  sector_code expert_name year number :
  let res := parse_and_add self e w file_path original_path file_ext
               sector_code expert_name year number in
  stops_early w res \/ reaches_check self e w number res.
Proof.
  unfold parse_and_add.
  destruct (negb (supported file_ext)).
  { left. split; [done|]. split; [|done].
    right. right. right. left. by exists file_ext. }
  destruct (get_file_content e (w_fs w) file_path) as [text fs1].
  destruct (negb (truthy_str text)).
  { left. split; [done|]. split; [|done].
    right. right. right. right. left. by exists file_ext. }
  set (d := make_data _ sector_code expert_name year number).
  destruct (_ && negb (truthy_str expert_name)).
  { left. split; [done|]. split; [|done]. do 5 right. by left. }
  destruct (negb (truthy_str (Some (d_sector d)))).
  { left. split; [done|]. split; [|done]. do 6 right. done. }
  right. exists (World_ fs1 (w_db w)), (with_auto_number e d), file_path, original_path.
  split; [done|]. split; [|done].
  intros Ht. by apply with_auto_number_given.
Qed.

Lemma add_document_stages self e w file_path sector_code expert_name year number :
  let res := add_document self e w file_path sector_code expert_name year number in
  stops_early w res \/ reaches_check self e w number res.
Proof.
  unfold add_document.
  destruct (negb (path_exists (w_fs w) file_path)).
  { left. split; [done|]. split; [by left | done]. }
  cbv zeta.
  destruct (str_eqb (file_ext_of file_path) (u ".doc")).
  - destruct (negb (WIN32_AVAILABLE e)).
    { left. split; [done|]. split; [by right; left | done]. }
    destruct (convert_doc_to_docx e (w_fs w) file_path) as [[docx_path|] fs1].
    + destruct (truthy_str (Some docx_path)).
      * destruct (parse_and_add_stages self e (World_ fs1 (w_db w)) docx_path
                    file_path (u ".docx") sector_code expert_name year number)
          as [(H1 & H2 & H3) | (w1 & d & fp & op & H1 & H2 & H3)].
        -- left. done.
        -- right. exists w1, d, fp, op. done.
      * left. split; [done|]. split; [by right; right; left | done].
    + left. split; [done|]. split; [by right; right; left | done].
  - apply parse_and_add_stages.
Qed.

Lemma add_document_step self e w file_path sector_code expert_name year number :
  table_step (w_db w)
    (w_db (snd (add_document self e w file_path sector_code expert_name year number))).
Proof.
  destruct (add_document_stages self e w file_path sector_code expert_name year number)
    as [(_ & _ & H) | (w1 & d & fp & op & Hdb & _ & ->)].
  - left. exact H.
  - rewrite <- Hdb. apply check_and_place_step.
Qed.

(** The uniqueness check stops a record whose number is in the table. *)
Lemma check_and_place_present self e w d file_path original_path :
  rows_with_number (w_db w) (d_expertise_number d) <> [] ->
  let res := check_and_place self e w d file_path original_path in
  snd res = w
  /\ (select_fails e = false -> fst res = (false, msg_exists (d_expertise_number d)))
  /\ (select_fails e = true -> fst res = (false, msg_check_error (exc_text e))).
Proof.
  intros Hpresent. unfold check_and_place.
  destruct (select_fails e); [done|].
  destruct (select_one World.expertise_number (d_expertise_number d) (w_db w)) eqn:E;
    [done|].
  exfalso. apply Hpresent. unfold rows_with_number.
  unfold select_one in E.
  induction (rows (w_db w)) as [|r rs IH]; simpl in *; [done|].
  destruct (bool_decide (World.expertise_number r = Some (d_expertise_number d)));
    [done | by apply IH].
Qed.

(** *** Messages *)

Lemma msg_exists_distinct n exc :
  msg_exists n <> msg_save_error exc
  /\ msg_exists n <> msg_copy_error exc
  /\ msg_exists n <> msg_check_error exc.
Proof.
  assert (Hhd : forall s, hd 0 (msg_exists n) <> hd 0 (u "Помилка" ++ s)).
  { intros s. vm_compute. discriminate. }
  refine (conj _ (conj _ _)); intros H; apply (f_equal (hd 0)) in H;
    vm_compute in H; discriminate H.
Qed.

(** *** A file that can be read *)

(** The file is a .docx or .pdf document whose text the library gives. *)
Definition readable (e : env) (fs : fsys) (file_path : path) (b : bytes)
  (text : str) : Prop :=
  files fs !! file_path = Some b
  /\ text <> []
  /\ ((file_ext_of file_path = u ".docx" /\ docx_text e b = Some text)
      \/ (file_ext_of file_path = u ".pdf" /\ pdf_text e b = Some text)).

Lemma readable_content e w file_path b text :
  readable e (w_fs w) file_path b text ->
  path_exists (w_fs w) file_path = true
  /\ str_eqb (file_ext_of file_path) (u ".doc") = false
  /\ supported (file_ext_of file_path) = true
  /\ get_file_content e (w_fs w) file_path = (Some text, w_fs w)
  /\ truthy_str (Some text) = true.
Proof.
  intros (Hb & Hne & Hext).
  assert (Hex : path_exists (w_fs w) file_path = true).
  { unfold path_exists, is_file. apply orb_true_iff. left.
    apply bool_decide_eq_true. rewrite Hb. eauto. }
  assert (Ht : truthy_str (Some text) = true) by by destruct text.
  unfold get_file_content, extract_docx_content, extract_pdf_content.
  destruct Hext as [[-> Hd] | [-> Hp]]; rewrite Hb.
  - rewrite Hd. repeat split; try done; vm_compute; reflexivity.
  - rewrite Hp. repeat split; try done; vm_compute; reflexivity.
Qed.

(** The record a call builds for a readable file. *)
Definition record_of (e : env) (file_path : path) (text : str)
  (sector_code expert_name : option str) (year : option Z)
  (number : option str) : data :=
  with_auto_number e
    (make_data (parse_expertise_document text (basename file_path) sector_code)
       sector_code expert_name year number).

(** With a readable file and an expert's name the call gets to the
    uniqueness check. *)
Lemma add_document_readable self e w file_path b text sector_code expert_name
  year number :
  readable e (w_fs w) file_path b text ->
  truthy_str expert_name = true ->
  add_document self e w file_path sector_code expert_name year number
  = check_and_place self e w
      (record_of e file_path text sector_code expert_name year number)
      file_path file_path.
Proof.
  intros Hr Hen.
  destruct (readable_content e w file_path b text Hr)
    as (Hex & Hdoc & Hsup & Hget & Ht).
  unfold add_document. rewrite Hex. cbn [negb]. cbv zeta. rewrite Hdoc.
  unfold parse_and_add. rewrite Hsup. cbn [negb]. rewrite Hget. rewrite Ht.
  cbn [negb]. rewrite Hen. rewrite andb_false_r.
  assert (Hs : forall d, truthy_str (Some (d_sector (make_data d sector_code
                            expert_name year number))) = true).
  { intros d. unfold make_data, or_str. cbn [d_sector].
    destruct (truthy_str sector_code) eqn:Es.
    - destruct sector_code as [[|c s]|]; try discriminate Es. reflexivity.
    - vm_compute. reflexivity. }
  rewrite Hs. cbn [negb].
  destruct w as [fs db]. reflexivity.
Qed.

(** *** The same expertise number twice *)

(** The expertise number a call works with for a readable file: the
    caller's, else the one parsed from the text, else the one made from
    the clock. *)
Definition number_of (e : env) (file_path : path) (text : str)
  (sector_code expert_name : option str) (year : option Z)
  (number : option str) : str :=
  d_expertise_number
    (record_of e file_path text sector_code expert_name year number).

Lemma number_of_given e file_path text sector_code expert_name year n :
  n <> [] ->
  number_of e file_path text sector_code expert_name year (Some n) = n.
Proof.
  intros Hn. unfold number_of, record_of.
  apply (with_auto_number_given e _ _ _ _ (Some n)). by destruct n.
Qed.

(** C1. Of two add operations, whatever they are given, at most one
    leaves a record with a given expertise number in the table.  Once a
    record with the number is stored, a second operation that is given
    the same number never succeeds and never changes the table: it stops
    at one of the checks on its own file or at the uniqueness check; and
    for a readable file with an expert's name and a database that
    answers, its result is the "already exists" failure that carries the
    number (be the number given by the caller or read from the
    document), a text that differs from every generic error of the
    operation. *)
Theorem same_number_added_once (self : agent) (e1 e2 : env) (w : world)
  (file_path1 file_path2 : path) (sector_code1 sector_code2 : option str)
  (expert_name1 expert_name2 : option str) (year1 year2 : option Z)
  (number1 number2 : option str) (n : str) :
  number_unique (w_db w) ->
  let first := add_document self e1 w file_path1 sector_code1 expert_name1
                 year1 number1 in
  let second := add_document self e2 (snd first) file_path2 sector_code2
                  expert_name2 year2 number2 in
  (length (rows_with_number (w_db (snd second)) n) <= 1)%nat
  /\ (rows_with_number (w_db (snd first)) n <> [] ->
      (number2 = Some n -> n <> [] ->
       fst (fst second) = false
       /\ w_db (snd second) = w_db (snd first)
       /\ (snd (fst second) = msg_exists n
           \/ snd (fst second) = msg_check_error (exc_text e2)
           \/ early_failure (snd (fst second))))
      /\ (forall b text,
            readable e2 (w_fs (snd first)) file_path2 b text ->
            truthy_str expert_name2 = true ->
            select_fails e2 = false ->
            number_of e2 file_path2 text sector_code2 expert_name2 year2 number2
            = n ->
            second = ((false, msg_exists n), snd first)))
  /\ (forall exc,
        msg_exists n <> msg_save_error exc
        /\ msg_exists n <> msg_copy_error exc
        /\ msg_exists n <> msg_check_error exc).
Proof.
  intros Hu first second.
  refine (conj _ (conj _ (msg_exists_distinct n))).
  - apply (table_step_unique (w_db (snd first))).
    + apply add_document_step.
    + apply (table_step_unique (w_db w)); [apply add_document_step | done].
  - intros Hpresent. split.
    + intros -> Hn.
      assert (Ht : truthy_str (Some n) = true) by by destruct n.
      destruct (add_document_stages self e2 (snd first) file_path2 sector_code2
                  expert_name2 year2 (Some n))
        as [(H1 & H2 & H3) | (w1 & d & fp & op & Hdb & Hd & Hres)].
      * fold second in H1, H2, H3. auto.
      * fold second in Hres. specialize (Hd Ht).
        change (d_expertise_number d = n) in Hd.
        assert (Hp : rows_with_number (w_db w1) (d_expertise_number d) <> [])
          by (rewrite Hdb, Hd; exact Hpresent).
        destruct (check_and_place_present self e2 w1 d fp op Hp)
          as (Hw & Hok & Hfail).
        rewrite <- Hres in Hw, Hok, Hfail. rewrite Hd in Hok.
        destruct (select_fails e2).
        -- rewrite (Hfail eq_refl). cbn [fst snd]. rewrite Hw. auto.
        -- rewrite (Hok eq_refl). cbn [fst snd]. rewrite Hw. auto.
    + intros b text Hr Hen Hsel Hnum. subst second.
      rewrite (add_document_readable self e2 (snd first) file_path2 b text
                 sector_code2 expert_name2 year2 number2 Hr Hen).
      unfold number_of in Hnum.
      set (d := record_of e2 file_path2 text sector_code2 expert_name2 year2
                  number2) in *.
      assert (Hp : rows_with_number (w_db (snd first)) (d_expertise_number d) <> [])
        by (rewrite Hnum; exact Hpresent).
      destruct (check_and_place_present self e2 (snd first) d file_path2
                  file_path2 Hp) as (Hw & Hok & _).
      specialize (Hok Hsel). rewrite Hnum in Hok.
      destruct (check_and_place self e2 (snd first) d file_path2 file_path2)
        as [r w']. cbn [fst snd] in Hw, Hok. by subst.
Qed.

(** *** A failed INSERT after the copy *)

Lemma copy2_writes e fs src dst fs' :
  copy2 e fs src dst = Some fs' ->
  exists target b,
    (target = dst \/ target = join2 dst (basename src))
    /\ files fs !! src = Some b
    /\ files fs' = <[target := b]> (files fs).
Proof.
  unfold copy2. destruct (files fs !! src) as [b|]; [|done].
  destruct (_ || _); [done|]. intros [= <-].
  eexists _, b. split; [|done].
  destruct (is_dir fs dst); [by right | by left].
Qed.

Lemma select_none_rows t n :
  select_one World.expertise_number n t = None -> rows_with_number t n = [].
Proof.
  unfold select_one, rows_with_number.
  induction (rows t) as [|r rs IH]; simpl; [done|].
  destruct (bool_decide (World.expertise_number r = Some n)); [done | exact IH].
Qed.

(** The agent copies (it was not set up to index an existing archive in
    place). *)
Definition copy_mode (self : agent) : Prop :=
  index_only_mode self && truthy_str (existing_archive_path self) = false.

(** C10. In copy mode the file is copied into the archive before the
    INSERT is tried.  When the INSERT then fails, the operation returns
    the storage failure, the table is as it was (it holds no record with
    the number of this document), and the copy stays in the archive. *)
Theorem failed_insert_leaves_file (self : agent) (e : env) (w : world)
  (file_path : path) (b : bytes) (text : str)
  (sector_code expert_name : option str) (year : option Z)
  (number : option str) (dest_path : path) (fs1 fs2 : fsys) :
  copy_mode self ->
  readable e (w_fs w) file_path b text ->
  truthy_str expert_name = true ->
  select_fails e = false ->
  let d := record_of e file_path text sector_code expert_name year number in
  select_one World.expertise_number (d_expertise_number d) (w_db w) = None ->
  get_file_destination_path self e (w_fs w) (d_sector d) (d_expert_name d)
    (d_expertise_year d) (d_expertise_number d) = Some (dest_path, fs1) ->
  copy2 e fs1 file_path (join2 dest_path (basename file_path)) = Some fs2 ->
  insert_fails e = true ->
  let res := add_document self e w file_path sector_code expert_name year number in
  fst res = (false, msg_save_error (exc_text e))
  /\ w_fs (snd res) = fs2
  /\ w_db (snd res) = w_db w
  /\ rows_with_number (w_db (snd res)) (d_expertise_number d) = []
  /\ exists target,
       (target = join2 dest_path (basename file_path)
        \/ target = join2 (join2 dest_path (basename file_path)) (basename file_path))
       /\ files (w_fs (snd res)) !! target = Some b.
Proof.
  intros Hmode Hr Hen Hsel d Hfree Hdest Hcopy Hins res.
  assert (Hres : res = ((false, msg_save_error (exc_text e)), World_ fs2 (w_db w))).
  { subst res.
    rewrite (add_document_readable self e w file_path b text sector_code
               expert_name year number Hr Hen).
    fold d. unfold check_and_place. rewrite Hsel, Hfree.
    unfold place_and_store. unfold copy_mode in Hmode. rewrite Hmode.
    rewrite Hdest, Hcopy. unfold store. rewrite Hins. reflexivity. }
  rewrite Hres. cbn [fst snd w_fs w_db].
  refine (conj eq_refl (conj eq_refl (conj eq_refl (conj _ _)))).
  - by apply select_none_rows.
  - destruct (copy2_writes _ _ _ _ _ Hcopy) as (target & b' & Ht & Hsrc & Hnew).
    assert (Hb : files fs1 !! file_path = Some b).
    { unfold get_file_destination_path in Hdest. destruct Hr as (Hb & _).
      destruct (makedirs e (w_fs w) _) as [fs1'|] eqn:E1.
      - injection Hdest as _ <-. by rewrite (makedirs_db_free _ _ _ _ E1).
      - destruct (makedirs e (w_fs w) _) as [fs1'|] eqn:E2 in Hdest; [|done].
        injection Hdest as _ <-. by rewrite (makedirs_db_free _ _ _ _ E2). }
    rewrite Hb in Hsrc. injection Hsrc as <-.
    exists target. split; [exact Ht|]. rewrite Hnew. apply lookup_insert_eq.
Qed.

(** *** A small archive to run the operation on *)

Definition test_agent : agent := AgentCfg (u "archive") None false.

Definition report_text : str := u "Висновок експерта щодо підпису".

Definition test_env (text : str) (insert_fault : bool) : env :=
  Env (u "20250801_120000") 2025 false (fun _ => None)
      (fun _ => Some text) (fun _ => None)
      (fun _ => false) (fun _ _ => false) (fun b => b)
      (fun _ => false) (fun _ => 0) false insert_fault (u "disk I/O error").

Definition incoming : world :=
  World_ (FS {[ u "in/a.docx" := [1]; u "in/b.docx" := [2] ]} ∅) (Table [] 0).

Definition first_add : (bool * str) * world :=
  add_document test_agent (test_env report_text false) incoming (u "in/a.docx")
    None (Some (u "Петренко")) None (Some (u "105/24")).

Lemma same_number_added_once_witness :
  fst first_add
  = (true, u "Додано в почерк та ТЕД/Петренко: 105_24 (тип: почеркознавча)")
  /\ fst (add_document test_agent (test_env report_text false) (snd first_add)
            (u "in/b.docx") None (Some (u "Іваненко")) None (Some (u "105/24")))
     = (false, u "Експертиза №105/24 вже існує в базі").
Proof.
  split; [vm_compute; reflexivity|].
  pose proof (same_number_added_once test_agent (test_env report_text false)
                (test_env report_text false) incoming (u "in/a.docx")
                (u "in/b.docx") None None (Some (u "Петренко"))
                (Some (u "Іваненко")) None None (Some (u "105/24"))
                (Some (u "105/24")) (u "105/24"))
    as H.
  cbv zeta in H. fold first_add in H.
  destruct H as (_ & H & _).
  - intros n. simpl. lia.
  - destruct H as (_ & H).
    + vm_compute. discriminate.
    + rewrite (H [2] report_text).
      * vm_compute. reflexivity.
      * refine (conj _ (conj _ (or_introl (conj _ _)))).
        -- vm_compute. reflexivity.
        -- vm_compute. discriminate.
        -- vm_compute. reflexivity.
        -- reflexivity.
      * reflexivity.
      * reflexivity.
      * vm_compute. reflexivity.
Defined.

Definition archived_copy : path := u "archive/почерк та ТЕД/Петренко/2025/105_24/a.docx".

Definition archive_dir : path := u "archive/почерк та ТЕД/Петренко/2025/105_24".

(** The file system once the destination directory is made, and once the
    file is copied. *)
Definition with_dirs : fsys :=
  FS (files (w_fs incoming)) (dirs (w_fs incoming) ∪ list_to_set (ancestors archive_dir)).
Definition with_copy : fsys := write_file with_dirs archived_copy [1].

Lemma failed_insert_leaves_file_witness :
  let res := add_document test_agent (test_env report_text true) incoming
               (u "in/a.docx") None (Some (u "Петренко")) None
               (Some (u "105/24")) in
  fst res = (false, msg_save_error (u "disk I/O error"))
  /\ w_fs (snd res) = with_copy
  /\ w_db (snd res) = w_db incoming.
Proof.
  intros res.
  destruct (failed_insert_leaves_file test_agent (test_env report_text true) incoming
              (u "in/a.docx") [1] report_text None (Some (u "Петренко")) None
              (Some (u "105/24")) archive_dir with_dirs with_copy)
    as (H1 & H2 & H3 & _ & _).
  - reflexivity.
  - refine (conj _ (conj _ (or_introl (conj _ _)))).
    + vm_compute. reflexivity.
    + vm_compute. discriminate.
    + vm_compute. reflexivity.
    + reflexivity.
  - reflexivity.
  - reflexivity.
  - vm_compute. reflexivity.
  - vm_compute. reflexivity.
  - vm_compute. reflexivity.
  - reflexivity.
  - exact (conj H1 (conj H2 H3)).
Defined.

Lemma with_copy_holds_file :
  files with_copy !! archived_copy = Some [1]
  /\ files (w_fs incoming) !! archived_copy = None.
Proof. split; vm_compute; reflexivity. Qed.

(** *** The minimal agent copies over an existing file *)

(** An archive that already holds a file where the new document is to
    go (left, for instance, by an add whose INSERT failed). *)
Definition occupied : world :=
  World_ (FS {[ u "in/a.docx" := [2]; archived_copy := [1] ]} ∅) (Table [] 0).

(** Counterexample to C4 as stated: the add operation of the minimal
    agent copies to the destination directory under the source's name
    without looking whether that path exists; the file that was there is
    overwritten. *)
Lemma agent_add_overwrites :
  let res := add_document test_agent (test_env report_text false) occupied
               (u "in/a.docx") None (Some (u "Петренко")) None
               (Some (u "105/24")) in
  files (w_fs occupied) !! archived_copy = Some [1]
  /\ fst (fst res) = true
  /\ files (w_fs (snd res)) !! archived_copy = Some [2]
  /\ World.file_path <$> rows (w_db (snd res)) = [Some archived_copy].
Proof.
  vm_compute. repeat split; reflexivity.
Qed.

(** *** The minimal agent stores a year out of range *)

(** Counterexample to C3 as stated: the minimal agent parses the date
    12.03.1999, whose year lies outside the range in every year, and its
    add operation stores the date and the year as parsed; no step of
    that agent checks them. *)
Lemma agent_keeps_year_out_of_range :
  let res := add_document test_agent (test_env OptimizedProps.old_text false)
               incoming (u "in/a.docx") None (Some (u "Петренко")) None
               (Some (u "105/24")) in
  fst (fst res) = true
  /\ List.map (fun r => (World.expertise_date r, World.expertise_year r))
       (rows (w_db (snd res)))
     = [(Some (u "12.03.1999"), Some 1999)]
  /\ forall current_year, ~ (2000 <= 1999 <= current_year + 1).
Proof.
  refine (conj _ (conj _ _)).
  - vm_compute. reflexivity.
  - vm_compute. reflexivity.
  - intros cy. lia.
Qed.

End AddProps.

(** ** Substitution of single characters *)

Module RegexFacts.

(** Every match found from a position starts at or after it. *)
Lemma search_from_start ic r pos rest mt :
  search_from ic r pos rest = Some mt -> (pos <= r_start mt)%nat.
Proof.
  revert pos. induction rest as [|c t IH]; intros pos; simpl.
  - unfold match_here. destruct (m ic r Some _); [|done].
    intros [= <-]. simpl. lia.
  - unfold or_else, match_here. destruct (m ic r Some _).
    + intros [= <-]. simpl. lia.
    + intros H. apply IH in H. lia.
Qed.

Lemma search_from_cons ic r pos c t :
  search_from ic r pos (c :: t)
  = or_else (match_here ic r pos (c :: t)) (fun _ => search_from ic r (S pos) t).
Proof. reflexivity. Qed.

Lemma search_from_nil ic r pos :
  search_from ic r pos [] = match_here ic r pos [].
Proof. reflexivity. Qed.

Lemma finditer_from_step f ic r adv pos rest :
  finditer_from (S f) ic r adv pos rest
  = match search_adv ic r adv pos rest with
    | None => []
    | Some mt =>
        mt :: finditer_from f ic r (r_end mt =? r_start mt)%nat (r_end mt) (r_rest mt)
    end.
Proof. reflexivity. Qed.

Section OneCharacter.
Variables (ic neg : bool) (items : list citem).

Let r := CSet neg items.
Let P := set_match ic neg items.

Lemma match_here_class pos rest :
  match_here ic r pos rest
  = match rest with
    | c :: t => if P c then Some (RMatch pos (pos + 1) t []) else None
    | [] => None
    end.
Proof.
  unfold match_here, r, P. simpl. destruct rest as [|c t]; [done|].
  destruct (set_match ic neg items c); done.
Qed.

Lemma match_here_adv_class adv pos rest :
  match_here_adv ic r adv pos rest = match_here ic r pos rest.
Proof.
  rewrite match_here_class. unfold match_here_adv, r, P. simpl.
  destruct rest as [|c t]; [done|].
  destruct (set_match ic neg items c); [|done]. simpl.
  assert ((pos + 1 =? pos)%nat = false) as -> by (apply Nat.eqb_neq; lia).
  by rewrite andb_false_r.
Qed.

Lemma search_adv_class adv pos rest :
  search_adv ic r adv pos rest = search_from ic r pos rest.
Proof.
  unfold search_adv. destruct rest; simpl; by rewrite match_here_adv_class.
Qed.

(** A character outside the class is passed over. *)
Lemma finditer_skip fuel adv pos c t :
  P c = false ->
  finditer_from fuel ic r adv pos (c :: t) = finditer_from fuel ic r false (S pos) t.
Proof.
  intros Hc. destruct fuel as [|f]; [done|].
  rewrite !finditer_from_step, !search_adv_class, search_from_cons.
  rewrite match_here_class, Hc. done.
Qed.

Lemma replace_spans_skip rep pos c t ms :
  Forall (fun mt => (S pos <= r_start mt)%nat) ms ->
  replace_spans rep pos (c :: t) ms = c :: replace_spans rep (S pos) t ms.
Proof.
  intros H. destruct ms as [|mt ms]; [done|]. simpl.
  apply Forall_cons in H as [Hs _].
  replace (r_start mt - pos)%nat with (S (r_start mt - S pos)) by lia.
  done.
Qed.

Lemma search_from_class pos rest mt :
  search_from ic r pos rest = Some mt ->
  (pos <= r_start mt)%nat /\ r_end mt = (r_start mt + 1)%nat.
Proof.
  revert pos. induction rest as [|c t IH]; intros pos.
  - rewrite search_from_nil, match_here_class. done.
  - rewrite search_from_cons, match_here_class. destruct (P c); simpl.
    + intros [= <-]. simpl. lia.
    + intros H. apply IH in H. lia.
Qed.

Lemma finditer_starts fuel adv pos rest :
  Forall (fun mt => (pos <= r_start mt)%nat) (finditer_from fuel ic r adv pos rest).
Proof.
  revert adv pos rest. induction fuel as [|f IH]; intros adv pos rest;
    [constructor|].
  rewrite finditer_from_step, search_adv_class.
  destruct (search_from ic r pos rest) as [mt|] eqn:E; [|constructor].
  apply search_from_class in E as [Hs He].
  apply Forall_cons. split; [done|].
  eapply Forall_impl; [apply IH|]. simpl. intros mt' H. lia.
Qed.

(** [re.sub] with a class of single characters replaces every character
    of the class and keeps the others. *)
Lemma replace_spans_class rep rest :
  forall fuel adv pos,
    (length rest < fuel)%nat ->
    replace_spans rep pos rest (finditer_from fuel ic r adv pos rest)
    = flat_map (fun c => if P c then rep else [c]) rest.
Proof.
  induction rest as [|c t IH]; intros fuel adv pos Hf.
  - destruct fuel as [|f]; [simpl in Hf; lia|].
    rewrite finditer_from_step, search_adv_class, search_from_nil.
    rewrite match_here_class. done.
  - destruct (P c) eqn:Hc.
    + destruct fuel as [|f]; [simpl in Hf; lia|].
      rewrite finditer_from_step, search_adv_class, search_from_cons.
      rewrite match_here_class, Hc. simpl.
      rewrite Nat.sub_diag. simpl. rewrite Hc. f_equal.
      replace (pos + 1)%nat with (S pos) by lia.
      apply IH. simpl in Hf. lia.
    + rewrite finditer_skip by done.
      rewrite replace_spans_skip by apply finditer_starts.
      simpl. rewrite Hc. simpl. f_equal. apply IH. simpl in Hf. lia.
Qed.

Lemma sub_class rep text :
  sub ic r rep text = flat_map (fun c => if P c then rep else [c]) text.
Proof.
  unfold sub, finditer. apply replace_spans_class. lia.
Qed.

End OneCharacter.

Lemma delete_is_replace pos rest ms :
  delete_spans pos rest ms = replace_spans [] pos rest ms.
Proof.
  revert pos rest. induction ms as [|mt ms IH]; intros pos rest; simpl; [done|].
  by rewrite IH.
Qed.

(** [re.sub] that deletes a class of single characters keeps exactly the
    characters outside the class, in order. *)
Lemma sub_delete_class ic neg items text :
  sub_delete ic (CSet neg items) text
  = List.filter (fun c => negb (set_match ic neg items c)) text.
Proof.
  unfold sub_delete. rewrite delete_is_replace.
  fold (sub ic (CSet neg items) [] text). rewrite sub_class.
  induction text as [|c t IH]; simpl; [done|].
  destruct (set_match ic neg items c); simpl; by rewrite IH.
Qed.

End RegexFacts.

(** ** The minimal agent: what the classifier chooses *)

Module ClassifierExtra.

Import Agent Dict DictFacts.

(** *** Dictionaries: keys and the greatest value *)

Lemma get_in {V} (d : dict V) k v : get d k = Some v -> In (k, v) d.
Proof.
  induction d as [|[k' v'] d IH]; simpl; [done|].
  destruct (str_eqb k k') eqn:E.
  - apply str_eqb_eq in E. intros [= <-]. left. by subst.
  - intros H. right. by apply IH.
Qed.

Lemma keys_mem {V} (d : dict V) k : ~ In k (List.map fst d) -> mem d k = false.
Proof.
  unfold mem. induction d as [|[k' v'] d IH]; simpl; [done|].
  intros H. destruct (str_eqb k k') eqn:E.
  - apply str_eqb_eq in E. subst k'. exfalso. apply H. by left.
  - apply IH. intros Hin. apply H. by right.
Qed.

(** [d[k] = v] for a new key puts the item last. *)
Lemma set_new {V} (d : dict V) k v : mem d k = false -> set d k v = d ++ [(k, v)].
Proof.
  unfold mem. induction d as [|[k' v'] d IH]; simpl; [done|].
  destruct (str_eqb k k'); [done|]. intros H. by rewrite IH.
Qed.

(** [d[k] = v] for a key that is there leaves the keys as they are. *)
Lemma set_keys {V} (d : dict V) k v :
  mem d k = true -> List.map fst (set d k v) = List.map fst d.
Proof.
  unfold mem. induction d as [|[k' v'] d IH]; simpl; [done|].
  destruct (str_eqb k k'); [done|]. intros H. simpl. by rewrite IH.
Qed.

(** [max(d, key=d.get)] cuts the items at the key it returns: the values
    before it are smaller, the values after it are not greater. *)
Lemma max_key_from_split pre best bv mid d :
  (forall k v, In (k, v) pre -> v < bv) ->
  (forall k v, In (k, v) mid -> v <= bv) ->
  exists pre' v post',
    pre ++ (best, bv) :: mid ++ d = pre' ++ (max_key_from best bv d, v) :: post'
    /\ (forall k v', In (k, v') pre' -> v' < v)
    /\ (forall k v', In (k, v') post' -> v' <= v).
Proof.
  revert pre best bv mid. induction d as [|[k v] d IH]; intros pre best bv mid Hpre Hmid.
  - exists pre, bv, mid. rewrite app_nil_r. done.
  - simpl. destruct (bv <? v) eqn:E.
    + apply Z.ltb_lt in E.
      destruct (IH (pre ++ (best, bv) :: mid) k v []) as (pre' & v' & post' & Heq & H1 & H2).
      * intros k0 v0 Hin. apply in_app_or in Hin as [Hin | [[= <- <-] | Hin]].
        -- specialize (Hpre _ _ Hin). lia.
        -- lia.
        -- specialize (Hmid _ _ Hin). lia.
      * intros k0 v0 [].
      * exists pre', v', post'. split; [|done].
        rewrite <- Heq. simpl. by rewrite <- app_assoc.
    + apply Z.ltb_ge in E.
      destruct (IH pre best bv (mid ++ [(k, v)])) as (pre' & v' & post' & Heq & H1 & H2).
      * done.
      * intros k0 v0 Hin. apply in_app_or in Hin as [Hin | [[= <- <-] | []]].
        -- by apply (Hmid k0).
        -- lia.
      * exists pre', v', post'. split; [|done].
        rewrite <- Heq. by rewrite <- app_assoc.
Qed.

Lemma max_key_split d best :
  max_key d = Some best ->
  exists pre v post,
    d = pre ++ (best, v) :: post
    /\ (forall k v', In (k, v') pre -> v' < v)
    /\ (forall k v', In (k, v') post -> v' <= v).
Proof.
  destruct d as [|[k v] d]; simpl; [done|]. intros [= <-].
  destruct (max_key_from_split [] k v [] d) as (pre' & v' & post' & Heq & H1 & H2).
  - intros ? ? [].
  - intros ? ? [].
  - exists pre', v', post'. done.
Qed.

(** *** The scoring loop *)

(** The keyword score of a row of the table. *)
Definition row_score (text_lower : str) (row : str * (list regex * Z)) : Z :=
  keyword_score (fst (snd row)) (snd (snd row)) text_lower 0.

(** The categories that score above zero, in table order, with their
    scores. *)
Definition scored (table : list (str * (list regex * Z))) (text_lower : str)
  : dict Z :=
  List.map (fun row => (fst row, row_score text_lower row))
    (List.filter (fun row => 0 <? row_score text_lower row) table).

Lemma scored_cons t kws w table text_lower :
  scored ((t, (kws, w)) :: table) text_lower
  = if 0 <? keyword_score kws w text_lower 0
    then (t, keyword_score kws w text_lower 0) :: scored table text_lower
    else scored table text_lower.
Proof.
  unfold scored. simpl.
  change (row_score text_lower (t, (kws, w))) with (keyword_score kws w text_lower 0).
  destruct (0 <? keyword_score kws w text_lower 0); reflexivity.
Qed.

Lemma score_types_scored table text_lower acc :
  NoDup (List.map fst acc ++ List.map fst table) ->
  score_types table text_lower acc = acc ++ scored table text_lower.
Proof.
  revert acc. induction table as [|[t [kws w]] table IH]; intros acc Hnd.
  - simpl. unfold scored. simpl. by rewrite app_nil_r.
  - rewrite scored_cons. simpl.
    destruct (0 <? keyword_score kws w text_lower 0) eqn:E.
    + assert (Hnew : mem acc t = false).
      { apply keys_mem. intros Hin. apply list_elem_of_In in Hin.
        apply NoDup_app in Hnd as (_ & Hnd & _).
        apply (Hnd t Hin). simpl. left. }
      rewrite IH.
      * rewrite (set_new _ _ _ Hnew). rewrite <- app_assoc. reflexivity.
      * rewrite (set_new _ _ _ Hnew). rewrite List.map_app. simpl.
        rewrite <- app_assoc. exact Hnd.
    + apply IH. simpl in Hnd.
      apply NoDup_app in Hnd as (H1 & H2 & H3).
      apply NoDup_cons in H3 as [_ H3].
      apply NoDup_app. split; [done|]. split; [|done].
      intros x Hx Hin. apply (H2 x Hx). by right.
Qed.

Lemma table_keys_distinct : NoDup (List.map fst expertise_keywords_weighted).
Proof.
  apply (proj1 (bool_decide_spec _)). vm_compute. reflexivity.
Qed.

Lemma base_scores_scored text :
  base_scores text = scored expertise_keywords_weighted (lower text).
Proof.
  unfold base_scores. rewrite score_types_scored; [done|].
  exact table_keys_distinct.
Qed.

Lemma bump_keys d k n : List.map fst (bump d k n) = List.map fst d.
Proof.
  unfold bump. destruct (get d k) as [v|] eqn:E; [|done].
  apply set_keys. unfold mem. by rewrite E.
Qed.

(** The correction for the two confusable categories changes a score,
    never the categories present or their order. *)
Lemma final_scores_keys text :
  List.map fst (final_scores text) = List.map fst (base_scores text).
Proof.
  unfold final_scores, disambiguate.
  destruct (_ && _); [|done].
  destruct (_ <? _); apply bump_keys.
Qed.

(** A keyword that is found raises the score of its category. *)
Lemma keyword_score_found keywords weight text_lower score :
  0 < weight ->
  (exists keyword, In keyword keywords
                   /\ matched (search false keyword text_lower) = true) ->
  score < keyword_score keywords weight text_lower score.
Proof.
  intros Hw. revert score. induction keywords as [|k ks IH]; intros score; simpl.
  - intros (? & [] & _).
  - intros (kw & Hin & Hm).
    destruct (matched (search false k text_lower)) eqn:E.
    + pose proof (AgentProps.finditer_search _ _ _ E) as Hocc.
      pose proof (AgentProps.keyword_score_mono ks weight text_lower
                    (score + weight
                     + (Z.of_nat (findall_count false k text_lower) - 1) * 2)
                    ltac:(lia)).
      lia.
    + destruct Hin as [<- | Hin]; [congruence|].
      apply IH. eauto.
Qed.

Lemma keyword_score_none keywords weight text_lower score :
  (forall keyword, In keyword keywords ->
                   matched (search false keyword text_lower) = false) ->
  keyword_score keywords weight text_lower score = score.
Proof.
  revert score. induction keywords as [|k ks IH]; intros score H; simpl; [done|].
  rewrite (H k) by (by left). apply IH. intros kw Hin. apply H. by right.
Qed.

Lemma table_weights_positive category keywords weight :
  In (category, (keywords, weight)) expertise_keywords_weighted -> 0 < weight.
Proof.
  intros Hin.
  assert (Hall : forallb (fun row => 0 <? snd (snd row)) expertise_keywords_weighted
                 = true) by (vm_compute; reflexivity).
  rewrite forallb_forall in Hall. specialize (Hall _ Hin). simpl in Hall.
  by apply Z.ltb_lt.
Qed.

Lemma undetermined_no_category :
  ~ In undetermined (List.map fst expertise_keywords_weighted).
Proof.
  assert (H : forallb (fun k => negb (str_eqb undetermined k))
                (List.map fst expertise_keywords_weighted) = true)
    by (vm_compute; reflexivity).
  rewrite forallb_forall in H. intros Hin. specialize (H _ Hin).
  by rewrite str_eqb_refl in H.
Qed.

(** No keyword of the table is found in the text. *)
Definition no_keyword (text_lower : str) : Prop :=
  forall category keywords weight keyword,
    In (category, (keywords, weight)) expertise_keywords_weighted ->
    In keyword keywords ->
    matched (search false keyword text_lower) = false.

Lemma scored_nil table text_lower :
  (forall category keywords weight keyword,
      In (category, (keywords, weight)) table ->
      In keyword keywords ->
      matched (search false keyword text_lower) = false) ->
  scored table text_lower = [].
Proof.
  induction table as [|[t [kws w]] table IH]; intros Hno; [done|].
  rewrite scored_cons, keyword_score_none.
  - simpl. apply IH. intros c ks w' kw Hrow. apply (Hno c ks w' kw). by right.
  - intros kw Hkw. apply (Hno t kws w kw); [by left | done].
Qed.

Lemma scored_empty text_lower :
  scored expertise_keywords_weighted text_lower = [] <-> no_keyword text_lower.
Proof.
  split; [|apply scored_nil].
  unfold scored. intros H category keywords weight keyword Hrow Hkw.
  destruct (matched (search false keyword text_lower)) eqn:E; [|done].
  exfalso.
  assert (Hpos : 0 < row_score text_lower (category, (keywords, weight))).
  { unfold row_score. simpl. apply keyword_score_found; [|eauto].
    by apply (table_weights_positive category keywords). }
  apply map_eq_nil in H.
  assert (Hin : In (category, (keywords, weight))
                  (List.filter (fun row => 0 <? row_score text_lower row)
                     expertise_keywords_weighted)).
  { apply filter_In. split; [done|]. by apply Z.ltb_lt. }
  rewrite H in Hin. destruct Hin.
Qed.

(** X1. The classifier answers "невизначено" exactly when no keyword of
    its table is found in the lowercased text.  Otherwise the categories
    in play are those of the table with a keyword score above zero, in
    table order, and the answer is the first of them whose final score
    is the greatest: every category before it has a smaller score, none
    after it a greater one. *)
Theorem determine_expertise_type_choice (text : str) :
  (determine_expertise_type text = undetermined <-> no_keyword (lower text))
  /\ List.map fst (final_scores text)
     = List.map fst
         (List.filter (fun row => 0 <? row_score (lower text) row)
            expertise_keywords_weighted)
  /\ (determine_expertise_type text <> undetermined ->
      exists pre v post,
        final_scores text = pre ++ (determine_expertise_type text, v) :: post
        /\ (forall k v', In (k, v') pre -> v' < v)
        /\ (forall k v', In (k, v') post -> v' <= v)).
Proof.
  assert (Hkeys : List.map fst (final_scores text)
                  = List.map fst
                      (List.filter (fun row => 0 <? row_score (lower text) row)
                         expertise_keywords_weighted)).
  { rewrite final_scores_keys, base_scores_scored. unfold scored.
    rewrite List.map_map. reflexivity. }
  refine (conj _ (conj Hkeys _)).
  - rewrite <- scored_empty, <- base_scores_scored.
    unfold determine_expertise_type.
    destruct (max_key (final_scores text)) as [best|] eqn:E.
    + destruct (max_key_split _ _ E) as (pre & v & post & Heq & _).
      split.
      * intros ->. exfalso. apply undetermined_no_category.
        assert (Hin : In undetermined (List.map fst (final_scores text))).
        { rewrite Heq, List.map_app. apply in_or_app. right. by left. }
        rewrite Hkeys in Hin. apply in_map_iff in Hin as (row & <- & Hrow).
        apply filter_In in Hrow as [Hrow _]. by apply in_map.
      * intros Hb. exfalso.
        pose proof (final_scores_keys text) as Hk. rewrite Hb, Heq in Hk.
        rewrite List.map_app in Hk. by destruct pre.
    + split; [|done]. intros _.
      destruct (final_scores text) as [|[k v] d] eqn:Ef; [|done].
      pose proof (final_scores_keys text) as Hk. rewrite Ef in Hk.
      symmetry in Hk. by apply map_eq_nil in Hk.
  - unfold determine_expertise_type.
    destruct (max_key (final_scores text)) as [best|] eqn:E; [|done].
    intros _. by apply max_key_split.
Qed.

(** *** The type for a given sector *)

Lemma sector_types_given sector_code expected :
  get sector_type_mapping sector_code = Some expected ->
  truthy_str (Some expected) = true.
Proof.
  intros H. apply get_in in H.
  assert (Hall : forallb (fun kv => truthy_str (Some (snd kv))) sector_type_mapping
                 = true) by (vm_compute; reflexivity).
  rewrite forallb_forall in Hall. exact (Hall _ H).
Qed.

(** X2. For a sector code of the mapping the type is the sector's: as
    it stands when the classifier gives no answer or the same answer,
    with the mark " (авто)" when the classifier's answer is another
    one; the classifier's answer is never returned against the sector.
    For any other sector code the classifier's answer is returned. *)
Theorem type_by_sector_follows_sector (text sector_code : str) :
  let general_type := determine_expertise_type text in
  let result := determine_expertise_type_by_sector text sector_code in
  (forall expected,
      get sector_type_mapping sector_code = Some expected ->
      (general_type = undetermined \/ general_type = expected -> result = expected)
      /\ (general_type <> undetermined -> general_type <> expected ->
          result = expected ++ u " (авто)"))
  /\ (get sector_type_mapping sector_code = None -> result = general_type).
Proof.
  intros general_type result. subst result.
  unfold determine_expertise_type_by_sector. fold general_type.
  unfold mem, get_default. split.
  - intros expected Hget. rewrite Hget.
    rewrite (sector_types_given _ _ Hget). rewrite orb_true_r. cbn [andb].
    destruct (str_eqb general_type undetermined) eqn:Eu; cbn [negb].
    + apply str_eqb_eq in Eu. split; [done|]. intros Hne. done.
    + destruct (str_eqb general_type expected) eqn:Ee; cbn [negb].
      * apply str_eqb_eq in Ee. split; [done|]. intros _ Hne. done.
      * split.
        -- intros [Hg | Hg].
           ++ rewrite Hg, str_eqb_refl in Eu. done.
           ++ rewrite Hg, str_eqb_refl in Ee. done.
        -- done.
  - intros Hnone. rewrite Hnone. rewrite orb_false_r.
    destruct (str_eqb general_type undetermined); done.
Qed.

End ClassifierExtra.

(** ** The minimal agent: folder names and the destination *)

Module PathExtra.

Import World Agent.

(** The characters the three [re.sub] calls replace: < > : the double
    quote, / the backslash, | ? and the star. *)
Definition forbidden : list Z := [60; 62; 58; 34; 47; 92; 124; 63; 42].

Definition is_forbidden (c : Z) : bool := existsb (Z.eqb c) forbidden.

Lemma illegal_forbidden c :
  set_match false false [chr "<"; chr ">"; chr ":"; CChr 34; chr "/"; CChr 92;
                         chr "|"; chr "?"; chr "*"] c
  = is_forbidden c.
Proof.
  unfold set_match, is_forbidden, forbidden, item_match.
  change (chr "<") with (CChr 60). change (chr ">") with (CChr 62).
  change (chr ":") with (CChr 58). change (chr "/") with (CChr 47).
  change (chr "|") with (CChr 124). change (chr "?") with (CChr 63).
  change (chr "*") with (CChr 42).
  cbn [existsb item_match1 andb xorb]. rewrite !orb_false_r. reflexivity.
Qed.

Definition safe_char (c : Z) : Z := if is_forbidden c then 95 else c.

Lemma sanitize_map s : sanitize s = List.map safe_char s.
Proof.
  unfold sanitize, illegal. rewrite RegexFacts.sub_class.
  assert (Hu : u "_" = [95]) by (vm_compute; reflexivity). rewrite Hu.
  induction s as [|c t IH]; [done|].
  cbn [flat_map List.map]. rewrite illegal_forbidden, IH.
  unfold safe_char at 2. destruct (is_forbidden c); reflexivity.
Qed.

Lemma safe_char_allowed c : is_forbidden (safe_char c) = false.
Proof.
  unfold safe_char. destruct (is_forbidden c) eqn:E; [reflexivity | exact E].
Qed.

(** X3. The folder names [get_file_destination_path] makes: every one
    of the nine characters is replaced by an underscore and every other
    character is kept in its place, so the name keeps its length, holds
    none of the nine characters (no path separator among them), and a
    name that is cleaned again does not change. *)
Theorem sanitize_replaces (s : str) :
  sanitize s = List.map (fun c => if is_forbidden c then 95 else c) s
  /\ length (sanitize s) = length s
  /\ (forall c, In c (sanitize s) -> is_forbidden c = false)
  /\ ((forall c, In c s -> is_forbidden c = false) -> sanitize s = s)
  /\ sanitize (sanitize s) = sanitize s.
Proof.
  assert (Hfix : forall t, (forall c, In c t -> is_forbidden c = false) ->
                           List.map safe_char t = t).
  { induction t as [|c t IH]; intros H; simpl; [done|].
    unfold safe_char at 1. rewrite (H c) by (by left).
    rewrite IH; [done|]. intros c' Hc'. apply H. by right. }
  assert (Hall : forall c, In c (List.map safe_char s) -> is_forbidden c = false).
  { intros c Hin. apply in_map_iff in Hin as (c0 & <- & _). apply safe_char_allowed. }
  rewrite !sanitize_map.
  refine (conj eq_refl (conj _ (conj Hall (conj (Hfix s) _)))).
  - apply length_map.
  - apply Hfix. exact Hall.
Qed.

(** *** The destination directory *)

Definition starts_sep (b : str) : bool :=
  match b with
  | c :: _ => c =? sep
  | [] => false
  end.

Lemma join2_prefix a b : starts_sep b = false -> exists rest, join2 a b = a ++ rest.
Proof.
  unfold join2, starts_sep. destruct b as [|c b].
  - intros _. destruct (rev a) as [|l r] eqn:E.
    + exists []. apply (f_equal (@rev Z)) in E. rewrite rev_involutive in E.
      by rewrite E.
    + destruct (l =? sep); [exists []; by rewrite app_nil_r | by eexists].
  - intros ->. destruct (rev a) as [|l r] eqn:E.
    + exists (c :: b). apply (f_equal (@rev Z)) in E. rewrite rev_involutive in E.
      by rewrite E.
    + destruct (l =? sep); by eexists.
Qed.

Lemma join2_nonempty a b : b <> [] -> join2 a b <> [].
Proof.
  unfold join2. destruct b as [|c b]; [done|]. intros _.
  destruct (c =? sep); [done|].
  destruct (rev a) as [|l r] eqn:E; [done|].
  assert (a <> []) by (intros ->; done).
  destruct (l =? sep); by destruct a.
Qed.

Lemma join2_keeps a b : a <> [] -> starts_sep b = false -> join2 a b <> [].
Proof.
  intros Ha Hb. destruct (join2_prefix a b Hb) as [rest ->]. by destruct a.
Qed.

Lemma sanitize_no_sep s : starts_sep (sanitize s) = false.
Proof.
  rewrite sanitize_map. destruct s as [|c t]; [done|]. simpl.
  pose proof (safe_char_allowed c) as H.
  destruct (safe_char c =? sep) eqn:E; [|done].
  apply Z.eqb_eq in E. rewrite E in H. vm_compute in H. discriminate H.
Qed.

Lemma digits_no_sep d : starts_sep (digits_of_uint d) = false.
Proof. by destruct d. Qed.

Lemma str_of_Z_no_sep z : starts_sep (str_of_Z z) = false.
Proof.
  unfold str_of_Z. destruct (z <? 0); [done|]. apply digits_no_sep.
Qed.

Lemma prefixes_whole acc s : In (rev acc ++ s) (prefixes acc s).
Proof.
  revert acc. induction s as [|c t IH]; intros acc; simpl.
  - left. by rewrite app_nil_r.
  - specialize (IH (c :: acc)). simpl in IH. rewrite <- app_assoc in IH.
    destruct (c =? sep); [by right | done].
Qed.

(** A directory that [os.makedirs] made is there. *)
Lemma makedirs_makes e fs p fs' :
  p <> [] -> makedirs e fs p = Some fs' -> is_dir fs' p = true.
Proof.
  intros Hp. unfold makedirs. destruct (_ || _); [done|]. intros [= <-].
  unfold is_dir. simpl. apply bool_decide_eq_true.
  apply elem_of_union_r, elem_of_list_to_set, list_elem_of_In.
  unfold ancestors. apply filter_In. split.
  - apply (prefixes_whole [] p).
  - apply negb_true_iff, DictFacts.str_eqb_neq. done.
Qed.

Lemma or_str_nonempty a b : b <> [] -> or_str a b <> [].
Proof.
  intros Hb. unfold or_str. destruct a as [[|c s]|]; simpl; done.
Qed.

Lemma sanitize_nonempty s : s <> [] -> sanitize s <> [].
Proof.
  rewrite sanitize_map. by destruct s.
Qed.

(** [get_file_destination_path] only makes directories. *)
Lemma destination_files self e fs sector_code expert_name expertise_year
  expertise_number path fs1 :
  get_file_destination_path self e fs sector_code expert_name expertise_year
    expertise_number = Some (path, fs1) ->
  files fs1 = files fs /\ dirs fs ⊆ dirs fs1.
Proof.
  unfold get_file_destination_path.
  destruct (makedirs e fs _) as [fs'|] eqn:Em.
  - intros [= _ <-].
    unfold makedirs in Em. destruct (_ || _); [done|].
    injection Em as <-. simpl. split; [done | apply union_subseteq_l].
  - destruct (makedirs e fs _) as [fs'|] eqn:Em2 in |- *; [|done].
    intros [= _ <-].
    unfold makedirs in Em2. destruct (_ || _); [done|].
    injection Em2 as <-. simpl. split; [done | apply union_subseteq_l].
Qed.

(** X4. The directory [get_file_destination_path] returns lies under
    the archive folder (its path begins with the archive folder's; the
    names appended hold no separator that the caller's sector, expert or
    expertise number could have brought in), it is a directory once the
    call returns, and the call neither writes nor removes a file and
    removes no directory.  This holds for the full path and for the
    shorter path used when the full one cannot be made. *)
Theorem destination_under_archive (self : agent) (e : env) (fs : fsys)
  (sector_code expert_name : str) (expertise_year : option Z)
  (expertise_number : str) (path : path) (fs1 : fsys) :
  get_file_destination_path self e fs sector_code expert_name expertise_year
    expertise_number = Some (path, fs1) ->
  (exists rest, path = archive_folder self ++ rest)
  /\ is_dir fs1 path = true
  /\ files fs1 = files fs
  /\ dirs fs ⊆ dirs fs1.
Proof.
  intros Hdest. generalize Hdest.
  unfold get_file_destination_path.
  set (year_folder := if truthy_int expertise_year then _ else _).
  set (safe_expert := sanitize (or_str (Some expert_name) unknown_expert)).
  set (safe_sector := sanitize (or_str (Some sector_code) default_sector)).
  set (safe_expertise := if truthy_str (Some expertise_number) then _ else _).
  assert (Hsector : starts_sep safe_sector = false) by apply sanitize_no_sep.
  assert (Hexpert : starts_sep safe_expert = false) by apply sanitize_no_sep.
  assert (Hyear : starts_sep year_folder = false).
  { subst year_folder. destruct (truthy_int expertise_year); apply str_of_Z_no_sep. }
  assert (Hexp : starts_sep safe_expertise = false).
  { subst safe_expertise. destruct (truthy_str (Some expertise_number));
      [apply sanitize_no_sep|].
    set (prefix := u "експертиза_"). vm_compute in prefix. reflexivity. }
  assert (Hne : safe_sector <> []).
  { apply sanitize_nonempty, or_str_nonempty. vm_compute. discriminate. }
  assert (H1 : join2 (archive_folder self) safe_sector <> [])
    by (by apply join2_nonempty).
  destruct (join2_prefix (archive_folder self) safe_sector Hsector) as [r1 E1].
  unfold join_path. cbn [fold_left].
  destruct (makedirs e fs _) as [fs'|] eqn:Em.
  - intros [= <- <-].
    destruct (join2_prefix (join2 (archive_folder self) safe_sector) safe_expert
                Hexpert) as [r2 E2].
    destruct (join2_prefix (join2 (join2 (archive_folder self) safe_sector)
                              safe_expert) year_folder Hyear) as [r3 E3].
    destruct (join2_prefix (join2 (join2 (join2 (archive_folder self) safe_sector)
                                     safe_expert) year_folder)
                safe_expertise Hexp) as [r4 E4].
    refine (conj _ (conj _ (destination_files _ _ _ _ _ _ _ _ _ Hdest))).
    + exists (r1 ++ r2 ++ r3 ++ r4). rewrite E4, E3, E2, E1.
      by rewrite <- !app_assoc.
    + apply (makedirs_makes _ _ _ _ (join2_keeps _ _ (join2_keeps _ _
               (join2_keeps _ _ H1 Hexpert) Hyear) Hexp) Em).
  - destruct (makedirs e fs (join2 (archive_folder self) safe_sector)) as [fs'|] eqn:Em2;
      [|done].
    intros [= <- <-].
    refine (conj _ (conj _ (destination_files _ _ _ _ _ _ _ _ _ Hdest))).
    + by exists r1.
    + by apply (makedirs_makes _ _ _ _ H1 Em2).
Qed.

(** *** A destination in an empty archive *)

Definition archive_agent : agent := AgentCfg (u "archive") None false.

Definition quiet_env : env :=
  Env (u "20250801_120000") 2025 false (fun _ => None) (fun _ => None)
      (fun _ => None) (fun _ => false) (fun _ _ => false) (fun b => b)
      (fun _ => false) (fun _ => 0) false false (u "error").

Definition empty_fs : fsys := FS ∅ ∅.

Definition sample_destination : path :=
  Eval vm_compute in
    match get_file_destination_path archive_agent quiet_env empty_fs
            (u "зброя") (u "Іваненко І.І.") (Some 2024) (u "12/34") with
    | Some (destination, _) => destination
    | None => []
    end.

Definition sample_fs : fsys :=
  Eval vm_compute in
    match get_file_destination_path archive_agent quiet_env empty_fs
            (u "зброя") (u "Іваненко І.І.") (Some 2024) (u "12/34") with
    | Some (_, fs1) => fs1
    | None => empty_fs
    end.

Lemma destination_under_archive_witness :
  (exists rest, sample_destination = archive_folder archive_agent ++ rest)
  /\ is_dir sample_fs sample_destination = true
  /\ files sample_fs = files empty_fs
  /\ dirs empty_fs ⊆ dirs sample_fs.
Proof.
  apply (destination_under_archive archive_agent quiet_env empty_fs
           (u "зброя") (u "Іваненко І.І.") (Some 2024) (u "12/34")
           sample_destination sample_fs).
  vm_compute. reflexivity.
Defined.

End PathExtra.

(** ** The minimal agent: what an add does to the table and the files *)

Module AddExtra.

Import World Agent.

(** *** The steps of [add_document] *)

Lemma insert_appends t mk rowid t' :
  insert t mk = Some (rowid, t') ->
  rowid = last_rowid t + 1
  /\ rows t' = rows t ++ [mk rowid]
  /\ last_rowid t' = rowid
  /\ unique_ok t (World.expertise_number (mk rowid)) = true.
Proof.
  unfold insert.
  destruct (unique_ok t (World.expertise_number (mk (last_rowid t + 1)))) eqn:E;
    [|done].
  intros [= <- <-]. done.
Qed.

(** A copy writes one path, which is not the source. *)
Lemma copy2_effect e fs src dst fs' :
  copy2 e fs src dst = Some fs' ->
  exists target b,
    files fs !! src = Some b
    /\ target <> src
    /\ files fs' = <[target := b]> (files fs)
    /\ dirs fs' = dirs fs.
Proof.
  unfold copy2. destruct (files fs !! src) as [b|]; [|done].
  set (target := if is_dir fs dst then join2 dst (basename src) else dst).
  destruct (copy_fails e src dst); [done|]. cbn [orb].
  destruct (str_eqb src target) eqn:E; [done|]. cbn [orb].
  destruct (_ || _); [done|]. intros [= <-].
  exists target, b. refine (conj eq_refl (conj _ (conj eq_refl eq_refl))).
  intros ->. by rewrite DictFacts.str_eqb_refl in E.
Qed.

(** The file system after the INSERT: the temporary .docx, if one was
    made, is removed. *)
Definition stored_fs (fs : fsys) (file_path original_path : path) : fsys :=
  if negb (str_eqb file_path original_path) && path_exists fs file_path
  then remove_file fs file_path
  else fs.

Lemma store_success e w d file_path original_path stored_path dest_path :
  fst (fst (store e w d file_path original_path stored_path dest_path)) = true ->
  exists rowid db1,
    insert (w_db w) (row_of d stored_path) = Some (rowid, db1)
    /\ snd (store e w d file_path original_path stored_path dest_path)
       = World_ (stored_fs (w_fs w) file_path original_path) db1.
Proof.
  unfold store. destruct (insert_fails e); [done|].
  destruct (insert (w_db w) (row_of d stored_path)) as [[rowid db1]|]; [|done].
  destruct dest_path; [|done]. intros _. by exists rowid, db1.
Qed.

Lemma store_failure e w d file_path original_path stored_path dp :
  fst (fst (store e w d file_path original_path stored_path (Some dp))) = false ->
  snd (store e w d file_path original_path stored_path (Some dp)) = w.
Proof.
  unfold store. destruct (insert_fails e); [done|].
  destruct (insert (w_db w) (row_of d stored_path)) as [[rowid db1]|]; done.
Qed.

(** A success went through the uniqueness check, the copy and the
    INSERT, in copy mode. *)
Lemma check_and_place_success self e w d file_path original_path :
  let res := check_and_place self e w d file_path original_path in
  fst (fst res) = true ->
  AddProps.copy_mode self
  /\ select_one World.expertise_number (d_expertise_number d) (w_db w) = None
  /\ exists dest_path fs1 fs2 rowid db1,
       get_file_destination_path self e (w_fs w) (d_sector d) (d_expert_name d)
         (d_expertise_year d) (d_expertise_number d) = Some (dest_path, fs1)
       /\ copy2 e fs1 original_path (join2 dest_path (basename original_path))
          = Some fs2
       /\ insert (w_db w) (row_of d (join2 dest_path (basename original_path)))
          = Some (rowid, db1)
       /\ snd res = World_ (stored_fs fs2 file_path original_path) db1.
Proof.
  unfold check_and_place, AddProps.copy_mode.
  destruct (select_fails e); [done|].
  destruct (select_one _ _ _) eqn:Esel; [done|].
  unfold place_and_store.
  destruct (index_only_mode self && truthy_str (existing_archive_path self)).
  - destruct (negb _); [done|]. unfold store.
    destruct (insert_fails e); [done|]. by destruct (insert _ _) as [[? ?]|].
  - destruct (get_file_destination_path _ _ _ _ _ _ _) as [[dest_path fs1]|];
      [|done].
    destruct (copy2 e fs1 original_path _) as [fs2|] eqn:Ecopy; [|done].
    intros Hok.
    destruct (store_success _ _ _ _ _ _ _ Hok) as (rowid & db1 & Hins & Hres).
    refine (conj eq_refl (conj eq_refl _)).
    exists dest_path, fs1, fs2, rowid, db1. done.
Qed.

Lemma check_and_place_failure self e w d file_path original_path :
  AddProps.copy_mode self ->
  let res := check_and_place self e w d file_path original_path in
  fst (fst res) = false -> w_db (snd res) = w_db w.
Proof.
  unfold AddProps.copy_mode, check_and_place. intros Hmode.
  destruct (select_fails e); [done|].
  destruct (select_one _ _ _); [done|].
  unfold place_and_store. rewrite Hmode.
  destruct (get_file_destination_path _ _ _ _ _ _ _) as [[dest_path fs1]|];
    [|done].
  destruct (copy2 e fs1 original_path _) as [fs2|]; [|done].
  intros Hf. by rewrite (store_failure _ _ _ _ _ _ _ Hf).
Qed.

(** Reading a file that is not a .doc leaves the file system alone. *)
Lemma get_file_content_plain e fs file_path :
  str_eqb (file_ext_of file_path) (u ".doc") = false ->
  snd (get_file_content e fs file_path) = fs.
Proof.
  intros Hext. unfold get_file_content. rewrite Hext.
  destruct (str_eqb _ (u ".docx")); [done|].
  destruct (str_eqb _ (u ".pdf")); done.
Qed.

(** A call of [parse_and_add] fails before the uniqueness check, or
    gets there with the record built from the text of the file. *)
Lemma parse_and_add_record self e w file_path original_path file_ext
  sector_code expert_name year number :
  let res := parse_and_add self e w file_path original_path file_ext
               sector_code expert_name year number in
  let w1 := World_ (snd (get_file_content e (w_fs w) file_path)) (w_db w) in
  (fst (fst res) = false /\ (snd res = w \/ snd res = w1))
  \/ exists text,
       res = check_and_place self e w1
               (with_auto_number e
                  (make_data
                     (parse_expertise_document text (basename original_path)
                        sector_code)
                     sector_code expert_name year number))
               file_path original_path.
Proof.
  unfold parse_and_add.
  destruct (negb (supported file_ext)); [left; split; [done | by left]|].
  destruct (get_file_content e (w_fs w) file_path) as [text fs1]. cbn [snd].
  destruct (negb (truthy_str text)); [left; split; [done | by right]|].
  destruct (_ && negb (truthy_str expert_name));
    [left; split; [done | by right]|].
  destruct (negb (truthy_str (Some (d_sector _))));
    [left; split; [done | by right]|].
  right. by exists (default [] text).
Qed.

(** The same for [add_document]: [w1] is the world at the uniqueness
    check and [fp] the file that was read (the source, or the .docx made
    from a .doc). *)
Lemma add_document_record self e w file_path sector_code expert_name year number :
  let res := add_document self e w file_path sector_code expert_name year number in
  (fst (fst res) = false
   /\ w_db (snd res) = w_db w
   /\ (str_eqb (file_ext_of file_path) (u ".doc") = false -> snd res = w))
  \/ exists w1 text fp,
       w_db w1 = w_db w
       /\ (str_eqb (file_ext_of file_path) (u ".doc") = false ->
           w1 = w /\ fp = file_path)
       /\ res = check_and_place self e w1
                  (AddProps.record_of e file_path text sector_code expert_name
                     year number)
                  fp file_path.
Proof.
  unfold add_document.
  destruct (negb (path_exists (w_fs w) file_path)); [left; done|].
  cbv zeta.
  destruct (str_eqb (file_ext_of file_path) (u ".doc")) eqn:Edoc.
  - destruct (negb (WIN32_AVAILABLE e)); [left; done|].
    destruct (convert_doc_to_docx e (w_fs w) file_path) as [[docx_path|] fs1];
      [|left; done].
    destruct (truthy_str (Some docx_path)); [|left; done].
    destruct (parse_and_add_record self e (World_ fs1 (w_db w)) docx_path file_path
                (u ".docx") sector_code expert_name year number)
      as [(Hf & [Hw | Hw]) | (text & Hres)].
    + left. rewrite Hw. done.
    + left. rewrite Hw. done.
    + right. eexists _, text, docx_path. split; [|split; [done | exact Hres]].
      reflexivity.
  - destruct (parse_and_add_record self e w file_path file_path
                (file_ext_of file_path) sector_code expert_name year number)
      as [(Hf & Hw) | (text & Hres)].
    + left. rewrite (get_file_content_plain _ _ _ Edoc) in Hw.
      assert (Hsame : snd (parse_and_add self e w file_path file_path
                             (file_ext_of file_path) sector_code expert_name
                             year number) = w).
      { destruct Hw as [Hw | Hw]; rewrite Hw; [done | by destruct w]. }
      rewrite Hsame. done.
    + right. exists w, text, file_path.
      rewrite (get_file_content_plain _ _ _ Edoc) in Hres.
      split; [done|]. split; [done|].
      rewrite Hres. by destruct w.
Qed.

Lemma record_number_nonempty e file_path text sector_code expert_name year number :
  d_expertise_number
    (AddProps.record_of e file_path text sector_code expert_name year number)
  <> [].
Proof.
  unfold AddProps.record_of, with_auto_number.
  set (d := make_data _ _ _ _ _).
  destruct (negb (truthy_str (Some (d_expertise_number d)))) eqn:E.
  - cbn [d_expertise_number]. set (p := u "AUTO_"). vm_compute in p. done.
  - by destruct (d_expertise_number d).
Qed.

Lemma record_source_file e file_path text sector_code expert_name year number :
  d_source_file
    (AddProps.record_of e file_path text sector_code expert_name year number)
  = basename file_path.
Proof.
  unfold AddProps.record_of, with_auto_number.
  assert (Hm : forall p, d_source_file (make_data p sector_code expert_name year
                                          number) = Agent.source_file p)
    by reflexivity.
  assert (Hp : Agent.source_file
                 (parse_expertise_document text (basename file_path) sector_code)
               = basename file_path).
  { unfold parse_expertise_document.
    destruct (parse_date date_patterns text). reflexivity. }
  destruct (negb _); cbn [d_source_file]; by rewrite Hm, Hp.
Qed.

(** X5. The table under [add_document].  A call that reports success
    has appended exactly one row: it carries the next rowid, the name of
    the source file, and a non-empty expertise number that no row held
    before, the caller's number when one was given; and the agent was in
    copy mode.  In copy mode a call that reports failure leaves the
    table as it was. *)
Theorem add_document_table_change (self : agent) (e : env) (w : world)
  (file_path : path) (sector_code expert_name : option str) (year : option Z)
  (number : option str) :
  let res := add_document self e w file_path sector_code expert_name year number in
  (fst (fst res) = true ->
   AddProps.copy_mode self
   /\ exists r n,
        rows (w_db (snd res)) = rows (w_db w) ++ [r]
        /\ World.id r = last_rowid (w_db w) + 1
        /\ last_rowid (w_db (snd res)) = last_rowid (w_db w) + 1
        /\ World.source_file r = Some (basename file_path)
        /\ World.expertise_number r = Some n
        /\ n <> []
        /\ rows_with_number (w_db w) n = []
        /\ (truthy_str number = true -> number = Some n))
  /\ (AddProps.copy_mode self -> fst (fst res) = false ->
      w_db (snd res) = w_db w).
Proof.
  intros res. subst res.
  destruct (add_document_record self e w file_path sector_code expert_name year
              number) as [(Hf & Hdb & _) | (w1 & text & fp & Hdb & _ & Hres)].
  - split; [intros Ht; rewrite Hf in Ht; done | done].
  - rewrite Hres. set (d := AddProps.record_of _ _ _ _ _ _ _) in *. split.
    + intros Hok.
      destruct (check_and_place_success self e w1 d fp file_path Hok)
        as (Hmode & Hsel & dest & fs1 & fs2 & rowid & db1 & _ & _ & Hins & Hw).
      split; [exact Hmode|].
      destruct (insert_appends _ _ _ _ Hins) as (Hid & Hrows & Hlast & _).
      exists (row_of d (join2 dest (basename file_path)) rowid), (d_expertise_number d).
      rewrite Hw. cbn [w_db]. rewrite Hrows, Hlast, Hid, Hdb.
      cbn [row_of World.id World.source_file World.expertise_number].
      refine (conj eq_refl (conj eq_refl (conj eq_refl (conj _
                (conj eq_refl (conj _ (conj _ _))))))).
      * f_equal. apply record_source_file.
      * apply record_number_nonempty.
      * rewrite <- Hdb. by apply AddProps.select_none_rows.
      * intros Ht. destruct number as [n|]; [|done].
        f_equal. symmetry.
        apply (AddProps.number_of_given e file_path text sector_code expert_name
                 year n).
        by destruct n.
    + intros Hmode Hf. rewrite <- Hdb. by apply check_and_place_failure.
Qed.

(** *** Index-only mode *)

(** The agent was set up to index an existing archive in place. *)
Definition index_only (self : agent) : Prop :=
  index_only_mode self && truthy_str (existing_archive_path self) = true.

(** X6. In index-only mode [add_document] never reports success.  For a
    readable file of the archive whose number is free, with a database
    that answers, the INSERT is made and committed, and the call then
    reports the storage failure: the success message reads [dest_path],
    which is assigned only in copy mode. *)
Theorem index_only_add_reports_failure (self : agent) (e : env) (w : world)
  (file_path : path) (sector_code expert_name : option str) (year : option Z)
  (number : option str) :
  index_only self ->
  let res := add_document self e w file_path sector_code expert_name year number in
  fst (fst res) = false
  /\ forall b text,
       AddProps.readable e (w_fs w) file_path b text ->
       truthy_str expert_name = true ->
       select_fails e = false ->
       insert_fails e = false ->
       startswith file_path (default [] (existing_archive_path self)) = true ->
       let d := AddProps.record_of e file_path text sector_code expert_name year
                  number in
       select_one World.expertise_number (d_expertise_number d) (w_db w) = None ->
       res = ((false, msg_save_error (exc_text e)),
              World_ (w_fs w)
                (Table (rows (w_db w)
                        ++ [row_of d file_path (last_rowid (w_db w) + 1)])
                   (last_rowid (w_db w) + 1))).
Proof.
  intros Hmode res. split.
  - destruct (fst (fst res)) eqn:E; [|done]. exfalso.
    subst res.
    destruct (add_document_record self e w file_path sector_code expert_name year
                number) as [(Hf & _) | (w1 & text & fp & _ & _ & Hres)].
    + congruence.
    + rewrite Hres in E.
      destruct (check_and_place_success self e w1 _ fp file_path E) as (Hc & _).
      unfold AddProps.copy_mode in Hc. unfold index_only in Hmode. congruence.
  - intros b text Hr Hen Hsel Hins Hin d Hfree. subst res.
    rewrite (AddProps.add_document_readable self e w file_path b text sector_code
               expert_name year number Hr Hen).
    fold d. unfold check_and_place. rewrite Hsel, Hfree.
    unfold place_and_store. unfold index_only in Hmode. rewrite Hmode, Hin.
    cbn [negb]. unfold store. rewrite Hins.
    assert (Hu : unique_ok (w_db w)
                   (World.expertise_number
                      (row_of d file_path (last_rowid (w_db w) + 1))) = true).
    { cbn [row_of World.expertise_number]. unfold unique_ok.
      apply negb_true_iff.
      unfold select_one in Hfree.
      induction (rows (w_db w)) as [|r rs IH]; [done|].
      simpl in *.
      destruct (bool_decide (World.expertise_number r = Some (d_expertise_number d)));
        [done | by apply IH]. }
    unfold insert. rewrite Hu. rewrite DictFacts.str_eqb_refl. reflexivity.
Qed.

(** *** The files under [add_document] *)

(** What a call may do to the files when its source is [src]: it makes
    directories and writes at most one path, which is not [src]; no file
    is removed. *)
Definition files_frame (fs fs' : fsys) (src : path) : Prop :=
  dirs fs ⊆ dirs fs'
  /\ (forall p, is_Some (files fs !! p) -> is_Some (files fs' !! p))
  /\ exists target,
       target <> src /\ forall p, p <> target -> files fs' !! p = files fs !! p.

Lemma files_frame_refl fs src : files_frame fs fs src.
Proof.
  split; [done|]. split; [done|].
  exists (src ++ [0]). split; [|done].
  intros H. apply (f_equal (@length Z)) in H. rewrite length_app in H.
  simpl in H. lia.
Qed.

Lemma files_frame_dirs fs fs' src :
  files fs' = files fs -> dirs fs ⊆ dirs fs' -> files_frame fs fs' src.
Proof.
  intros Hf Hd. destruct (files_frame_refl fs src) as (_ & _ & target & Ht & _).
  split; [done|]. split; [by rewrite Hf|].
  exists target. split; [done|]. intros p _. by rewrite Hf.
Qed.

Lemma check_and_place_frame self e w d original_path :
  files_frame (w_fs w)
    (w_fs (snd (check_and_place self e w d original_path original_path)))
    original_path.
Proof.
  unfold check_and_place.
  destruct (select_fails e); [apply files_frame_refl|].
  destruct (select_one _ _ _); [apply files_frame_refl|].
  unfold place_and_store.
  assert (Hstore : forall w0 stored dest,
             w_fs (snd (store e w0 d original_path original_path stored dest))
             = w_fs w0).
  { intros w0 stored dest. unfold store.
    destruct (insert_fails e); [done|].
    destruct (insert _ _) as [[rowid db1]|]; [|done].
    rewrite DictFacts.str_eqb_refl. by destruct dest. }
  destruct (index_only_mode self && truthy_str (existing_archive_path self)).
  - destruct (negb _); [apply files_frame_refl|].
    rewrite Hstore. apply files_frame_refl.
  - destruct (get_file_destination_path _ _ _ _ _ _ _) as [[dest_path fs1]|] eqn:Ed;
      [|apply files_frame_refl].
    apply PathExtra.destination_files in Ed as [Hf Hd].
    destruct (copy2 e fs1 original_path _) as [fs2|] eqn:Ecopy.
    + rewrite Hstore. cbn [w_fs].
      apply copy2_effect in Ecopy as (target & b & Hsrc & Hne & Hnew & Hdirs).
      split; [by rewrite Hdirs|]. split.
      * intros p Hp. rewrite Hnew, Hf.
        destruct (decide (p = target)) as [-> | Hp'].
        -- rewrite lookup_insert_eq. eauto.
        -- by rewrite lookup_insert_ne.
      * exists target. split; [done|]. intros p Hp.
        rewrite Hnew, Hf. by rewrite lookup_insert_ne.
    + cbn [snd w_fs]. by apply files_frame_dirs.
Qed.

(** X7. A call of [add_document] on a file that is not a .doc keeps the
    source file as it is, in every outcome: it only makes directories
    and writes at most one path, which is not the source; no file and no
    directory is removed. *)
Theorem add_document_keeps_source (self : agent) (e : env) (w : world)
  (file_path : path) (sector_code expert_name : option str) (year : option Z)
  (number : option str) :
  file_ext_of file_path <> u ".doc" ->
  let res := add_document self e w file_path sector_code expert_name year number in
  files (w_fs (snd res)) !! file_path = files (w_fs w) !! file_path
  /\ dirs (w_fs w) ⊆ dirs (w_fs (snd res))
  /\ (forall p, is_Some (files (w_fs w) !! p) ->
                is_Some (files (w_fs (snd res)) !! p))
  /\ exists target,
       target <> file_path
       /\ forall p, p <> target ->
                    files (w_fs (snd res)) !! p = files (w_fs w) !! p.
Proof.
  intros Hext res.
  assert (Hdoc : str_eqb (file_ext_of file_path) (u ".doc") = false)
    by (by apply DictFacts.str_eqb_neq).
  assert (Hframe : files_frame (w_fs w) (w_fs (snd res)) file_path).
  { subst res.
    destruct (add_document_record self e w file_path sector_code expert_name year
                number) as [(_ & _ & Hw) | (w1 & text & fp & _ & Hw & Hres)].
    - rewrite (Hw Hdoc). apply files_frame_refl.
    - destruct (Hw Hdoc) as [-> ->]. rewrite Hres. apply check_and_place_frame. }
  destruct Hframe as (Hd & Hkeep & target & Hne & Hsame).
  refine (conj _ (conj Hd (conj Hkeep _))).
  - apply Hsame. congruence.
  - exists target. done.
Qed.

(** *** A small archive to run the operation on *)

Definition copying_agent : agent := AgentCfg (u "archive") None false.
Definition indexing_agent : agent := AgentCfg (u "archive") (Some (u "old")) true.

Definition report_env : env :=
  Env (u "20250801_120000") 2025 false (fun _ => None)
      (fun _ => Some (u "Висновок експерта щодо підпису")) (fun _ => None)
      (fun _ => false) (fun _ _ => false) (fun b => b)
      (fun _ => false) (fun _ => 0) false false (u "dest_path").

Definition old_archive : world :=
  World_ (FS {[ u "old/a.docx" := [1] ]} ∅) (Table [] 0).

Lemma index_only_add_reports_failure_witness :
  let res := add_document indexing_agent report_env old_archive (u "old/a.docx")
               None (Some (u "Петренко")) None (Some (u "105/24")) in
  fst (fst res) = false
  /\ List.map World.expertise_number (rows (w_db (snd res))) = [Some (u "105/24")].
Proof.
  intros res.
  destruct (index_only_add_reports_failure indexing_agent report_env old_archive
              (u "old/a.docx") None (Some (u "Петренко")) None (Some (u "105/24")))
    as [Hf Hrow].
  - reflexivity.
  - split; [exact Hf|].
    fold res in Hrow.
    rewrite (Hrow [1] (u "Висновок експерта щодо підпису")).
    + vm_compute. reflexivity.
    + refine (conj _ (conj _ (or_introl (conj _ _)))).
      * vm_compute. reflexivity.
      * vm_compute. discriminate.
      * vm_compute. reflexivity.
      * reflexivity.
    + reflexivity.
    + reflexivity.
    + reflexivity.
    + vm_compute. reflexivity.
    + vm_compute. reflexivity.
Defined.

Lemma add_document_keeps_source_witness :
  files (w_fs (snd (add_document copying_agent report_env old_archive
                      (u "old/a.docx") None (Some (u "Петренко")) None
                      (Some (u "105/24")))))
    !! u "old/a.docx"
  = Some [1].
Proof.
  refine (eq_trans
            (proj1 (add_document_keeps_source copying_agent report_env old_archive
                      (u "old/a.docx") None (Some (u "Петренко")) None
                      (Some (u "105/24")) _)) _).
  - vm_compute. discriminate.
  - vm_compute. reflexivity.
Defined.

End AddExtra.

(** ** The minimal agent: the files of an expert's folder *)

Module FolderExtra.

Import World Agent.

(** A call that is given a number the table holds fails and leaves the
    table as it was. *)
Lemma add_given_number_present self e w file_path sector_code expert_name year
  (n : str) :
  n <> [] ->
  rows_with_number (w_db w) n <> [] ->
  let res := add_document self e w file_path sector_code expert_name year (Some n) in
  fst (fst res) = false /\ w_db (snd res) = w_db w.
Proof.
  intros Hn Hpresent res. subst res.
  assert (Ht : truthy_str (Some n) = true) by (by destruct n).
  destruct (AddProps.add_document_stages self e w file_path sector_code expert_name
              year (Some n))
    as [(H1 & _ & H3) | (w1 & d & fp & op & Hdb & Hd & Hres)]; [done|].
  specialize (Hd Ht). change (d_expertise_number d = n) in Hd.
  assert (Hp : rows_with_number (w_db w1) (d_expertise_number d) <> [])
    by (rewrite Hdb, Hd; exact Hpresent).
  destruct (AddProps.check_and_place_present self e w1 d fp op Hp)
    as (Hw & Hok & Hfail).
  rewrite Hres. rewrite Hw, Hdb. split; [|done].
  destruct (select_fails e); [by rewrite (Hfail eq_refl) | by rewrite (Hok eq_refl)].
Qed.

Lemma rows_with_number_grows t t' n :
  AddProps.table_step t t' -> rows_with_number t n <> [] -> rows_with_number t' n <> [].
Proof.
  intros [-> | (mk & rowid & Hins)]; [done|].
  apply AddExtra.insert_appends in Hins as (_ & Hrows & _).
  unfold rows_with_number. rewrite Hrows, List.filter_app.
  intros Hne H. apply app_eq_nil in H as [H _]. done.
Qed.

(** A call that is given a number and succeeds leaves a row with it. *)
Lemma add_given_number_success self e w file_path sector_code expert_name year
  (n : str) :
  n <> [] ->
  let res := add_document self e w file_path sector_code expert_name year (Some n) in
  fst (fst res) = true -> rows_with_number (w_db (snd res)) n <> [].
Proof.
  intros Hn res. subst res.
  assert (Ht : truthy_str (Some n) = true) by (by destruct n).
  destruct (AddProps.add_document_stages self e w file_path sector_code expert_name
              year (Some n))
    as [(H1 & _) | (w1 & d & fp & op & Hdb & Hd & Hres)]; [congruence|].
  specialize (Hd Ht). change (d_expertise_number d = n) in Hd.
  rewrite Hres. intros Hok.
  destruct (AddExtra.check_and_place_success self e w1 d fp op Hok)
    as (_ & _ & dest & fs1 & fs2 & rowid & db1 & _ & _ & Hins & Hw).
  rewrite Hw. cbn [w_db].
  apply AddExtra.insert_appends in Hins as (_ & Hrows & _).
  unfold rows_with_number. rewrite Hrows, List.filter_app.
  cbn [List.filter row_of World.expertise_number]. rewrite Hd.
  rewrite bool_decide_true by done.
  intros H. apply app_eq_nil in H as [_ H]. done.
Qed.

(** The files of the list that were added under the number [n]. *)
Definition successes (n : str) (found_files : list file_info)
  (results : list (str * bool * str)) : nat :=
  length
    (List.filter
       (fun p => snd (fst (snd p)) && str_eqb (fi_expertise_number (fst p)) n)
       (combine found_files results)).

Lemma process_from_once self env_of sector_code (n : str) :
  n <> [] ->
  forall found_files i w,
    let out := process_from self env_of i w found_files sector_code in
    List.map (fun r => fst (fst r)) (fst out) = List.map fi_file_name found_files
    /\ (successes n found_files (fst out) <= 1)%nat
    /\ (rows_with_number (w_db w) n <> [] ->
        successes n found_files (fst out) = 0%nat)
    /\ (AddProps.number_unique (w_db w) -> AddProps.number_unique (w_db (snd out))).
Proof.
  intros Hn. induction found_files as [|info rest IH]; intros i w.
  - simpl. unfold successes. simpl. repeat split; try done; lia.
  - cbn [process_from].
    pose proof (AddProps.add_document_step self (env_of i) w (fi_file_path info)
                  sector_code (Some (fi_expert_name info)) (Some (fi_year info))
                  (Some (fi_expertise_number info))) as Hstep.
    pose proof (add_given_number_present self (env_of i) w (fi_file_path info)
                  sector_code (Some (fi_expert_name info)) (Some (fi_year info))
                  n Hn) as Hpres.
    pose proof (add_given_number_success self (env_of i) w (fi_file_path info)
                  sector_code (Some (fi_expert_name info)) (Some (fi_year info))
                  n Hn) as Hsucc.
    cbv zeta in Hpres, Hsucc.
    destruct (add_document self (env_of i) w (fi_file_path info) sector_code
                (Some (fi_expert_name info)) (Some (fi_year info))
                (Some (fi_expertise_number info)))
      as [[success message] w1] eqn:Eadd.
    cbn [fst snd] in Hstep.
    specialize (IH (S i) w1). cbv zeta in IH.
    destruct (process_from self env_of (S i) w1 rest sector_code)
      as [results w2] eqn:Erest.
    cbn [fst snd] in IH |- *.
    destruct IH as (Hnames & Hone & Hnone & Huniq).
    assert (Hcount : successes n (info :: rest)
                       ((fi_file_name info, success, message) :: results)
                     = ((if success && str_eqb (fi_expertise_number info) n
                         then 1 else 0) + successes n rest results)%nat).
    { unfold successes. cbn [combine List.filter fst snd].
      destruct (success && str_eqb (fi_expertise_number info) n); reflexivity. }
    rewrite Hcount.
    refine (conj _ (conj _ (conj _ _))).
    + cbn [List.map fst]. by rewrite Hnames.
    + destruct (success && str_eqb (fi_expertise_number info) n) eqn:E; [|lia].
      apply andb_true_iff in E as [-> E]. apply DictFacts.str_eqb_eq in E.
      rewrite E in Eadd. rewrite Eadd in Hsucc. cbn [fst snd] in Hsucc.
      rewrite (Hnone (Hsucc eq_refl)). lia.
    + intros Hp.
      destruct (success && str_eqb (fi_expertise_number info) n) eqn:E.
      * apply andb_true_iff in E as [-> E]. apply DictFacts.str_eqb_eq in E.
        rewrite E in Eadd. rewrite Eadd in Hpres. cbn [fst snd] in Hpres.
        destruct (Hpres Hp) as [Hf _]. done.
      * rewrite Hnone; [lia|]. by apply (rows_with_number_grows (w_db w)).
    + intros Hu. apply Huniq. by apply (AddProps.table_step_unique (w_db w)).
Qed.

(** X8. [process_expert_files] gives one result per file, in order, and
    under one expertise number (the name of an expertise folder, never
    empty) it adds at most one file: the files of a folder that come
    after the first one added are turned down, and none is added when
    the table held the number before.  The table keeps its expertise
    numbers unique. *)
Theorem one_document_per_expertise_number (self : agent) (env_of : nat -> env)
  (w : world) (found_files : list file_info) (sector_code : option str)
  (n : str) :
  n <> [] ->
  let out := process_expert_files self env_of w found_files sector_code in
  List.map (fun r => fst (fst r)) (fst out) = List.map fi_file_name found_files
  /\ (successes n found_files (fst out) <= 1)%nat
  /\ (rows_with_number (w_db w) n <> [] ->
      successes n found_files (fst out) = 0%nat)
  /\ (AddProps.number_unique (w_db w) -> AddProps.number_unique (w_db (snd out))).
Proof.
  intros Hn. apply (process_from_once self env_of sector_code n Hn).
Qed.

(** *** A folder with two documents of one expertise *)

Definition folder_world : world :=
  World_ (FS {[ u "in/105/a.docx" := [1]; u "in/105/b.docx" := [2] ]} ∅)
         (Table [] 0).

Definition folder_files : list file_info :=
  [ FileInfo (u "in/105/a.docx") (u "Петренко") 2024 (u "105") (u "a.docx");
    FileInfo (u "in/105/b.docx") (u "Петренко") 2024 (u "105") (u "b.docx") ].

Lemma one_document_per_expertise_number_witness :
  let out := process_expert_files AddExtra.copying_agent
               (fun _ => AddExtra.report_env) folder_world folder_files None in
  List.map (fun r => snd (fst r)) (fst out) = [true; false]
  /\ (successes (u "105") folder_files (fst out) <= 1)%nat.
Proof.
  intros out. split; [vm_compute; reflexivity|].
  refine (proj1 (proj2 (one_document_per_expertise_number AddExtra.copying_agent
                          (fun _ => AddExtra.report_env) folder_world
                          folder_files None (u "105") _))).
  vm_compute. discriminate.
Defined.

End FolderExtra.

(** ** The minimal agent: deleting a document *)

Module DeleteExtra.

Import World Agent.

(** The clean-up on disk removes at most the stored file and its
    directory; it writes nothing. *)
Lemma remove_stored_file_shrinks f fs file_path :
  let fs' := remove_stored_file f fs file_path in
  (forall q b, files fs' !! q = Some b -> files fs !! q = Some b)
  /\ (forall q, q <> file_path -> files fs' !! q = files fs !! q)
  /\ dirs fs' ⊆ dirs fs.
Proof.
  assert (Hrem : forall q b, files (remove_file fs file_path) !! q = Some b ->
                             files fs !! q = Some b).
  { intros q b. simpl. intros H. apply lookup_delete_Some in H as [_ H]. done. }
  assert (Hother : forall q, q <> file_path ->
                             files (remove_file fs file_path) !! q = files fs !! q).
  { intros q Hq. simpl. by rewrite lookup_delete_ne. }
  unfold remove_stored_file.
  destruct (path_exists fs file_path); [|done].
  destruct (remove_fails f || negb (is_file fs file_path)); [done|].
  cbv zeta.
  destruct (path_exists (remove_file fs file_path) (dirname file_path)); [|done].
  destruct (negb (is_dir (remove_file fs file_path) (dirname file_path))); [done|].
  destruct (dir_empty (remove_file fs file_path) (dirname file_path)); [|done].
  destruct (rmdir_fails f); [done|].
  refine (conj Hrem (conj Hother _)). simpl. apply subseteq_difference_l. done.
Qed.

Lemma filter_filter_length {A} (f g : A -> bool) (l : list A) :
  (length (List.filter f (List.filter g l)) <= length (List.filter f l))%nat.
Proof.
  induction l as [|a l IH]; simpl; [lia|].
  destruct (g a); simpl; destruct (f a); simpl; lia.
Qed.

(** X9. [delete_document].  A call that reports success has removed
    from the table exactly the rows with the given id, which was there;
    a call that reports failure leaves the table as it was, and an id
    that is not in the table gives the "not found" failure and changes
    nothing.  In every outcome the expertise numbers stay unique, no
    file is written and no file other than the stored one is removed. *)
Theorem delete_document_effect (e : env) (f : delete_faults) (w : world)
  (expertise_id : Z) :
  let res := delete_document e f w expertise_id in
  (fst (fst res) = true ->
   (exists r, In r (rows (w_db w)) /\ World.id r = expertise_id
              /\ forall q, Some q <> World.file_path r ->
                           files (w_fs (snd res)) !! q = files (w_fs w) !! q)
   /\ rows (w_db (snd res))
      = List.filter (fun r => negb (World.id r =? expertise_id)) (rows (w_db w))
   /\ last_rowid (w_db (snd res)) = last_rowid (w_db w)
   /\ forall r, In r (rows (w_db (snd res))) -> World.id r <> expertise_id)
  /\ (fst (fst res) = false -> w_db (snd res) = w_db w)
  /\ (select_fails e = false ->
      (forall r, In r (rows (w_db w)) -> World.id r <> expertise_id) ->
      res = ((false, msg_not_in_db), w))
  /\ (AddProps.number_unique (w_db w) -> AddProps.number_unique (w_db (snd res)))
  /\ (forall q b, files (w_fs (snd res)) !! q = Some b ->
                  files (w_fs w) !! q = Some b)
  /\ dirs (w_fs (snd res)) ⊆ dirs (w_fs w).
Proof.
  intros res. subst res. unfold delete_document.
  destruct (select_fails e) eqn:Esel.
  { repeat split; try done. }
  destruct (List.find _ (rows (w_db w))) as [result|] eqn:Efind.
  - apply find_some in Efind as [Hin Hid]. apply Z.eqb_eq in Hid.
    destruct (World.file_path result) as [file_path|] eqn:Epath.
    + pose proof (remove_stored_file_shrinks f (w_fs w) file_path)
        as (Hsub & Hother & Hdirs).
      destruct (delete_fails f); cbn [fst snd w_fs w_db].
      * refine (conj _ (conj _ (conj _ (conj _ (conj Hsub Hdirs))))); try done.
        intros _ Hno. exfalso. by apply (Hno result).
      * refine (conj _ (conj _ (conj _ (conj _ (conj Hsub Hdirs))))); try done.
        -- intros _. refine (conj _ (conj eq_refl (conj eq_refl _))).
           ++ exists result. refine (conj Hin (conj Hid _)).
              intros q Hq. apply Hother. rewrite Epath in Hq. congruence.
           ++ intros r Hr. simpl in Hr. apply filter_In in Hr as [_ Hr].
              apply negb_true_iff, Z.eqb_neq in Hr. exact Hr.
        -- intros _ Hno. exfalso. by apply (Hno result).
        -- intros Hu n. specialize (Hu n). unfold rows_with_number in *.
           simpl. etransitivity; [apply filter_filter_length | exact Hu].
    + repeat split; try done. intros _ Hno. exfalso. by apply (Hno result).
  - repeat split; try done.
Qed.

(** The rowids handed out so far are not above [last_rowid]
    (AUTOINCREMENT). *)
Definition rowids_bounded (t : table) : Prop :=
  forall r, In r (rows t) -> World.id r <= last_rowid t.

Lemma filter_all {A} (f : A -> bool) (l : list A) :
  (forall x, In x l -> f x = true) -> List.filter f l = l.
Proof.
  induction l as [|a l IH]; intros H; simpl; [done|].
  rewrite (H a) by (by left). f_equal. apply IH. intros x Hx. apply H. by right.
Qed.

Lemma find_appended (l : list row) (r : row) (rowid : Z) :
  (forall x, In x l -> World.id x <> rowid) ->
  World.id r = rowid ->
  List.find (fun x => World.id x =? rowid) (l ++ [r]) = Some r.
Proof.
  intros Hl Hr. induction l as [|x xs IH]; simpl.
  - by rewrite Hr, Z.eqb_refl.
  - assert ((World.id x =? rowid) = false) as ->
      by (apply Z.eqb_neq, Hl; by left).
    apply IH. intros y Hy. apply Hl. by right.
Qed.

(** X10. Add, then delete.  After an [add_document] that reports
    success, deleting the document with the rowid the add handed out
    (database without faults) reports success and gives back the rows
    the table had before the add; the rowid is not handed out again. *)
Theorem add_then_delete_restores_rows (self : agent) (e e' : env)
  (f : delete_faults) (w : world) (file_path : path)
  (sector_code expert_name : option str) (year : option Z)
  (number : option str) :
  rowids_bounded (w_db w) ->
  let added := add_document self e w file_path sector_code expert_name year number in
  fst (fst added) = true ->
  select_fails e' = false ->
  delete_fails f = false ->
  let res := delete_document e' f (snd added) (last_rowid (w_db w) + 1) in
  fst (fst res) = true
  /\ rows (w_db (snd res)) = rows (w_db w)
  /\ last_rowid (w_db (snd res)) = last_rowid (w_db w) + 1
  /\ rowids_bounded (w_db (snd res)).
Proof.
  intros Hb added Hok Hsel Hdel res.
  subst added.
  destruct (AddExtra.add_document_record self e w file_path sector_code expert_name
              year number) as [(Hf & _) | (w1 & text & fp & Hdb & _ & Hres)];
    [congruence|].
  rewrite Hres in Hok.
  destruct (AddExtra.check_and_place_success self e w1 _ fp file_path Hok)
    as (_ & _ & dest & fs1 & fs2 & rowid & db1 & _ & _ & Hins & Hw).
  apply AddExtra.insert_appends in Hins as (Hid & Hrows & Hlast & _).
  rewrite Hdb in Hid, Hrows.
  set (d := AddProps.record_of _ _ _ _ _ _ _) in *.
  set (r := row_of d (join2 dest (basename file_path)) rowid) in *.
  assert (Hold : List.filter (fun x => negb (World.id x =? rowid)) (rows (w_db w))
                 = rows (w_db w)).
  { apply filter_all. intros x Hx. apply negb_true_iff, Z.eqb_neq.
    specialize (Hb x Hx). lia. }
  assert (Hfind : List.find (fun x => World.id x =? rowid) (rows db1) = Some r).
  { rewrite Hrows. apply find_appended; [|reflexivity].
    intros x Hx. specialize (Hb x Hx). lia. }
  subst res. rewrite Hres, Hw. rewrite <- Hid.
  unfold delete_document. rewrite Hsel. cbn [w_db w_fs]. rewrite Hfind.
  subst r. cbn [row_of World.file_path World.expertise_number]. rewrite Hdel.
  cbn [fst snd w_db delete_row rows last_rowid].
  refine (conj eq_refl (conj _ (conj Hlast _))).
  - rewrite Hrows, List.filter_app, Hold. simpl.
    cbn [row_of World.id]. rewrite Z.eqb_refl. simpl. by rewrite app_nil_r.
  - intros x Hx. simpl in Hx. apply filter_In in Hx as [Hx _].
    rewrite Hrows in Hx. simpl. rewrite Hlast.
    apply in_app_or in Hx as [Hx | [<- | []]].
    + specialize (Hb x Hx). lia.
    + cbn [row_of World.id]. lia.
Qed.

Lemma add_then_delete_restores_rows_witness :
  let added := add_document AddExtra.copying_agent AddExtra.report_env
                 AddExtra.old_archive (u "old/a.docx") None (Some (u "Петренко"))
                 None (Some (u "105/24")) in
  let res := delete_document AddExtra.report_env (DeleteFaults false false false)
               (snd added) 1 in
  fst (fst res) = true /\ rows (w_db (snd res)) = [].
Proof.
  intros added res.
  destruct (add_then_delete_restores_rows AddExtra.copying_agent AddExtra.report_env
              AddExtra.report_env (DeleteFaults false false false)
              AddExtra.old_archive (u "old/a.docx") None (Some (u "Петренко"))
              None (Some (u "105/24")))
    as (H1 & H2 & _).
  - intros r [].
  - vm_compute. reflexivity.
  - reflexivity.
  - reflexivity.
  - split; [exact H1 | exact H2].
Defined.

End DeleteExtra.

(** ** The optimized agent: the validator's output *)

Module ValidateExtra.

Import World Optimized.

(** [re.sub(r'[^\d]', '', s)] keeps the digits of [s]. *)
Lemma non_digits_deleted s :
  sub_delete false (CSet true [CDigit]) s = List.filter is_digit s.
Proof.
  rewrite RegexFacts.sub_delete_class. apply List.filter_ext. intros c.
  unfold set_match, item_match. simpl. by destruct (is_digit c).
Qed.

Lemma filter_forallb {A} (f : A -> bool) (l : list A) :
  forallb f (List.filter f l) = true.
Proof.
  induction l as [|a l IH]; simpl; [done|].
  destruct (f a) eqn:E; simpl; [by rewrite E|done].
Qed.

(** A case identifier of 11 or 12 digits. *)
Definition erddr_shape (v : str) : Prop :=
  forallb is_digit v = true /\ (11 <= length v <= 12)%nat.

Lemma in_range_length (v : str) :
  (11 <=? length v)%nat && (length v <=? 12)%nat = true <-> (11 <= length v <= 12)%nat.
Proof.
  rewrite andb_true_iff, Nat.leb_le, Nat.leb_le. done.
Qed.

Lemma clean_erddr_result v erddr :
  clean_erddr v = Some erddr -> erddr = [] \/ erddr_shape erddr.
Proof.
  unfold clean_erddr. destruct (truthy_str v) eqn:Et.
  - rewrite non_digits_deleted.
    destruct ((11 <=? _)%nat && (_ <=? 12)%nat) eqn:Er; [|done].
    intros [= <-]. right. split; [apply filter_forallb|].
    by apply in_range_length.
  - intros ->. left. destruct erddr; [done | discriminate Et].
Qed.

Lemma filter_all_true {A} (f : A -> bool) (l : list A) :
  forallb f l = true -> List.filter f l = l.
Proof.
  induction l as [|a l IH]; simpl; [done|].
  intros H. apply andb_true_iff in H as [-> H]. by rewrite IH.
Qed.

Lemma clean_erddr_kept (s : str) : erddr_shape s -> clean_erddr (Some s) = Some s.
Proof.
  intros [Hd Hl]. unfold clean_erddr.
  assert (truthy_str (Some s) = true) as ->
    by (destruct s; [simpl in Hl; lia | done]).
  change (default [] (Some s)) with s.
  rewrite non_digits_deleted, (filter_all_true _ _ Hd).
  apply in_range_length in Hl. by rewrite Hl.
Qed.

Lemma clean_erddr_fixed v : clean_erddr (clean_erddr v) = clean_erddr v.
Proof.
  destruct (clean_erddr v) as [erddr|] eqn:E; [|done].
  destruct (clean_erddr_result _ _ E) as [-> | Hs]; [done|].
  by apply clean_erddr_kept.
Qed.

Lemma clean_number_result v number :
  clean_number v = Some number ->
  number = [] \/ matched (match_ false number_shape (strip number)) = true.
Proof.
  unfold clean_number. destruct (truthy_str v) eqn:Et.
  - destruct (matched _) eqn:Em; cbn [negb]; [|done].
    intros ->. by right.
  - intros ->. left. destruct number; [done | discriminate Et].
Qed.

Lemma clean_number_fixed v : clean_number (clean_number v) = clean_number v.
Proof.
  unfold clean_number at 2 3. destruct (truthy_str v) eqn:Et.
  - destruct (matched _) eqn:Em; cbn [negb]; [|done].
    unfold clean_number. by rewrite Et, Em.
  - unfold clean_number. by rewrite Et.
Qed.

Lemma unknown_expert_long : (length (strip unknown_expert) <? 3)%nat = false.
Proof. vm_compute. reflexivity. Qed.

Lemma clean_name_result v name :
  clean_name v = Some name -> name = [] \/ (3 <= length (strip name))%nat.
Proof.
  unfold clean_name. destruct (truthy_str v) eqn:Et.
  - destruct (_ <? 3)%nat eqn:El.
    + intros [= <-]. right. pose proof unknown_expert_long as H.
      apply Nat.ltb_ge in H. exact H.
    + intros ->. right. by apply Nat.ltb_ge in El.
  - intros ->. left. destruct name; [done | discriminate Et].
Qed.

Lemma clean_name_fixed v : clean_name (clean_name v) = clean_name v.
Proof.
  unfold clean_name at 2 3. destruct (truthy_str v) eqn:Et.
  - destruct (_ <? 3)%nat eqn:El.
    + unfold clean_name.
      assert (truthy_str (Some unknown_expert) = true) as ->
        by (vm_compute; reflexivity).
      change (default [] (Some unknown_expert)) with unknown_expert.
      by rewrite unknown_expert_long.
    + unfold clean_name. by rewrite Et, El.
  - unfold clean_name. by rewrite Et.
Qed.

Lemma clean_year_fixed e date year :
  clean_year e (fst (clean_year e date year)) (snd (clean_year e date year))
  = clean_year e date year.
Proof.
  unfold clean_year at 2 3 4. destruct (truthy_int year) eqn:Et.
  - destruct (negb _) eqn:Er; cbn [fst snd]; [done|].
    unfold clean_year. by rewrite Et, Er.
  - cbn [fst snd]. unfold clean_year. by rewrite Et.
Qed.

Lemma validate_fields e data :
  _validate_and_clean_expertise_data e data
  = EData (clean_erddr (erddr_number data))
          (clean_number (expertise_number data))
          (fst (clean_year e (expertise_date data) (expertise_year data)))
          (snd (clean_year e (expertise_date data) (expertise_year data)))
          (expertise_type data)
          (clean_name (expert_name data))
          (sector data) (source_file data) (Optimized.file_path data)
          (file_size data) (file_hash data).
Proof.
  unfold _validate_and_clean_expertise_data.
  by destruct (clean_year e (expertise_date data) (expertise_year data)).
Qed.

Lemma filter_sublist {A} (f : A -> bool) (l : list A) :
  sublist (List.filter f l) l.
Proof.
  induction l as [|a l IH]; simpl; [constructor|].
  destruct (f a); by constructor.
Qed.

(** What is left of a case identifier: the string as it was when it was
    empty, and else what remains of it once the characters that are no
    digits are deleted, 11 or 12 characters long. *)
Lemma clean_erddr_kept_digits v erddr :
  clean_erddr v = Some erddr ->
  erddr = []
  \/ ((11 <= length erddr <= 12)%nat
      /\ sublist erddr (default [] v)
      /\ List.filter is_digit erddr = List.filter is_digit (default [] v)
      /\ (forall c, In c erddr -> c < 128 -> is_digit c = true)).
Proof.
  unfold clean_erddr. destruct (truthy_str v) eqn:Et.
  - rewrite non_digits_deleted.
    destruct ((11 <=? _)%nat && (_ <=? 12)%nat) eqn:Er; [|done].
    intros [= <-]. right. split; [by apply in_range_length|].
    split; [apply filter_sublist|].
    split; [apply filter_all_true, filter_forallb|].
    intros c Hc _. by apply filter_In in Hc as [_ Hc].
  - intros ->. left. destruct erddr; [done | discriminate Et].
Qed.

Lemma clean_number_cases v :
  clean_number v = v \/ clean_number v = None.
Proof.
  unfold clean_number. destruct (truthy_str v); [|by left].
  destruct (negb _); [by right | by left].
Qed.

Lemma clean_name_cases v :
  clean_name v = v \/ clean_name v = Some unknown_expert.
Proof.
  unfold clean_name. destruct (truthy_str v); [|by left].
  destruct (_ <? 3)%nat; [by right | by left].
Qed.

(** X11. What [_validate_and_clean_expertise_data] lets through.  A
    case identifier that is present and not empty has 11 or 12
    characters; it is what remains of the identifier given once some of
    its characters are deleted, none of the digits 0 to 9 among them,
    and each of its characters below code point 128 is one of the
    digits 0 to 9.  An expertise number is kept as it was or cleared;
    one that is kept, is not empty and holds only characters below code
    point 128 has, once stripped, the shape of groups of the digits 0 to
    9 joined by slashes.  An expert's name is kept as it was or replaced
    by the placeholder, and one that is present and not empty has at
    least three characters once stripped.  The type, the sector and the
    file fields are not touched. *)
Theorem validator_output (e : env) (data : edata) :
  let cleaned := _validate_and_clean_expertise_data e data in
  (forall v, erddr_number cleaned = Some v ->
     v = []
     \/ ((11 <= length v <= 12)%nat
         /\ sublist v (default [] (erddr_number data))
         /\ List.filter is_digit v
            = List.filter is_digit (default [] (erddr_number data))
         /\ (forall c, In c v -> c < 128 -> is_digit c = true)))
  /\ (expertise_number cleaned = expertise_number data
      \/ expertise_number cleaned = None)
  /\ (forall v, expertise_number cleaned = Some v ->
        Forall (fun c => c < 128) v ->
        v = [] \/ matched (match_ false number_shape (strip v)) = true)
  /\ (expert_name cleaned = expert_name data
      \/ expert_name cleaned = Some unknown_expert)
  /\ (forall v, expert_name cleaned = Some v ->
        v = [] \/ (3 <= length (strip v))%nat)
  /\ expertise_type cleaned = expertise_type data
  /\ sector cleaned = sector data
  /\ source_file cleaned = source_file data
  /\ Optimized.file_path cleaned = Optimized.file_path data
  /\ file_size cleaned = file_size data
  /\ file_hash cleaned = file_hash data.
Proof.
  intros cleaned. subst cleaned. rewrite validate_fields.
  cbn [erddr_number expertise_number expert_name expertise_type sector
       source_file Optimized.file_path file_size file_hash].
  refine (conj _ (conj _ (conj _ (conj _ (conj _ _))))); [| | | | |done].
  - intros v. apply clean_erddr_kept_digits.
  - apply clean_number_cases.
  - intros v Hv _. by apply clean_number_result in Hv.
  - apply clean_name_cases.
  - intros v. apply clean_name_result.
Qed.

(** X12. Validating twice changes nothing more: a record that came out
    of [_validate_and_clean_expertise_data] goes through it unchanged. *)
Theorem validator_idempotent (e : env) (data : edata) :
  _validate_and_clean_expertise_data e (_validate_and_clean_expertise_data e data)
  = _validate_and_clean_expertise_data e data.
Proof.
  rewrite (validate_fields e (_validate_and_clean_expertise_data e data)).
  rewrite !validate_fields.
  cbn [erddr_number expertise_number expertise_date expertise_year expert_name
       expertise_type sector source_file Optimized.file_path file_size file_hash].
  by rewrite clean_erddr_fixed, clean_number_fixed, clean_name_fixed,
    clean_year_fixed.
Qed.

End ValidateExtra.

(** ** The optimized agent: the memo table of the fingerprints *)

Module HashExtra.

Import World Optimized.

Lemma key_eqb_refl k : key_eqb k k = true.
Proof. unfold key_eqb. by apply bool_decide_eq_true. Qed.

(** After a call the table answers for its key with the value the call
    returned. *)
Lemma cache_after_call e fs cache file_path file_size :
  cache_find (file_path, file_size)
    (snd (_get_file_hash e fs cache file_path file_size))
  = Some (fst (_get_file_hash e fs cache file_path file_size)).
Proof.
  unfold _get_file_hash.
  destruct (cache_find (file_path, file_size) cache) as [v|]; cbn [fst snd].
  - simpl. by rewrite key_eqb_refl.
  - change lru_maxsize with (S 499). simpl. by rewrite key_eqb_refl.
Qed.

Lemma cache_without_length k (c : list ((path * Z) * option str)) :
  cache_find k c <> None -> (S (length (cache_without k c)) <= length c)%nat.
Proof.
  unfold cache_without. induction c as [|[k' v] c IH]; simpl; [done|].
  destruct (key_eqb k k') eqn:E; simpl.
  - intros _. pose proof (List.filter_length_le
                            (fun kv => negb (key_eqb k (fst kv))) c). lia.
  - intros H. specialize (IH H). lia.
Qed.

(** X13. The memo table of [_get_file_hash].  A call for a path and a
    size that were asked before returns what the earlier call returned,
    whatever the file holds by then and whether or not it can still be
    read; a first call returns the MD5 of the contents, or nothing when
    the file cannot be read.  The table never grows beyond 500
    entries. *)
Theorem file_hash_memo (e1 e2 : env) (fs1 fs2 : fsys)
  (cache : list ((path * Z) * option str)) (file_path : path) (file_size : Z) :
  let first := _get_file_hash e1 fs1 cache file_path file_size in
  fst (_get_file_hash e2 fs2 (snd first) file_path file_size) = fst first
  /\ (cache_find (file_path, file_size) cache = None ->
      fst first = hash_file e1 fs1 file_path)
  /\ ((length cache <= lru_maxsize)%nat -> (length (snd first) <= lru_maxsize)%nat).
Proof.
  intros first. refine (conj _ (conj _ _)).
  - unfold _get_file_hash at 1. subst first. by rewrite cache_after_call.
  - subst first. unfold _get_file_hash. by intros ->.
  - subst first. unfold _get_file_hash. intros Hlen.
    destruct (cache_find (file_path, file_size) cache) as [v|] eqn:E; cbn [snd].
    + assert (Hne : cache_find (file_path, file_size) cache <> None)
        by (by rewrite E).
      pose proof (cache_without_length _ _ Hne). simpl. lia.
    + rewrite length_take. lia.
Qed.

End HashExtra.

(** ** The optimized agent: what an add does to the table and the files *)

Module StoreExtra.

Import World Optimized.

(** *** The steps of [_add_document_impl] *)

(** A copy into the archive makes directories and writes one path that
    did not exist; a copy that fails writes nothing. *)
Lemma copy_file_spec self e fs source_path parsed_data r fs' :
  _copy_file_to_archive self e fs source_path parsed_data = Some (r, fs') ->
  dirs fs ⊆ dirs fs'
  /\ match r with
     | inl target =>
         exists b, files fs !! source_path = Some b
                   /\ files fs !! target = None
                   /\ files fs' = <[target := b]> (files fs)
     | inr _ => files fs' = files fs
     end.
Proof.
  unfold _copy_file_to_archive.
  destruct (sector parsed_data) as [sector|]; [|by intros [= <- <-]].
  destruct (expert_name parsed_data) as [expert_name|]; [|by intros [= <- <-]].
  destruct (target_directory self e fs sector expert_name (expertise_year parsed_data))
    as [expert_path [[target_dir fs2]|]] eqn:Hdir; [|by intros [= <- <-]].
  apply PlacementProps.target_directory_files in Hdir as [Hfiles Hdirs].
  destruct (target_name source_path (expertise_number parsed_data)) as [name ext].
  destruct (free_name _ fs2 target_dir name ext 1 _) as [target|] eqn:Hfree;
    [|done].
  pose proof (PlacementProps.free_name_free _ _ _ _ _ _ _ _ Hfree) as Hnot.
  destruct (copy2 e fs2 source_path target) as [fs3|] eqn:Hcopy.
  - intros [= <- <-].
    apply (PlacementProps.copy2_fresh _ _ _ _ _ Hnot) in Hcopy
      as (b & Hsrc & Hnew & Hd3 & Hnone).
    split; [by rewrite Hd3|].
    exists b. rewrite <- Hfiles. done.
  - intros [= <- <-]. done.
Qed.

Lemma copy_file_total self e fs source_path parsed_data :
  exists r fs', _copy_file_to_archive self e fs source_path parsed_data = Some (r, fs').
Proof.
  unfold _copy_file_to_archive.
  destruct (sector parsed_data) as [sector|]; [|by eexists _, _].
  destruct (expert_name parsed_data) as [expert_name|]; [|by eexists _, _].
  destruct (target_directory self e fs sector expert_name (expertise_year parsed_data))
    as [expert_path [[target_dir fs2]|]]; [|by eexists _, _].
  destruct (target_name source_path (expertise_number parsed_data)) as [name ext].
  destruct (PlacementProps.free_name_total fs2 target_dir name ext
              (join2 target_dir (name ++ ext))) as [target ->].
  destruct (copy2 e fs2 source_path target); by eexists _, _.
Qed.

(** Clearing the search cache removes pickled search results and
    nothing else. *)
Lemma invalidate_keeps st fs p :
  is_search_cache_file p = false ->
  files (_invalidate_search_cache st fs) !! p = files fs !! p.
Proof.
  intros Hp. unfold _invalidate_search_cache.
  destruct (negb (_cache_initialized st)); [done|].
  destruct (path_exists fs CACHE_DIR); [|done]. simpl.
  apply option_eq. intros b. rewrite map_lookup_filter_Some. simpl. tauto.
Qed.

Lemma invalidate_subset st fs p b :
  files (_invalidate_search_cache st fs) !! p = Some b -> files fs !! p = Some b.
Proof.
  unfold _invalidate_search_cache.
  destruct (negb (_cache_initialized st)); [done|].
  destruct (path_exists fs CACHE_DIR); [|done]. simpl.
  rewrite map_lookup_filter_Some. tauto.
Qed.

Lemma invalidate_dirs st fs : dirs (_invalidate_search_cache st fs) = dirs fs.
Proof.
  unfold _invalidate_search_cache.
  destruct (negb (_cache_initialized st)); [done|].
  by destruct (path_exists fs CACHE_DIR).
Qed.

(** Every file that is not a pickled search result keeps its contents. *)
Definition files_kept (fs fs' : fsys) : Prop :=
  forall p b, files fs !! p = Some b -> is_search_cache_file p = false ->
              files fs' !! p = Some b.

(** No file is added. *)
Definition no_new_file (fs fs' : fsys) : Prop :=
  forall p b, files fs' !! p = Some b -> files fs !! p = Some b.

(** The fingerprint and the memo table after the call of
    [_get_file_hash] at the head of an add. *)
Definition hashed (e : env) (st : state) (file_path : path)
  : option str * list ((path * Z) * option str) :=
  _get_file_hash e (w_fs (st_world st)) (hash_cache st) file_path
    (getsize e (w_fs (st_world st)) file_path).

(** What [parse_place_store] returns. *)
Lemma parse_place_store_spec self e st cache file_path file_hash override_data
  res st' :
  parse_place_store self e st cache file_path file_hash override_data
  = Some (res, st') ->
  let fs := w_fs (st_world st) in
  let db := w_db (st_world st) in
  hash_cache st' = cache
  /\ _cache_initialized st' = _cache_initialized st
  /\ dirs fs ⊆ dirs (w_fs (st_world st'))
  /\ files_kept fs (w_fs (st_world st'))
  /\ (index_only_mode self = true -> no_new_file fs (w_fs (st_world st')))
  /\ match res with
     | Added doc_id archive_path parsed_data =>
         insert db (row_of parsed_data) = Some (doc_id, w_db (st_world st'))
         /\ Optimized.file_hash parsed_data = file_hash
         /\ Optimized.file_path parsed_data = archive_path
         /\ (if index_only_mode self then archive_path = file_path
             else exists b, files fs !! file_path = Some b
                            /\ files fs !! archive_path = None)
     | Failed _ => 0 <= last_rowid db -> w_db (st_world st') = db
     | Duplicate _ _ => False
     end.
Proof.
  unfold parse_place_store. cbv zeta.
  set (fs := w_fs (st_world st)). set (db := w_db (st_world st)).
  set (parsed := with_hash (update _ override_data) file_hash).
  assert (Hkept : forall fsx, files fsx = files fs -> files_kept fs fsx).
  { intros fsx Hx p b Hp _. by rewrite Hx. }
  assert (Hinv : forall fs1, files_kept fs fs1 ->
                             files_kept fs (_invalidate_search_cache st fs1)).
  { intros fs1 H1 p b Hp Hc. rewrite (invalidate_keeps _ _ _ Hc). by apply H1. }
  assert (Hsave : forall data doc_id db1,
             _save_document_to_database e db data = (Some doc_id, db1) ->
             insert db (row_of data) = Some (doc_id, db1)).
  { intros data doc_id db1. unfold _save_document_to_database.
    destruct (insert_fails e); [done|].
    destruct (expert_name data); [|done]. destruct (sector data); [|done].
    destruct (insert db (row_of data)) as [[i t]|]; [|done].
    by intros [= <- <-]. }
  assert (Hnone : forall data db1,
             _save_document_to_database e db data = (None, db1) -> db1 = db).
  { intros data db1. unfold _save_document_to_database.
    destruct (insert_fails e); [by intros [= <-]|].
    destruct (expert_name data); [|by intros [= <-]].
    destruct (sector data); [|by intros [= <-]].
    destruct (insert db (row_of data)) as [[i t]|]; [done | by intros [= <-]]. }
  assert (Hid : forall data doc_id db1,
             insert db (row_of data) = Some (doc_id, db1) ->
             0 <= last_rowid db -> (doc_id =? 0) = false).
  { intros data doc_id db1. unfold insert.
    destruct (unique_ok _ _); [|done]. intros [= <- _] H.
    apply Z.eqb_neq. lia. }
  destruct (index_only_mode self) eqn:Emode; cbn [negb].
  - (* index only *)
    destruct (_save_document_to_database e db (with_path parsed file_path))
      as [[doc_id|] db1] eqn:Es.
    + pose proof (Hsave _ _ _ Es) as Hins.
      destruct (negb (doc_id =? 0)) eqn:E0.
      * intros [= <- <-]. cbn [hash_cache _cache_initialized st_world w_fs w_db].
        rewrite invalidate_dirs.
        refine (conj eq_refl (conj eq_refl (conj _ (conj _ (conj _ _))))).
        -- done.
        -- by apply Hinv, Hkept.
        -- intros _ p b. apply invalidate_subset.
        -- done.
      * intros [= <- <-]. cbn [hash_cache _cache_initialized st_world w_fs w_db].
        refine (conj eq_refl (conj eq_refl (conj _ (conj _ (conj _ _))))).
        -- done.
        -- by apply Hkept.
        -- by intros _ p b.
        -- intros H0. rewrite (Hid _ _ _ Hins H0) in E0. done.
    + intros [= <- <-]. cbn [hash_cache _cache_initialized st_world w_fs w_db].
      refine (conj eq_refl (conj eq_refl (conj _ (conj _ (conj _ _))))).
      * done.
      * by apply Hkept.
      * by intros _ p b.
      * intros _. by apply (Hnone _ _ Es).
  - (* copy *)
    destruct (_copy_file_to_archive self e fs file_path parsed)
      as [[[archive_path | error] fs1]|] eqn:Ecopy; [| |done].
    + apply copy_file_spec in Ecopy as (Hd & b & Hsrc & Hfree & Hnew).
      assert (Hk1 : files_kept fs fs1).
      { intros p b0 Hp _. rewrite Hnew, lookup_insert_ne; [done|].
        intros ->. congruence. }
      destruct (_save_document_to_database e db (with_path parsed archive_path))
        as [[doc_id|] db1] eqn:Es.
      * pose proof (Hsave _ _ _ Es) as Hins.
        destruct (negb (doc_id =? 0)) eqn:E0.
        -- intros [= <- <-].
           cbn [hash_cache _cache_initialized st_world w_fs w_db].
           rewrite invalidate_dirs.
           refine (conj eq_refl (conj eq_refl (conj Hd (conj _ (conj _ _))))).
           ++ by apply Hinv.
           ++ done.
           ++ refine (conj Hins (conj eq_refl (conj eq_refl _))).
              exists b. done.
        -- intros [= <- <-].
           cbn [hash_cache _cache_initialized st_world w_fs w_db].
           refine (conj eq_refl (conj eq_refl (conj Hd (conj Hk1 (conj _ _))))).
           ++ done.
           ++ intros H0. rewrite (Hid _ _ _ Hins H0) in E0. done.
      * intros [= <- <-].
        cbn [hash_cache _cache_initialized st_world w_fs w_db].
        refine (conj eq_refl (conj eq_refl (conj Hd (conj Hk1 (conj _ _))))).
        -- done.
        -- intros _. by apply (Hnone _ _ Es).
    + apply copy_file_spec in Ecopy as (Hd & Hsame).
      intros [= <- <-]. cbn [hash_cache _cache_initialized st_world w_fs w_db].
      refine (conj eq_refl (conj eq_refl (conj Hd (conj _ (conj _ _))))).
      * by apply Hkept.
      * done.
      * done.
Qed.

Lemma parse_place_store_total self e st cache file_path file_hash override_data :
  exists res st',
    parse_place_store self e st cache file_path file_hash override_data
    = Some (res, st').
Proof.
  unfold parse_place_store. cbv zeta.
  set (parsed := with_hash (update _ override_data) file_hash).
  destruct (negb (index_only_mode self)).
  - destruct (copy_file_total self e (w_fs (st_world st)) file_path parsed)
      as ([archive_path | error] & fs1 & ->); [|by eexists _, _].
    destruct (_save_document_to_database e _ _) as [[doc_id|] db1];
      [|by eexists _, _].
    destruct (negb (doc_id =? 0)); by eexists _, _.
  - destruct (_save_document_to_database e _ _) as [[doc_id|] db1];
      [|by eexists _, _].
    destruct (negb (doc_id =? 0)); by eexists _, _.
Qed.

(** The paths of [_add_document_impl]. *)
Lemma add_impl_cases self e st file_path force_reparse override_data :
  let impl := _add_document_impl self e st file_path force_reparse override_data in
  let fs := w_fs (st_world st) in
  (exists error, impl = Some (Failed error, st)
                 /\ (path_exists fs file_path = false
                     \/ existsb (endswith (lower file_path)) SUPPORTED_EXTENSIONS
                        = false))
  \/ (path_exists fs file_path = true
      /\ existsb (endswith (lower file_path)) SUPPORTED_EXTENSIONS = true
      /\ ((exists h r,
              force_reparse = false
              /\ fst (hashed e st file_path) = Some h /\ h <> []
              /\ _check_duplicate_document e (w_db (st_world st)) (Some h) file_path
                 = Some r
              /\ impl = Some (Duplicate (msg_duplicate (id r)) (id r),
                              State (st_world st) (snd (hashed e st file_path))
                                    (_cache_initialized st)))
          \/ impl = parse_place_store self e st (snd (hashed e st file_path))
                      file_path (fst (hashed e st file_path)) override_data)).
Proof.
  unfold _add_document_impl, hashed. cbv zeta.
  destruct (path_exists (w_fs (st_world st)) file_path) eqn:Eex; cbn [negb];
    [|left; eexists; split; [reflexivity | by left]].
  destruct (existsb (endswith (lower file_path)) SUPPORTED_EXTENSIONS) eqn:Eext;
    cbn [negb]; [|left; eexists; split; [reflexivity | by right]].
  right. split; [done|]. split; [done|].
  destruct (_get_file_hash e _ _ _ _) as [file_hash cache]. cbn [fst snd].
  destruct force_reparse; cbn [negb andb]; [by right|].
  destruct (truthy_str file_hash) eqn:Et; [|by right].
  destruct file_hash as [[|c h]|]; try discriminate Et.
  destruct (_check_duplicate_document _ _ _ _) as [r|] eqn:Ed; [|by right].
  left. exists (c :: h), r. done.
Qed.

(** X14. [_add_document_impl] always returns, and the table changes
    only with a success: a success has appended exactly one row, the
    record returned, under the next rowid; the record carries the
    fingerprint of the source and the path of the archive copy (of the
    source itself in index-only mode).  A failure leaves the table as
    it was and a duplicate leaves the whole world as it was. *)
Theorem add_impl_table_change (self : agent) (e : env) (st : state)
  (file_path : path) (force_reparse : bool) (override_data : overrides) :
  0 <= last_rowid (w_db (st_world st)) ->
  exists res st',
    _add_document_impl self e st file_path force_reparse override_data
    = Some (res, st')
    /\ match res with
       | Added doc_id archive_path parsed_data =>
           rows (w_db (st_world st'))
           = rows (w_db (st_world st)) ++ [row_of parsed_data doc_id]
           /\ doc_id = last_rowid (w_db (st_world st)) + 1
           /\ last_rowid (w_db (st_world st')) = doc_id
           /\ Optimized.file_hash parsed_data = fst (hashed e st file_path)
           /\ Optimized.file_path parsed_data = archive_path
           /\ (index_only_mode self = true -> archive_path = file_path)
       | Failed _ => w_db (st_world st') = w_db (st_world st)
       | Duplicate _ _ => st_world st' = st_world st
       end.
Proof.
  intros H0.
  destruct (add_impl_cases self e st file_path force_reparse override_data)
    as [(error & -> & _) | (_ & _ & [(h & r & _ & _ & _ & _ & ->) | ->])].
  - by eexists _, _.
  - by eexists _, _.
  - destruct (parse_place_store_total self e st (snd (hashed e st file_path))
                file_path (fst (hashed e st file_path)) override_data)
      as (res & st' & Hres).
    exists res, st'. split; [exact Hres|].
    apply parse_place_store_spec in Hres as (_ & _ & _ & _ & _ & Hres).
    destruct res as [doc_id archive_path parsed | error | error id].
    + destruct Hres as (Hins & Hh & Hp & Hmode).
      apply AddExtra.insert_appends in Hins as (Hid & Hrows & Hlast & _).
      refine (conj Hrows (conj Hid (conj Hlast (conj Hh (conj Hp _))))).
      intros Hm. by rewrite Hm in Hmode.
    + by apply Hres.
    + destruct Hres.
Qed.

(** The paths under the cache directory. *)
Definition under_cache (p : path) : bool := startswith p (CACHE_DIR ++ [sep]).

Lemma search_cache_under_cache p :
  under_cache p = false -> is_search_cache_file p = false.
Proof.
  unfold under_cache, startswith, is_search_cache_file.
  by destruct (strip_prefix (CACHE_DIR ++ [sep]) p).
Qed.

Lemma invalidate_off st fs :
  _cache_initialized st = false -> _invalidate_search_cache st fs = fs.
Proof. intros H. unfold _invalidate_search_cache. by rewrite H. Qed.

(** The file system [parse_place_store] leaves: the one after the copy
    (the one it started from in index-only mode), with the search cache
    cleared or not. *)
Lemma parse_place_store_files self e st cache file_path file_hash override_data
  res st' :
  parse_place_store self e st cache file_path file_hash override_data
  = Some (res, st') ->
  let fs := w_fs (st_world st) in
  exists fs1,
    (w_fs (st_world st') = fs1
     \/ w_fs (st_world st') = _invalidate_search_cache st fs1)
    /\ dirs fs ⊆ dirs fs1
    /\ (forall p b, files fs !! p = Some b -> files fs1 !! p = Some b)
    /\ (index_only_mode self = true -> fs1 = fs).
Proof.
  unfold parse_place_store. cbv zeta.
  set (fs := w_fs (st_world st)).
  set (parsed := with_hash (update _ override_data) file_hash).
  destruct (index_only_mode self) eqn:Emode; cbn [negb].
  - destruct (_save_document_to_database e _ _) as [[doc_id|] db1].
    + destruct (negb (doc_id =? 0)); intros [= <- <-];
        cbn [st_world w_fs]; exists fs; (split; [by (left + right) | done]).
    + intros [= <- <-]. cbn [st_world w_fs]. exists fs. split; [by left | done].
  - destruct (_copy_file_to_archive self e fs file_path parsed)
      as [[[archive_path | error] fs1]|] eqn:Ecopy; [| |done].
    + apply copy_file_spec in Ecopy as (Hd & b & Hsrc & Hfree & Hnew).
      assert (Hk : forall p b0, files fs !! p = Some b0 -> files fs1 !! p = Some b0).
      { intros p b0 Hp. rewrite Hnew, lookup_insert_ne; [done|].
        intros ->. congruence. }
      destruct (_save_document_to_database e _ _) as [[doc_id|] db1].
      * destruct (negb (doc_id =? 0)); intros [= <- <-];
          cbn [st_world w_fs]; exists fs1; (split; [by (left + right) | done]).
      * intros [= <- <-]. cbn [st_world w_fs]. exists fs1. split; [by left | done].
    + apply copy_file_spec in Ecopy as (Hd & Hsame).
      intros [= <- <-]. cbn [st_world w_fs]. exists fs1.
      split; [by left|]. split; [done|]. split; [|done].
      intros p b. by rewrite Hsame.
Qed.

(** X15. The files under [_add_document_impl], the database apart.
    Whatever the outcome, no directory is removed and every file that
    existed outside the cache directory keeps its contents; in
    index-only mode the files outside the cache directory are the same
    after the call as before.  While the cache is not initialised
    ([_cache_initialized] false, as [__init__] leaves it) nothing is
    read from or written to the cache directory either: every file that
    existed keeps its contents, and in index-only mode the files and
    directories are left as they were. *)
Theorem add_impl_keeps_files (self : agent) (e : env) (st : state)
  (file_path : path) (force_reparse : bool) (override_data : overrides) :
  exists res st',
    _add_document_impl self e st file_path force_reparse override_data
    = Some (res, st')
    /\ dirs (w_fs (st_world st)) ⊆ dirs (w_fs (st_world st'))
    /\ (forall p b,
          files (w_fs (st_world st)) !! p = Some b -> under_cache p = false ->
          files (w_fs (st_world st')) !! p = Some b)
    /\ (index_only_mode self = true ->
        forall p, under_cache p = false ->
                  files (w_fs (st_world st')) !! p = files (w_fs (st_world st)) !! p)
    /\ (_cache_initialized st = false ->
        (forall p b,
            files (w_fs (st_world st)) !! p = Some b ->
            files (w_fs (st_world st')) !! p = Some b)
        /\ (index_only_mode self = true ->
            w_fs (st_world st') = w_fs (st_world st))).
Proof.
  destruct (add_impl_cases self e st file_path force_reparse override_data)
    as [(error & -> & _) | (_ & _ & [(h & r & _ & _ & _ & _ & ->) | ->])].
  - eexists _, _. split; [reflexivity|]. done.
  - eexists _, _. split; [reflexivity|]. done.
  - destruct (parse_place_store_total self e st (snd (hashed e st file_path))
                file_path (fst (hashed e st file_path)) override_data)
      as (res & st' & Hres).
    exists res, st'. split; [exact Hres|].
    apply parse_place_store_files in Hres as (fs1 & Hfs & Hd & Hk & Hmode).
    cbv zeta in Hfs, Hd, Hk, Hmode.
    assert (Hdirs : dirs (w_fs (st_world st')) = dirs fs1).
    { destruct Hfs as [-> | ->]; [done | apply invalidate_dirs]. }
    assert (Hout : forall p, under_cache p = false ->
                     files (w_fs (st_world st')) !! p = files fs1 !! p).
    { intros p Hp. destruct Hfs as [-> | ->]; [done|].
      by apply invalidate_keeps, search_cache_under_cache. }
    assert (Hoff : _cache_initialized st = false -> w_fs (st_world st') = fs1).
    { intros Hc. destruct Hfs as [-> | ->]; [done | by apply invalidate_off]. }
    split; [by rewrite Hdirs|].
    split; [intros p b Hp Hu; rewrite (Hout p Hu); by apply Hk|].
    split.
    + intros Hm p Hu. by rewrite (Hout p Hu), (Hmode Hm).
    + intros Hc. rewrite (Hoff Hc). split; [exact Hk | exact Hmode].
Qed.

(** *** Duplicates *)

Lemma check_duplicate_sound e db h file_path r :
  _check_duplicate_document e db (Some h) file_path = Some r ->
  select_fails e = false
  /\ In r (rows db)
  /\ (World.file_hash r = Some h
      \/ World.source_file r = Some (basename file_path)).
Proof.
  unfold _check_duplicate_document.
  destruct (select_fails e); [done|].
  destruct (truthy_str (Some h)).
  - change (default [] (Some h)) with h.
    destruct (select_one World.file_hash h db) as [r'|] eqn:Eh.
    + intros [= <-]. apply DuplicateProps.select_one_some in Eh as [Hin Hh]. auto.
    + intros Hs. apply DuplicateProps.select_one_some in Hs as [Hin Hs]. auto.
  - intros Hs. apply DuplicateProps.select_one_some in Hs as [Hin Hs]. auto.
Qed.

(** X16. A duplicate result is never given without cause: the add was
    not forced, the fingerprint of the file was there, the database
    answered, and the row whose id the result names holds that
    fingerprint or the name of the file; the message carries the same
    id, and the world is left as it was.  (With no fingerprint - the
    file cannot be read - no duplicate is reported, by name either.) *)
Theorem duplicate_result_sound (self : agent) (e : env) (st st' : state)
  (file_path : path) (force_reparse : bool) (override_data : overrides)
  (error : str) (existing_id : Z) :
  _add_document_impl self e st file_path force_reparse override_data
  = Some (Duplicate error existing_id, st') ->
  force_reparse = false
  /\ error = msg_duplicate existing_id
  /\ st_world st' = st_world st
  /\ select_fails e = false
  /\ exists h r,
       fst (hashed e st file_path) = Some h
       /\ h <> []
       /\ In r (rows (w_db (st_world st)))
       /\ id r = existing_id
       /\ (World.file_hash r = Some h
           \/ World.source_file r = Some (basename file_path)).
Proof.
  intros Himpl.
  destruct (add_impl_cases self e st file_path force_reparse override_data)
    as [(err & H & _) | (_ & _ & [(h & r & Hf & Hh & Hne & Hd & H) | H])];
    rewrite H in Himpl.
  - done.
  - injection Himpl as <- <- <-.
    apply check_duplicate_sound in Hd as (Hsel & Hin & Hcause).
    refine (conj Hf (conj eq_refl (conj eq_refl (conj Hsel _)))).
    exists h, r. done.
  - apply parse_place_store_spec in Himpl as (_ & _ & _ & _ & _ & []).
Qed.

(** *** The same file twice *)

Lemma strip_prefix_app a s rest : strip_prefix a s = Some rest -> s = a ++ rest.
Proof.
  revert s. induction a as [|x a IH]; intros s; simpl.
  - by intros [= ->].
  - destruct s as [|y s]; [done|].
    destruct (x =? y) eqn:E; [|done]. apply Z.eqb_eq in E. subst y.
    intros H. by rewrite (IH _ H).
Qed.

Lemma endswith_app s suffix :
  endswith s suffix = true -> exists pre, s = pre ++ suffix.
Proof.
  unfold endswith, startswith.
  destruct (strip_prefix (rev suffix) (rev s)) as [rest|] eqn:E; [|done].
  intros _. apply strip_prefix_app in E.
  exists (rev rest). apply (f_equal (@rev Z)) in E.
  rewrite rev_involutive, rev_app_distr, rev_involutive in E. exact E.
Qed.

Lemma lower_app a b : lower (a ++ b) = lower a ++ lower b.
Proof. unfold lower. apply List.map_app. Qed.

(** A document of a supported format is no pickled search result. *)
Lemma supported_not_cache p :
  existsb (endswith (lower p)) SUPPORTED_EXTENSIONS = true ->
  is_search_cache_file p = false.
Proof.
  intros Hext.
  destruct (is_search_cache_file p) eqn:Ec; [|done]. exfalso.
  unfold is_search_cache_file in Ec.
  destruct (strip_prefix (CACHE_DIR ++ [sep]) p) as [filename|] eqn:Ep; [|done].
  apply strip_prefix_app in Ep.
  apply andb_true_iff in Ec as [_ Ec]. apply endswith_app in Ec as [pre Ef].
  assert (Hpkl : u ".pkl" = [46; 112; 107] ++ [108]) by (vm_compute; reflexivity).
  assert (Hlast : List.last (lower p) 0 = 108).
  { rewrite Ep, Ef, Hpkl, !app_assoc, lower_app. apply List.last_last. }
  apply existsb_exists in Hext as (ext & Hin & He).
  apply endswith_app in He as [pre' Hl].
  assert (Hother : List.last ext 0 <> 108).
  { assert (Hall : forallb (fun x => negb (List.last x 0 =? 108))
                     SUPPORTED_EXTENSIONS = true) by (vm_compute; reflexivity).
    rewrite forallb_forall in Hall. specialize (Hall _ Hin).
    by apply negb_true_iff, Z.eqb_neq in Hall. }
  assert (Hne : ext <> []).
  { assert (Hall : forallb (fun x => negb (bool_decide (x = [])))
                     SUPPORTED_EXTENSIONS = true) by (vm_compute; reflexivity).
    rewrite forallb_forall in Hall. specialize (Hall _ Hin).
    apply negb_true_iff, bool_decide_eq_false in Hall. exact Hall. }
  rewrite Hl in Hlast.
  destruct (exists_last Hne) as (ext' & c & ->).
  rewrite app_assoc, List.last_last in Hlast.
  rewrite List.last_last in Hother. done.
Qed.

(** X17. The same file twice.  After an add that succeeded for a file
    with a fingerprint, a second add of the same path that is not
    forced and whose duplicate look-up is answered is turned down as a
    duplicate and changes nothing; the fingerprint comes from the memo
    table, and the row named holds it.  When no row held the fingerprint
    before, the row named is the one the first add stored. *)
Theorem second_add_is_duplicate (self : agent) (e1 e2 : env) (st st1 : state)
  (file_path : path) (force_reparse : bool) (override1 override2 : overrides)
  (doc_id : Z) (archive_path : path) (parsed_data : edata) (h : str) :
  _add_document_impl self e1 st file_path force_reparse override1
  = Some (Added doc_id archive_path parsed_data, st1) ->
  is_file (w_fs (st_world st)) file_path = true ->
  fst (hashed e1 st file_path) = Some h ->
  h <> [] ->
  select_fails e2 = false ->
  exists r st2,
    _add_document_impl self e2 st1 file_path false override2
    = Some (Duplicate (msg_duplicate (id r)) (id r), st2)
    /\ st_world st2 = st_world st1
    /\ In r (rows (w_db (st_world st1)))
    /\ World.file_hash r = Some h
    /\ ((forall r0, In r0 (rows (w_db (st_world st))) ->
                    World.file_hash r0 <> Some h) ->
        id r = doc_id).
Proof.
  intros Hfirst Hfile Hh Hne Hsel.
  destruct (add_impl_cases self e1 st file_path force_reparse override1)
    as [(err & H & _) | (Hex & Hext & [(h' & r' & _ & _ & _ & _ & H) | H])];
    rewrite H in Hfirst; [done | done |].
  apply parse_place_store_spec in Hfirst
    as (Hcache & Hinit & Hdirs & Hkept & _ & Hins & Hhash & Hpath & _).
  rewrite Hh in Hhash.
  apply AddExtra.insert_appends in Hins as (Hid & Hrows & Hlast & _).
  (* the file is still there, with the same contents *)
  unfold is_file in Hfile. apply bool_decide_eq_true in Hfile as [b Hb].
  assert (Hb1 : files (w_fs (st_world st1)) !! file_path = Some b).
  { apply Hkept; [done|]. by apply supported_not_cache. }
  assert (Hsize : getsize e2 (w_fs (st_world st1)) file_path
                  = getsize e1 (w_fs (st_world st)) file_path).
  { unfold getsize. unfold bytes in *. by rewrite Hb, Hb1. }
  (* the memo table answers *)
  assert (Hmemo : fst (hashed e2 st1 file_path) = Some h).
  { unfold hashed. rewrite Hsize, Hcache.
    unfold _get_file_hash at 1. unfold hashed.
    rewrite HashExtra.cache_after_call. cbn [fst]. exact Hh. }
  (* the look-up by fingerprint finds a row *)
  assert (Hrow : exists r, select_one World.file_hash h (w_db (st_world st1)) = Some r).
  { apply DuplicateProps.select_one_finds.
    exists (row_of parsed_data doc_id). split.
    - rewrite Hrows. apply in_or_app. right. by left.
    - cbn [row_of World.file_hash]. exact Hhash. }
  destruct Hrow as [r Hr].
  pose proof (DuplicateProps.select_one_some _ _ _ _ Hr) as [Hin Hrh].
  assert (Hdup : _check_duplicate_document e2 (w_db (st_world st1)) (Some h) file_path
                 = Some r).
  { unfold _check_duplicate_document.
    rewrite Hsel, (DuplicateProps.truthy_nonempty h Hne).
    change (default [] (Some h)) with h. by rewrite Hr. }
  destruct (add_impl_cases self e2 st1 file_path false override2)
    as [(err & _ & [Hno | Hno]) | (_ & _ & [(h2 & r2 & _ & Hh2 & _ & Hd2 & H2) | H2])].
  - exfalso. unfold path_exists, is_file in Hno.
    apply orb_false_iff in Hno as [Hno _]. apply bool_decide_eq_false in Hno.
    apply Hno. eauto.
  - congruence.
  - rewrite Hmemo in Hh2. injection Hh2 as <-.
    rewrite Hdup in Hd2. injection Hd2 as <-.
    eexists r, _. split; [exact H2|].
    refine (conj eq_refl (conj Hin (conj Hrh _))).
    intros Hfresh. rewrite Hrows in Hin.
    apply in_app_or in Hin as [Hin | [<- | []]].
    + exfalso. by apply (Hfresh r).
    + reflexivity.
  - exfalso. revert H2. unfold _add_document_impl. cbv zeta.
    assert (Hex1 : path_exists (w_fs (st_world st1)) file_path = true).
    { unfold path_exists, is_file. apply orb_true_iff. left.
      apply bool_decide_eq_true. eauto. }
    rewrite Hex1, Hext. cbn [negb].
    fold (hashed e2 st1 file_path).
    destruct (hashed e2 st1 file_path) as [fh cache2] eqn:Eh2.
    cbn [fst snd] in Hmemo |- *. subst fh.
    rewrite (DuplicateProps.truthy_nonempty h Hne). cbn [andb].
    rewrite Hdup. intros H2.
    symmetry in H2. apply parse_place_store_spec in H2 as (_ & _ & _ & _ & _ & []).
Qed.

(** *** A small archive to run the operation on *)

Definition plain_env : env :=
  Env (u "20250801_120000") 2025 false (fun _ => None)
      (fun _ => Some (u "Висновок експерта")) (fun _ => None)
      (fun _ => false) (fun _ _ => false) (fun b => 109 :: b)
      (fun _ => false) (fun _ => 0) false false (u "error").

Definition copying : agent := AgentCfg (u "archive") false default_keywords.

Definition fresh_state : state :=
  State (World_ (FS {[ u "in/a.docx" := [1; 2; 3] ]} ∅) (Table [] 0)) [] false.

Definition first_result : option (result * state) :=
  Eval vm_compute in
    _add_document_impl copying plain_env fresh_state (u "in/a.docx") false
      no_overrides.

Definition first_path : path :=
  Eval vm_compute in
    match first_result with
    | Some (Added _ archive_path _, _) => archive_path
    | _ => []
    end.

Definition first_record : edata :=
  Eval vm_compute in
    match first_result with
    | Some (Added _ _ parsed_data, _) => parsed_data
    | _ => _get_default_expertise_data plain_env (w_fs (st_world fresh_state)) []
    end.

Definition after_first : state :=
  Eval vm_compute in
    match first_result with
    | Some (_, st1) => st1
    | None => fresh_state
    end.

Lemma add_impl_table_change_witness :
  exists res st',
    _add_document_impl copying plain_env fresh_state (u "in/a.docx") false
      no_overrides = Some (res, st')
    /\ match res with
       | Added doc_id archive_path parsed_data =>
           rows (w_db (st_world st'))
           = rows (w_db (st_world fresh_state)) ++ [row_of parsed_data doc_id]
           /\ doc_id = last_rowid (w_db (st_world fresh_state)) + 1
           /\ last_rowid (w_db (st_world st')) = doc_id
           /\ Optimized.file_hash parsed_data
              = fst (hashed plain_env fresh_state (u "in/a.docx"))
           /\ Optimized.file_path parsed_data = archive_path
           /\ (index_only_mode copying = true -> archive_path = u "in/a.docx")
       | Failed _ => w_db (st_world st') = w_db (st_world fresh_state)
       | Duplicate _ _ => st_world st' = st_world fresh_state
       end.
Proof.
  apply (add_impl_table_change copying plain_env fresh_state (u "in/a.docx")
           false no_overrides).
  vm_compute. discriminate.
Defined.

Lemma second_add_is_duplicate_witness :
  exists r st2,
    _add_document_impl copying plain_env after_first (u "in/a.docx") false
      no_overrides
    = Some (Duplicate (msg_duplicate (id r)) (id r), st2)
    /\ st_world st2 = st_world after_first
    /\ In r (rows (w_db (st_world after_first)))
    /\ World.file_hash r = Some [109; 1; 2; 3]
    /\ ((forall r0, In r0 (rows (w_db (st_world fresh_state))) ->
                    World.file_hash r0 <> Some [109; 1; 2; 3]) ->
        id r = 1).
Proof.
  apply (second_add_is_duplicate copying plain_env plain_env fresh_state
           after_first (u "in/a.docx") false no_overrides no_overrides 1
           first_path first_record [109; 1; 2; 3]).
  - vm_compute. reflexivity.
  - vm_compute. reflexivity.
  - vm_compute. reflexivity.
  - discriminate.
  - reflexivity.
Defined.

Definition indexed_twice : state :=
  State (World_ (FS {[ u "in/b.docx" := [1; 2; 3] ]} ∅)
           (Table [Row 1 None None None None None (Some unknown_expert)
                     (Some default_sector) (Some (u "a.docx"))
                     (Some (u "archive/a.docx")) (Some 3)
                     (Some (109 :: [1; 2; 3]))] 1))
        [] false.

Lemma duplicate_result_sound_witness :
  exists h r,
    fst (hashed plain_env indexed_twice (u "in/b.docx")) = Some h
    /\ h <> []
    /\ In r (rows (w_db (st_world indexed_twice)))
    /\ id r = 1
    /\ (World.file_hash r = Some h
        \/ World.source_file r = Some (basename (u "in/b.docx"))).
Proof.
  refine (proj2 (proj2 (proj2 (proj2
            (duplicate_result_sound copying plain_env indexed_twice
               (State (st_world indexed_twice)
                  (snd (hashed plain_env indexed_twice (u "in/b.docx"))) false)
               (u "in/b.docx") false no_overrides (msg_duplicate 1) 1 _))))).
  vm_compute. reflexivity.
Defined.

End StoreExtra.

(** ** The optimized agent: batches *)

Module BatchExtra.

Import World Optimized.

(** A record INSERT OR IGNORE passes over: the expert or the sector is
    missing (NOT NULL), or its expertise number is in the table
    (UNIQUE). *)
Definition passed_over (db : table) (data : edata) : Prop :=
  expert_name data = None
  \/ sector data = None
  \/ exists n, expertise_number data = Some n /\ rows_with_number db n <> [].

Lemma number_taken db n :
  rows_with_number db n <> [] -> unique_ok db (Some n) = false.
Proof.
  unfold rows_with_number, unique_ok. intros H.
  apply negb_false_iff.
  induction (rows db) as [|r rs IH]; simpl in *; [done|].
  destruct (bool_decide (World.expertise_number r = Some n)); [done|].
  by apply IH.
Qed.

Lemma insert_or_ignore_spec db data :
  let db1 := fst (insert_or_ignore db data) in
  let k := snd (insert_or_ignore db data) in
  (k <= 1)%nat
  /\ (exists added, rows db1 = rows db ++ added /\ length added = k)
  /\ last_rowid db1 = last_rowid db + Z.of_nat k
  /\ (AddProps.number_unique db -> AddProps.number_unique db1)
  /\ (passed_over db data -> insert_or_ignore db data = (db, 0%nat)).
Proof.
  unfold insert_or_ignore.
  assert (Hsame : forall t : table,
             (0 <= 1)%nat
             /\ (exists added, rows t = rows t ++ added /\ length added = 0%nat)
             /\ last_rowid t = last_rowid t + Z.of_nat 0
             /\ (AddProps.number_unique t -> AddProps.number_unique t)).
  { intros t. split; [lia|]. split; [exists []; by rewrite app_nil_r|].
    split; [simpl; lia | done]. }
  destruct (expert_name data) as [expert|] eqn:Ee; cbn [fst snd];
    [|destruct (Hsame db) as (? & ? & ? & ?); done].
  destruct (sector data) as [sec|] eqn:Es; cbn [fst snd];
    [|destruct (Hsame db) as (? & ? & ? & ?); done].
  destruct (insert db (row_of data)) as [[rowid db1]|] eqn:Ei; cbn [fst snd].
  - pose proof (AddExtra.insert_appends _ _ _ _ Ei) as (Hid & Hrows & Hlast & Hok).
    split; [lia|]. split; [by eexists|]. split; [simpl; lia|].
    split; [intros Hu; by eapply AddProps.insert_unique|].
    intros [? | [? | (n & Hn & Htaken)]]; [congruence | congruence |].
    exfalso. cbn [row_of World.expertise_number] in Hok.
    rewrite Hn, (number_taken _ _ Htaken) in Hok. done.
  - destruct (Hsame db) as (? & ? & ? & ?); done.
Qed.

Lemma insert_all_cons db data rest :
  insert_all db (data :: rest)
  = (fst (insert_all (fst (insert_or_ignore db data)) rest),
     (snd (insert_or_ignore db data)
      + snd (insert_all (fst (insert_or_ignore db data)) rest))%nat).
Proof.
  cbn [insert_all]. destruct (insert_or_ignore db data) as [db1 k].
  cbn [fst snd]. by destruct (insert_all db1 rest).
Qed.

(** The rows of two batches one after the other are the rows of the two
    batches as one. *)
Lemma insert_all_app db l1 l2 :
  insert_all db (l1 ++ l2)
  = (fst (insert_all (fst (insert_all db l1)) l2),
     (snd (insert_all db l1) + snd (insert_all (fst (insert_all db l1)) l2))%nat).
Proof.
  revert db. induction l1 as [|d l1 IH]; intros db.
  - simpl. by destruct (insert_all db l2).
  - rewrite <- app_comm_cons, !insert_all_cons, IH. cbn [fst snd].
    f_equal. lia.
Qed.

Lemma insert_all_spec db batch_data :
  let db1 := fst (insert_all db batch_data) in
  let k := snd (insert_all db batch_data) in
  (k <= length batch_data)%nat
  /\ (exists added, rows db1 = rows db ++ added /\ length added = k)
  /\ last_rowid db1 = last_rowid db + Z.of_nat k
  /\ (AddProps.number_unique db -> AddProps.number_unique db1).
Proof.
  revert db. induction batch_data as [|d rest IH]; intros db.
  - simpl. split; [lia|]. split; [exists []; by rewrite app_nil_r|].
    split; [lia | done].
  - rewrite insert_all_cons. cbn [fst snd length].
    destruct (insert_or_ignore_spec db d) as (Hk & (a1 & Hr1 & Hl1) & Hlast1 & Hu1 & _).
    destruct (IH (fst (insert_or_ignore db d)))
      as (Hk2 & (a2 & Hr2 & Hl2) & Hlast2 & Hu2).
    split; [lia|]. split.
    + exists (a1 ++ a2). rewrite Hr2, Hr1, <- app_assoc, length_app. split; [done | lia].
    + split; [lia | auto].
Qed.

Lemma insert_all_passed_over db batch_data :
  (forall data, In data batch_data -> passed_over db data) ->
  insert_all db batch_data = (db, 0%nat).
Proof.
  induction batch_data as [|d rest IH]; intros H; [done|].
  rewrite insert_all_cons.
  destruct (insert_or_ignore_spec db d) as (_ & _ & _ & _ & Hp).
  rewrite Hp by (apply H; by left). cbn [fst snd].
  rewrite IH; [done|]. intros data Hin. apply H. by right.
Qed.

(** X18. [_save_batch_to_database].  The count it reports as processed
    is at most the size of the batch.  When the write goes through, it
    reports no error and the rows stored are appended to the table, as
    many as it reports as processed; when the batch cannot be written
    (the connection, the insert or the commit raises), every record of
    the batch is reported as an error and no row is stored.
    The expertise numbers stay unique.  Records that INSERT OR IGNORE
    passes over (expert or sector missing, number already in the table)
    are counted neither as processed nor as errors: a batch of such
    records, written without a fault, reports (0, 0) and stores
    nothing. *)
Theorem save_batch_counts (e : env) (db : table) (batch_data : list edata) :
  let res := _save_batch_to_database e db batch_data in
  let processed := fst (fst res) in
  let errors := snd (fst res) in
  let db1 := snd res in
  (processed <= length batch_data)%nat
  /\ (exists added,
         rows db1 = rows db ++ added
         /\ (length added <= processed)%nat
         /\ (insert_fails e = false -> length added = processed)
         /\ (insert_fails e = true -> added = []))
  /\ (insert_fails e = false -> errors = 0%nat)
  /\ (insert_fails e = true -> errors = length batch_data)
  /\ (AddProps.number_unique db -> AddProps.number_unique db1)
  /\ (insert_fails e = false ->
      (forall data, In data batch_data -> passed_over db data) ->
      processed = 0%nat /\ errors = 0%nat /\ rows db1 = rows db).
Proof.
  unfold _save_batch_to_database.
  destruct (insert_fails e) eqn:Ef; cbn [fst snd].
  - split; [lia|]. split; [exists []; by rewrite app_nil_r|]. done.
  - destruct (insert_all_spec db batch_data) as (Hk & (added & Hr & Hl) & _ & Hu).
    pose proof (insert_all_passed_over db batch_data) as Hp.
    destruct (insert_all db batch_data) as [db1 k]. cbn [fst snd] in *.
    split; [done|].
    split; [exists added; split; [done|]; split; [lia|]; done|].
    split; [done|]. split; [done|]. split; [done|].
    intros _ H. injection (Hp H) as -> ->. done.
Qed.

(** *** The loop over the files *)

Lemma save_batch_spec e db batch_data :
  let res := _save_batch_to_database e db batch_data in
  (exists added, rows (snd res) = rows db ++ added
                 /\ length added = fst (fst res))
  /\ (fst (fst res) + snd (fst res) <= length batch_data)%nat
  /\ (AddProps.number_unique db -> AddProps.number_unique (snd res)).
Proof.
  unfold _save_batch_to_database.
  destruct (insert_fails e); cbn [fst snd].
  - split; [exists []; by rewrite app_nil_r|]. split; [lia | done].
  - destruct (insert_all_spec db batch_data) as (Hk & Hadd & Hlast & Hu).
    destruct (insert_all db batch_data) as [db1 k]. cbn [fst snd] in *.
    split; [done|]. split; [lia | done].
Qed.

(** What the loop keeps, from one state of it to a later one. *)
Definition advanced (b b' : batch_state) (n : nat) : Prop :=
  (exists added, rows (b_db b') = rows (b_db b) ++ added
                 /\ b_processed b' = (b_processed b + length added)%nat)
  /\ (b_processed b' + b_errors b' + length (b_batch b')
      <= b_processed b + b_errors b + length (b_batch b) + n)%nat
  /\ (AddProps.number_unique (b_db b) -> AddProps.number_unique (b_db b')).

Lemma advanced_refl b : advanced b b 0.
Proof.
  split; [exists []; rewrite app_nil_r; simpl; split; [done | lia]|].
  split; [lia | done].
Qed.

Lemma advanced_trans b1 b2 b3 n m :
  advanced b1 b2 n -> advanced b2 b3 m -> advanced b1 b3 (n + m).
Proof.
  intros ((a1 & Hr1 & Hp1) & Hc1 & Hu1) ((a2 & Hr2 & Hp2) & Hc2 & Hu2).
  split.
  - exists (a1 ++ a2). rewrite Hr2, Hr1, <- app_assoc, length_app.
    split; [done | lia].
  - split; [lia | auto].
Qed.

Lemma batch_step_advanced self e fs batch_size b file_path :
  advanced b (batch_step self e fs batch_size b file_path) 1.
Proof.
  unfold batch_step.
  destruct (record_for self e fs (b_cache b) file_path) as [data cache1].
  destruct (batch_size <=? Z.of_nat (length (b_batch b ++ [data]))).
  - destruct (save_batch_spec e (b_db b) (b_batch b ++ [data]))
      as ((added & Hr & Hl) & Hc & Hu).
    destruct (_save_batch_to_database e (b_db b) (b_batch b ++ [data]))
      as [[batch_processed batch_errors] db1].
    cbn [fst snd] in *. rewrite length_app in Hc. simpl in Hc.
    split; [exists added; simpl; split; [done | lia]|].
    split; [simpl; lia | done].
  - split; [exists []; simpl; rewrite app_nil_r; split; [done | lia]|].
    split; [simpl; rewrite length_app; simpl; lia | done].
Qed.

Lemma batch_loop_advanced self env_of fs batch_size files_list :
  forall i b,
    advanced b (batch_loop self env_of fs batch_size i b files_list)
      (length files_list).
Proof.
  induction files_list as [|file_path rest IH]; intros i b.
  - apply advanced_refl.
  - cbn [batch_loop length].
    apply (advanced_trans _ _ _ 1 (length rest)
             (batch_step_advanced self (env_of i) fs batch_size b file_path)
             (IH (S i) _)).
Qed.

(** X19. [_process_files_in_batches], whatever fails on the way to the
    database: the total reported is the number of files given; neither
    the count of processed records nor the count of errors exceeds the
    number of files; the rows stored are appended to the table, and
    there are at most as many of them as the result reports as
    processed; no error detail is reported; and the expertise numbers
    stay unique. *)
Theorem batch_totals (self : agent) (env_of : nat -> env) (st : state)
  (files_list : list path) (batch_size : Z) :
  let out := _process_files_in_batches self env_of st files_list batch_size in
  total_files (fst out) = length files_list
  /\ (processed (fst out) <= length files_list)%nat
  /\ (errors (fst out) <= length files_list)%nat
  /\ (exists added,
         rows (w_db (st_world (snd out))) = rows (w_db (st_world st)) ++ added
         /\ (length added <= processed (fst out))%nat)
  /\ error_details (fst out) = []
  /\ _cache_initialized (snd out) = _cache_initialized st
  /\ (AddProps.number_unique (w_db (st_world st)) ->
      AddProps.number_unique (w_db (st_world (snd out)))).
Proof.
  unfold _process_files_in_batches. cbv zeta.
  pose proof (batch_loop_advanced self env_of (w_fs (st_world st)) batch_size
                files_list 0%nat
                (BatchState (w_db (st_world st)) (hash_cache st) [] 0 0))
    as ((added & Hr & Hp) & Hc & Hu).
  set (b := batch_loop _ _ _ _ _ _ _) in *.
  cbn [b_db b_processed b_errors b_batch length] in Hr, Hp, Hc, Hu.
  destruct (b_batch b) as [|d rest] eqn:Eb.
  - cbn [fst snd total_files processed errors error_details st_world w_fs w_db
         _cache_initialized].
    simpl in Hc.
    refine (conj eq_refl (conj _ (conj _ (conj _ (conj eq_refl (conj eq_refl Hu)))))).
    + lia.
    + lia.
    + exists added. split; [done | lia].
  - destruct (save_batch_spec (env_of (length files_list)) (b_db b) (d :: rest))
      as ((added2 & Hr2 & Hl2) & Hc2 & Hu2).
    destruct (_save_batch_to_database _ (b_db b) (d :: rest))
      as [[batch_processed batch_errors] db1].
    cbn [fst snd total_files processed errors error_details st_world w_fs w_db
         _cache_initialized] in *.
    refine (conj eq_refl (conj _ (conj _ (conj _ (conj eq_refl (conj eq_refl _)))))).
    + lia.
    + lia.
    + exists (added ++ added2). rewrite Hr2, Hr, <- app_assoc, length_app.
      split; [done | lia].
    + auto.
Qed.

(** *** The size of the batches *)

(** The records of the files in order, each with the fingerprint the
    memo table gives at its turn. *)
Fixpoint records_from (self : agent) (env_of : nat -> env) (fs : fsys) (i : nat)
  (cache : list ((path * Z) * option str)) (files_list : list path)
  : list edata :=
  match files_list with
  | [] => []
  | file_path :: rest =>
      fst (record_for self (env_of i) fs cache file_path)
      :: records_from self env_of fs (S i)
           (snd (record_for self (env_of i) fs cache file_path)) rest
  end.

Lemma save_batch_plain e db batch_data :
  insert_fails e = false ->
  _save_batch_to_database e db batch_data
  = ((snd (insert_all db batch_data), 0%nat), fst (insert_all db batch_data)).
Proof.
  intros H. unfold _save_batch_to_database. rewrite H.
  by destruct (insert_all db batch_data).
Qed.

Lemma batch_loop_flush self env_of fs batch_size files_list :
  (forall i, insert_fails (env_of i) = false) ->
  forall i b,
    let b' := batch_loop self env_of fs batch_size i b files_list in
    let all := b_batch b ++ records_from self env_of fs i (b_cache b) files_list in
    fst (insert_all (b_db b') (b_batch b')) = fst (insert_all (b_db b) all)
    /\ (b_processed b' + snd (insert_all (b_db b') (b_batch b')))%nat
       = (b_processed b + snd (insert_all (b_db b) all))%nat
    /\ b_errors b' = b_errors b.
Proof.
  intros Hok. induction files_list as [|file_path rest IH]; intros i b.
  - cbn [batch_loop records_from]. rewrite app_nil_r. done.
  - cbn [batch_loop records_from]. cbv zeta.
    specialize (IH (S i) (batch_step self (env_of i) fs batch_size b file_path)).
    cbv zeta in IH. destruct IH as (Hdb & Hcount & Herr).
    rewrite Hdb, Hcount, Herr. clear Hdb Hcount Herr.
    unfold batch_step.
    destruct (record_for self (env_of i) fs (b_cache b) file_path)
      as [data cache1]. cbn [fst snd].
    replace (b_batch b ++ data :: records_from self env_of fs (S i) cache1 rest)
      with ((b_batch b ++ [data]) ++ records_from self env_of fs (S i) cache1 rest)
      by (by rewrite <- app_assoc).
    destruct (batch_size <=? Z.of_nat (length (b_batch b ++ [data]))).
    + rewrite (save_batch_plain _ _ _ (Hok i)).
      cbn [b_db b_batch b_cache b_processed b_errors app].
      rewrite (insert_all_app (b_db b) (b_batch b ++ [data])). cbn [fst snd].
      split; [done|]. split; [lia | lia].
    + cbn [b_db b_batch b_cache b_processed b_errors]. done.
Qed.

(** X20. The size of the batches does not matter to what is stored.
    When no write to the database fails, [_process_files_in_batches]
    leaves the table that INSERT OR IGNORE of all the records, in the
    order of the files, gives in one run, reports the rows that run
    stores as processed, and reports no error - for every
    [batch_size], zero and negative ones included. *)
Theorem batch_size_irrelevant (self : agent) (env_of : nat -> env) (st : state)
  (files_list : list path) (batch_size : Z) :
  (forall i, insert_fails (env_of i) = false) ->
  let out := _process_files_in_batches self env_of st files_list batch_size in
  let all :=
    insert_all (w_db (st_world st))
      (records_from self env_of (w_fs (st_world st)) 0 (hash_cache st) files_list) in
  w_db (st_world (snd out)) = fst all
  /\ processed (fst out) = snd all
  /\ errors (fst out) = 0%nat.
Proof.
  intros Hok. unfold _process_files_in_batches. cbv zeta.
  pose proof (batch_loop_flush self env_of (w_fs (st_world st)) batch_size
                files_list Hok 0%nat
                (BatchState (w_db (st_world st)) (hash_cache st) [] 0 0))
    as (Hdb & Hcount & Herr).
  cbv zeta in Hdb, Hcount, Herr.
  set (b := batch_loop _ _ _ _ _ _ _) in *.
  cbn [b_db b_processed b_errors b_batch b_cache app] in Hdb, Hcount, Herr.
  rewrite <- Hdb. clear Hdb.
  destruct (b_batch b) as [|d rest] eqn:Eb.
  - cbn [insert_all fst snd] in *.
    cbn [processed errors st_world w_db fst snd].
    split; [done|]. split; lia.
  - rewrite (save_batch_plain _ _ _ (Hok (length files_list))).
    cbn [processed errors st_world w_db fst snd].
    split; [done|]. split; lia.
Qed.

(** *** Two files, written one at a time or together *)

Definition two_files : state :=
  State (World_ (FS {[ u "in/a.docx" := [1; 2; 3]; u "in/b.docx" := [4] ]} ∅)
           (Table [] 0)) [] false.

Definition two_paths : list path := [u "in/a.docx"; u "in/b.docx"].

Lemma batch_size_irrelevant_witness :
  let out :=
    _process_files_in_batches StoreExtra.copying (fun _ => StoreExtra.plain_env)
      two_files two_paths 1 in
  let all :=
    insert_all (w_db (st_world two_files))
      (records_from StoreExtra.copying (fun _ => StoreExtra.plain_env)
         (w_fs (st_world two_files)) 0 (hash_cache two_files) two_paths) in
  w_db (st_world (snd out)) = fst all
  /\ processed (fst out) = snd all
  /\ errors (fst out) = 0%nat.
Proof.
  apply (batch_size_irrelevant StoreExtra.copying (fun _ => StoreExtra.plain_env)
           two_files two_paths 1).
  intros i. reflexivity.
Defined.

End BatchExtra.

(** ** The optimized agent: the label and the keywords *)

Module WeightExtra.

Import Optimized Dict DictFacts.

(** [s.count(k)] is positive exactly when [k in s]. *)
Lemma count_from_positive k s :
  forall fuel, (length s < fuel)%nat ->
               (0 < count_from fuel s k)%nat <-> contains s k = true.
Proof.
  induction s as [|c t IH]; intros fuel Hfuel;
    (destruct fuel as [|f]; [simpl in Hfuel; lia|]).
  - cbn [count_from contains].
    destruct (strip_prefix k []) as [rest|]; [|split; [lia | done]].
    destruct k; split; (lia || done).
  - cbn [count_from contains].
    destruct (strip_prefix k (c :: t)) as [rest|].
    + destruct k; split; (lia || done).
    + apply IH. simpl in Hfuel. lia.
Qed.

Lemma count_positive s k : (0 < count s k)%nat <-> contains s k = true.
Proof. unfold count. apply count_from_positive. lia. Qed.

(** The keyword occurs in the text, upper and lower case taken as one:
    the lowercased text holds the lowercased keyword as a run of
    consecutive characters. *)
Definition occurs (content keyword : str) : Prop :=
  AgentProps.occurs_in (lower keyword) (lower content).

(** The type has a keyword that occurs in the text. *)
Definition backed (self : agent) (content : str) (type : str) : Prop :=
  exists keywords keyword,
    In (type, keywords) (expertise_keywords self)
    /\ In keyword keywords
    /\ occurs content keyword.

Lemma keyword_weight_grows keywords content_lower :
  forall weight,
    weight <= keyword_weight keywords content_lower weight
    /\ (weight < keyword_weight keywords content_lower weight
        <-> exists keyword, In keyword keywords
                            /\ contains content_lower (lower keyword) = true).
Proof.
  induction keywords as [|keyword rest IH]; intros weight.
  - simpl. split; [lia|]. split; [lia | by intros (? & [] & _)].
  - cbn [keyword_weight]. cbv zeta.
    pose proof (count_positive content_lower (lower keyword)) as Hc.
    set (cnt := Z.of_nat (count content_lower (lower keyword))) in *.
    assert (Hcnt : 0 <= cnt) by (subst cnt; lia).
    assert (Hpos : 0 < cnt <-> contains content_lower (lower keyword) = true).
    { rewrite <- Hc. subst cnt. lia. }
    assert (Hstep : forall w', weight <= w' -> (weight < w' <-> 0 < cnt) ->
               weight <= keyword_weight rest content_lower w'
               /\ (weight < keyword_weight rest content_lower w'
                   <-> exists kw, In kw (keyword :: rest)
                                  /\ contains content_lower (lower kw) = true)).
    { intros w' Hle Hlt. destruct (IH w') as [Hge Hiff]. split; [lia|]. split.
      - intros H. destruct (Z.lt_ge_cases weight w') as [Hw | Hw].
        + exists keyword. split; [by left|]. apply Hpos, Hlt, Hw.
        + assert (w' < keyword_weight rest content_lower w') as Hr by lia.
          apply Hiff in Hr as (kw & Hin & Hk). exists kw. split; [by right | done].
      - intros (kw & [<- | Hin] & Hk).
        + apply Hpos, Hlt in Hk. lia.
        + assert (w' < keyword_weight rest content_lower w') as Hr
            by (apply Hiff; eauto).
          lia. }
    destruct (matched _); apply Hstep; lia.
Qed.

Lemma keyword_weight_positive keywords content_lower :
  (0 <? keyword_weight keywords content_lower 0) = true
  <-> exists keyword, In keyword keywords
                      /\ contains content_lower (lower keyword) = true.
Proof.
  rewrite Z.ltb_lt. apply keyword_weight_grows.
Qed.

Lemma set_keys_in {V} (d : dict V) k v k' :
  In k' (List.map fst (set d k v)) <-> k' = k \/ In k' (List.map fst d).
Proof.
  induction d as [|[k0 v0] d IH]; simpl.
  - split; [intros [<- | []]; by left | intros [-> | []]; by left].
  - destruct (str_eqb k k0) eqn:E; simpl.
    + apply str_eqb_eq in E. subst k0. split; [tauto|].
      intros [-> | H]; [by left | done].
    + rewrite IH. split; [tauto|]. tauto.
Qed.

(** The types that get a weight are those with a keyword in the text. *)
Lemma weigh_types_keys table content_lower :
  forall expertise_weights type,
    In type (List.map fst (weigh_types table content_lower expertise_weights))
    <-> In type (List.map fst expertise_weights)
        \/ exists keywords keyword,
             In (type, keywords) table /\ In keyword keywords
             /\ contains content_lower (lower keyword) = true.
Proof.
  induction table as [|[expertise_type keywords] rest IH];
    intros expertise_weights type.
  - simpl. split; [by left|]. by intros [? | (? & ? & [] & _)].
  - cbn [weigh_types]. cbv zeta. rewrite IH. clear IH.
    pose proof (keyword_weight_positive keywords content_lower) as Hw.
    destruct (0 <? keyword_weight keywords content_lower 0).
    + destruct (proj1 Hw eq_refl) as (keyword & Hin & Hk).
      rewrite set_keys_in. split.
      * intros [[-> | H] | (kws & kw & Hin' & Hkw & Hc)].
        -- right. exists keywords, keyword. split; [by left | done].
        -- by left.
        -- right. exists kws, kw. split; [by right | done].
      * intros [H | (kws & kw & [[= <- <-] | Hin'] & Hkw & Hc)].
        -- left. by right.
        -- left. by left.
        -- right. by exists kws, kw.
    + split.
      * intros [H | (kws & kw & Hin' & Hkw & Hc)]; [by left|].
        right. exists kws, kw. split; [by right | done].
      * intros [H | (kws & kw & [[= <- <-] | Hin'] & Hkw & Hc)].
        -- by left.
        -- assert (false = true) by (apply Hw; eauto). done.
        -- right. by exists kws, kw.
Qed.

(** X21. The label of the optimized classifier is backed by the text,
    for an agent with the keyword table [__init__] configures: when a
    keyword of some type occurs in the text (case ignored), the label
    returned is a type of the table with a keyword that occurs in the
    text; when no keyword occurs, the label is "невизначено". *)
Theorem label_backed_by_keyword (self : agent) (content : str) :
  expertise_keywords self = default_keywords ->
  let result := _determine_expertise_type self content in
  ((exists type, backed self content type) -> backed self content result)
  /\ ((forall type, ~ backed self content type) -> result = undetermined).
Proof.
  intros Htable.
  unfold _determine_expertise_type, backed, occurs. cbv zeta.
  pose proof (weigh_types_keys (expertise_keywords self) (lower content) []) as Hkeys.
  setoid_rewrite AgentProps.contains_occurs in Hkeys.
  destruct (max_key (weigh_types (expertise_keywords self) (lower content) []))
    as [best_type|] eqn:Emax.
  - apply ClassifierExtra.max_key_split in Emax as (pre & v & post & Hd & _).
    assert (Hin : In best_type
                    (List.map fst (weigh_types (expertise_keywords self)
                                     (lower content) []))).
    { rewrite Hd, List.map_app. apply in_or_app. right. by left. }
    apply Hkeys in Hin as [[] | Hb].
    split; [done|]. intros Hnone. exfalso. by apply (Hnone best_type).
  - split; [|done]. intros (type & Hb). exfalso.
    assert (Hin : In type (List.map fst (weigh_types (expertise_keywords self)
                                           (lower content) [])))
      by (apply Hkeys; by right).
    destruct (weigh_types _ _ _) as [|[k v] d]; [done | discriminate Emax].
Qed.

Lemma label_backed_by_keyword_witness :
  let self := OptimizedProps.sample_agent in
  let content := u "Слід взуття на місці події" in
  let result := _determine_expertise_type self content in
  ((exists type, backed self content type) -> backed self content result)
  /\ ((forall type, ~ backed self content type) -> result = undetermined).
Proof.
  apply (label_backed_by_keyword OptimizedProps.sample_agent
           (u "Слід взуття на місці події")).
  reflexivity.
Defined.

End WeightExtra.
